(** * openclaw-setup.js: the wallet credential lifecycle

    A shallow embedding of the wallet part of [src/openclaw-setup.js]:
    [encryptKey] (lines 88-103), the [prompt] helper (217-252),
    [stepWalletSetup] (784-981) and the four wallet constructors
    [generateNewWallet], [importFromPrivateKey], [importFromSeedPhrase] and
    [connectHardwareWallet] (983-1093).

    JavaScript values are modelled by [jsval]; strings are sequences of UTF-16
    code units; buffers are lists of bytes.  The program runs in a small
    monad [M] that threads the process state ([World]), keeps a trace of
    events and distinguishes a thrown exception from a prompt that never
    resolves.  The third-party packages (node:crypto, bip39, ed25519-hd-key,
    @solana/web3.js, bs58) are interfaces ([CryptoLib], [SolanaLib]); what is
    assumed of them is collected in [CryptoLaws] and [SolanaLaws].

    Of the rest of the wizard the file embeds [createBox] (190-215),
    [loadConfig] (260-268), [runCommand] (275-304) and the steps
    [stepWelcome], [stepCheckDependencies], [stepInstallOpenClaw],
    [stepOnboarding] (319-556) and [stepFinalConfiguration] (1095-1134). *)

From Stdlib Require Import String Ascii NArith ZArith Arith Lia Bool List.
From Stdlib.Strings Require Import Byte.
#[local] Set Warnings "-register-all".
Import ListNotations.
Local Open Scope string_scope.
Local Open Scope list_scope.

(** ** Buffers and strings *)

(** A [Buffer] / [Uint8Array]. *)
Definition bytes := list byte.

(** A JavaScript string: its UTF-16 code units, each below 65536. *)
Definition jsstring := list N.

(** The code units of an ASCII literal of the source. *)
Definition js (s : string) : jsstring :=
  map N_of_ascii (list_ascii_of_string s).

(** Storing a number in a byte keeps its low eight bits. *)
Definition byte_of_N (n : N) : byte :=
  match Byte.of_N (n mod 256) with
  | Some b => b
  | None => x00
  end.

(** *** Hexadecimal: [buf.toString('hex')] and [Buffer.from(s, 'hex')] *)

Definition hex_digit (d : N) : N :=
  if (d <? 10)%N then (48 + d)%N else (87 + d)%N.

Definition hex_of_byte (b : byte) : jsstring :=
  let n := Byte.to_N b in [hex_digit (n / 16); hex_digit (n mod 16)].

Definition toHex (b : bytes) : jsstring := flat_map hex_of_byte b.

Definition hex_value (c : N) : option N :=
  if ((48 <=? c) && (c <=? 57))%N then Some (c - 48)%N
  else if ((97 <=? c) && (c <=? 102))%N then Some (c - 87)%N
  else if ((65 <=? c) && (c <=? 70))%N then Some (c - 55)%N
  else None.

(** Node decodes pairs of hex digits and stops, without an error, at the first
    pair that is not one; a trailing single character is dropped. *)
Fixpoint fromHex (s : jsstring) : bytes :=
  match s with
  | hi :: lo :: rest =>
      match hex_value hi, hex_value lo with
      | Some h, Some l => byte_of_N (16 * h + l) :: fromHex rest
      | _, _ => []
      end
  | _ => []
  end.

(** A lowercase hexadecimal digit, as [toString('hex')] writes them. *)
Definition is_hex_char (c : N) : bool :=
  ((48 <=? c) && (c <=? 57) || (97 <=? c) && (c <=? 102))%N.

Definition is_hex (s : jsstring) : bool := forallb is_hex_char s.

(** *** UTF-8: how Node turns a string argument into bytes *)

Definition is_high (c : N) : bool := ((0xD800 <=? c) && (c <=? 0xDBFF))%N.
Definition is_low (c : N) : bool := ((0xDC00 <=? c) && (c <=? 0xDFFF))%N.

Definition utf8_point (p : N) : bytes :=
  if (p <? 0x80)%N then [byte_of_N p]
  else if (p <? 0x800)%N then
    [byte_of_N (0xC0 + p / 64); byte_of_N (0x80 + p mod 64)]
  else if (p <? 0x10000)%N then
    [byte_of_N (0xE0 + p / 4096); byte_of_N (0x80 + (p / 64) mod 64);
     byte_of_N (0x80 + p mod 64)]
  else
    [byte_of_N (0xF0 + p / 262144); byte_of_N (0x80 + (p / 4096) mod 64);
     byte_of_N (0x80 + (p / 64) mod 64); byte_of_N (0x80 + p mod 64)].

(** A surrogate pair is one code point (four bytes); a surrogate on its own
    is written as U+FFFD. *)
Fixpoint utf8_encode (s : jsstring) : bytes :=
  match s with
  | [] => []
  | c :: rest =>
      if is_high c then
        match rest with
        | d :: rest' =>
            if is_low d
            then utf8_point (0x10000 + (c - 0xD800) * 1024 + (d - 0xDC00))
                   ++ utf8_encode rest'
            else utf8_point 0xFFFD ++ utf8_encode rest
        | [] => utf8_point 0xFFFD
        end
      else if is_low c then utf8_point 0xFFFD ++ utf8_encode rest
      else utf8_point c ++ utf8_encode rest
  end.

Definition is_cont (b : byte) : bool :=
  let n := Byte.to_N b in ((0x80 <=? n) && (n <=? 0xBF))%N.

Definition cont_bits (b : byte) : N := (Byte.to_N b mod 64)%N.

(** The code units of a code point: itself, or a surrogate pair. *)
Definition units_of_point (p : N) : jsstring :=
  if (p <? 0x10000)%N then [p]
  else [(0xD800 + (p - 0x10000) / 1024)%N; (0xDC00 + (p - 0x10000) mod 1024)%N].

(** Decoding, as [decipher.update(text, 'hex', 'utf8')] renders bytes: a
    well-formed sequence gives its code point; of an ill-formed one each byte
    is rendered as U+FFFD on its own. *)
Fixpoint utf8_decode (b : bytes) : jsstring :=
  match b with
  | [] => []
  | x :: rest =>
      let n := Byte.to_N x in
      if (n <? 0x80)%N then n :: utf8_decode rest
      else if ((0xC2 <=? n) && (n <=? 0xDF))%N then
        match rest with
        | y :: rest1 =>
            if is_cont y
            then ((n - 0xC0) * 64 + cont_bits y)%N :: utf8_decode rest1
            else 0xFFFD%N :: utf8_decode rest
        | [] => [0xFFFD%N]
        end
      else if ((0xE0 <=? n) && (n <=? 0xEF))%N then
        match rest with
        | y :: z :: rest2 =>
            let p := ((n - 0xE0) * 4096 + cont_bits y * 64 + cont_bits z)%N in
            if is_cont y && is_cont z && (0x800 <=? p)%N
               && negb ((0xD800 <=? p) && (p <=? 0xDFFF))%N
            then p :: utf8_decode rest2
            else 0xFFFD%N :: utf8_decode rest
        | _ => 0xFFFD%N :: utf8_decode rest
        end
      else if ((0xF0 <=? n) && (n <=? 0xF4))%N then
        match rest with
        | y :: z :: w :: rest3 =>
            let p := ((n - 0xF0) * 262144 + cont_bits y * 4096
                      + cont_bits z * 64 + cont_bits w)%N in
            if is_cont y && is_cont z && is_cont w
               && (0x10000 <=? p)%N && (p <=? 0x10FFFF)%N
            then units_of_point p ++ utf8_decode rest3
            else 0xFFFD%N :: utf8_decode rest
        | _ => 0xFFFD%N :: utf8_decode rest
        end
      else 0xFFFD%N :: utf8_decode rest
  end.

(** A string of ASCII characters only (a hex string is one). *)
Definition is_ascii (s : jsstring) : bool := forallb (fun c => (c <? 0x80)%N) s.

(** ** JavaScript values *)

Inductive jsval : Type :=
| VUndefined
| VNull
| VBool (b : bool)
| VNum (n : N)
| VStr (s : jsstring)
| VBytes (b : bytes)
| VObj (fields : list (string * jsval)).

(** Property access [o.k]: a missing property reads as [undefined]. *)
Fixpoint lookup (k : string) (fs : list (string * jsval)) : jsval :=
  match fs with
  | [] => VUndefined
  | (k', v) :: rest => if String.eqb k k' then v else lookup k rest
  end.

Definition get (o : jsval) (k : string) : jsval :=
  match o with
  | VObj fs => lookup k fs
  | _ => VUndefined
  end.

(** Assignment [o.k = v]: an existing property keeps its place, a new one is
    added last.  (The wizard only ever assigns to objects.) *)
Fixpoint assign (k : string) (v : jsval) (fs : list (string * jsval))
  : list (string * jsval) :=
  match fs with
  | [] => [(k, v)]
  | (k', v') :: rest =>
      if String.eqb k k' then (k, v) :: rest else (k', v') :: assign k v rest
  end.

Definition set (o : jsval) (k : string) (v : jsval) : jsval :=
  match o with
  | VObj fs => VObj (assign k v fs)
  | _ => o
  end.

Definition keys (o : jsval) : list string :=
  match o with
  | VObj fs => map fst fs
  | _ => []
  end.

Definition truthy (v : jsval) : bool :=
  match v with
  | VUndefined | VNull => false
  | VBool b => b
  | VNum n => negb (n =? 0)%N
  | VStr s => negb (length s =? 0)%nat
  | VBytes _ | VObj _ => true
  end.

(** [a || b] *)
Definition js_or (a b : jsval) : jsval := if truthy a then a else b.

Definition jsstring_eqb (s t : jsstring) : bool :=
  (length s =? length t)%nat && forallb (fun p => N.eqb (fst p) (snd p)) (combine s t).

(** [a === b] on the primitive values the wizard compares; two objects or
    buffers are never the same reference here. *)
Definition strict_eq (a b : jsval) : bool :=
  match a, b with
  | VUndefined, VUndefined => true
  | VNull, VNull => true
  | VBool x, VBool y => Bool.eqb x y
  | VNum x, VNum y => N.eqb x y
  | VStr s, VStr t => jsstring_eqb s t
  | _, _ => false
  end.

(** What [JSON.stringify] keeps of a value: a property whose value is
    [undefined] is left out. *)
Fixpoint json (v : jsval) : jsval :=
  match v with
  | VObj fs =>
      VObj ((fix strip (l : list (string * jsval)) : list (string * jsval) :=
               match l with
               | [] => []
               | (k, VUndefined) :: rest => strip rest
               | (k, x) :: rest => (k, json x) :: strip rest
               end) fs)
  | _ => v
  end.

(** [input.length] of a prompt's input. *)
Definition js_length (v : jsval) : nat :=
  match v with
  | VStr s => length s
  | _ => 0
  end.

(** [toLowerCase] on the ASCII letters; the wizard only compares the result
    with 'y' and 'yes', which no other character lowercases to. *)
Definition toLowerCase (s : jsstring) : jsstring :=
  map (fun c => if ((65 <=? c) && (c <=? 90))%N then (c + 32)%N else c) s.

(** ** The process: state, events, outcomes *)

(** The message of a thrown [Error]. *)
Definition exn := string.

(** The trace of a run: the questions answered, the calls made (a record the
    model keeps, with the arguments), the files written, the seed phrase shown
    and the failure reported. *)
Inductive event : Type :=
| Asked (name : string) (answer : jsval)
| Called (fn : string) (args : list jsval)
| Wrote (path : string) (doc : jsval)
| Shown (text : jsval)
| Reported (msg : string).

Record World : Type := {
  inquirer : bool;              (* the optional prompt package was loaded *)
  ora : bool;                   (* the optional spinner package was loaded *)
  installed : string -> bool;   (* which packages [require] finds *)
  stdin : list jsstring;        (* what the user is going to enter *)
  entropy : nat -> byte;        (* the system's random byte source *)
  cursor : nat;                 (* how much of it has been drawn *)
  clock : jsstring;             (* new Date().toISOString() *)
  config : jsval;               (* the global [config] object *)
  files : list (string * jsval) (* the files on disk, newest first *)
}.

Definition with_stdin (l : list jsstring) (W : World) : World :=
  {| inquirer := inquirer W; ora := ora W; installed := installed W; stdin := l;
     entropy := entropy W; cursor := cursor W; clock := clock W;
     config := config W; files := files W |}.

Definition with_cursor (c : nat) (W : World) : World :=
  {| inquirer := inquirer W; ora := ora W; installed := installed W; stdin := stdin W;
     entropy := entropy W; cursor := c; clock := clock W;
     config := config W; files := files W |}.

Definition with_config (c : jsval) (W : World) : World :=
  {| inquirer := inquirer W; ora := ora W; installed := installed W; stdin := stdin W;
     entropy := entropy W; cursor := cursor W; clock := clock W;
     config := c; files := files W |}.

Definition with_files (f : list (string * jsval)) (W : World) : World :=
  {| inquirer := inquirer W; ora := ora W; installed := installed W; stdin := stdin W;
     entropy := entropy W; cursor := cursor W; clock := clock W;
     config := config W; files := f |}.

(** A computation returns, throws, or stops for good at a prompt that is
    never answered (which no [catch] sees). *)
Inductive outcome (A : Type) : Type :=
| Return (a : A)
| Throw (e : exn)
| Halt.
Arguments Return {A} a.
Arguments Throw {A} e.
Arguments Halt {A}.

Record run (A : Type) : Type := Run {
  out : outcome A;
  world : World;
  log : list event
}.
Arguments Run {A} out world log.
Arguments out {A} r.
Arguments world {A} r.
Arguments log {A} r.

Definition M (A : Type) : Type := World -> run A.

Definition ret {A} (a : A) : M A := fun W => Run (Return a) W [].
Definition throw {A} (e : exn) : M A := fun W => Run (Throw e) W [].
Definition halt {A} : M A := fun W => Run Halt W [].

Definition bind {A B} (m : M A) (f : A -> M B) : M B := fun W =>
  match m W with
  | Run (Return a) W1 l1 =>
      match f a W1 with
      | Run o W2 l2 => Run o W2 (l1 ++ l2)
      end
  | Run (Throw e) W1 l1 => Run (Throw e) W1 l1
  | Run Halt W1 l1 => Run Halt W1 l1
  end.

(** [try { m } catch (e) { h e }] *)
Definition try {A} (m : M A) (h : exn -> M A) : M A := fun W =>
  match m W with
  | Run (Throw e) W1 l1 =>
      match h e W1 with
      | Run o W2 l2 => Run o W2 (l1 ++ l2)
      end
  | r => r
  end.

Definition emit (e : event) : M unit := fun W => Run (Return tt) W [e].
Definition gets {A} (f : World -> A) : M A := fun W => Run (Return (f W)) W [].
Definition modify (f : World -> World) : M unit := fun W => Run (Return tt) (f W) [].

Declare Scope js_scope.
Delimit Scope js_scope with js.
Notation "x <- m ;; k" := (bind m (fun x => k))
  (at level 61, m at next level, right associativity) : js_scope.
Notation "m ;; k" := (bind m (fun _ => k))
  (at level 61, right associativity) : js_scope.
Local Open Scope js_scope.

(** ** [prompt] (lines 217-252) *)

(** A question object: the fields [prompt] and inquirer read.  [validate]
    answers [true] where the source's function returns [true] and [false]
    where it returns a message. *)
Record question : Type := {
  qtype : string;
  qname : string;
  choices : list jsstring;
  default : jsval;
  validate : option (jsval -> bool)
}.

(** The next line of input; at the end of input the question is never
    answered. *)
Definition read_line : M jsstring := fun W =>
  match stdin W with
  | [] => Run Halt W []
  | l :: rest => Run (Return l) (with_stdin rest W) []
  end.

(** Lines 236-244: what the readline fallback makes of a line.  [validate]
    is not consulted.  For a list question the numbered [choices] are printed
    once the line is read (lines 239-240); that is console output, which the
    trace does not record, and every list question of the wizard has its
    choices. *)
Definition readline_answer (q : question) (input : jsstring) : jsval :=
  if String.eqb (qtype q) "confirm" then
    VBool (jsstring_eqb (toLowerCase input) (js "y")
           || jsstring_eqb (toLowerCase input) (js "yes"))
  else if String.eqb (qtype q) "list" || String.eqb (qtype q) "select" then
    VStr input
  else js_or (VStr input) (default q).

(** Lines 228-248: one line per question, in order. *)
Fixpoint readline_prompt (questions : list question) (answers : jsval) : M jsval :=
  match questions with
  | [] => ret answers
  | q :: rest =>
      input <- read_line ;;
      let answer := readline_answer q input in
      emit (Asked (qname q) answer) ;;
      readline_prompt rest (set answers (qname q) answer)
  end.

(** inquirer, as far as the wizard relies on it: Enter alone takes the
    default; a list question yields the value of one of its choices; an input
    or password question is asked again until [validate] accepts. *)
Definition inquirer_reading (q : question) (entry : jsstring) : option jsval :=
  if String.eqb (qtype q) "confirm" then
    match toLowerCase entry with
    | [] => Some (default q)
    | c :: _ => Some (VBool (c =? 121)%N)
    end
  else if String.eqb (qtype q) "list" then
    match entry with
    | [] => Some (default q)
    | _ => if existsb (jsstring_eqb entry) (choices q) then Some (VStr entry) else None
    end
  else
    let value := match entry, default q with
                 | [], VStr d => VStr d
                 | _, _ => VStr entry
                 end in
    match validate q with
    | Some accepts => if accepts value then Some value else None
    | None => Some value
    end.

Fixpoint inquire (q : question) (entries : list jsstring)
  : option (jsval * list jsstring) :=
  match entries with
  | [] => None
  | e :: rest =>
      match inquirer_reading q e with
      | Some v => Some (v, rest)
      | None => inquire q rest
      end
  end.

Definition inquirer_ask (q : question) : M jsval := fun W =>
  match inquire q (stdin W) with
  | Some (v, rest) => Run (Return v) (with_stdin rest W) [Asked (qname q) v]
  | None => Run Halt (with_stdin [] W) []
  end.

Fixpoint inquirer_prompt (questions : list question) (answers : jsval) : M jsval :=
  match questions with
  | [] => ret answers
  | q :: rest =>
      answer <- inquirer_ask q ;;
      inquirer_prompt rest (set answers (qname q) answer)
  end.

Definition prompt (questions : list question) : M jsval := fun W =>
  if inquirer W
  then inquirer_prompt questions (VObj []) W
  else readline_prompt questions (VObj []) W.

(** ** Files and configuration (lines 61-65, 254-273) *)

Definition OPENCLAW_DIR : string := "~/.openclaw".
Definition CONFIG_FILE : string := OPENCLAW_DIR ++ "/config.json".
Definition WALLET_DIR : string := OPENCLAW_DIR ++ "/wallets".

(** [fs.writeFileSync(path, JSON.stringify(doc, null, 2))] *)
Definition writeFile (path : string) (doc : jsval) : M unit :=
  emit (Wrote path (json doc)) ;;
  modify (fun W => with_files ((path, json doc) :: files W) W).

(** Directories are not part of the state: [ensureDir] changes no file. *)
Definition ensureDir (dir : string) : M unit := ret tt.

Definition saveConfig : M unit :=
  ensureDir OPENCLAW_DIR ;;
  cfg <- gets config ;;
  writeFile CONFIG_FILE cfg.

(** [require(name)] throws when the package is not installed. *)
Definition require (name : string) : M unit := fun W =>
  if installed W name then Run (Return tt) W []
  else Run (Throw ("Cannot find module " ++ name)%string) W [].

(** [crypto.randomBytes(n)]: the next [n] bytes of the source. *)
Definition randomBytes (n : nat) : M bytes := fun W =>
  Run (Return (map (entropy W) (seq (cursor W) n)))
      (with_cursor (cursor W + n) W)
      [Called "crypto.randomBytes" [VNum (N.of_nat n)]].

(** ** The packages the wallet code calls *)

(** node:crypto.  [pbkdf2 password salt iterations keylen digest] is
    [pbkdf2Sync] on the bytes of its password; a cipher object is a value
    that [update] and [final] pass on.  [gcm_open alg key iv tag text] is
    authenticated decryption ([createDecipheriv], [setAuthTag], [update],
    [final]): [None] when the tag does not verify. *)
Class CryptoLib : Type := {
  pbkdf2 : bytes -> bytes -> N -> nat -> string -> bytes;
  Cipher : Type;
  createCipheriv : string -> bytes -> bytes -> exn + Cipher;
  cipher_update : Cipher -> bytes -> Cipher * bytes;
  cipher_final : Cipher -> Cipher * bytes;
  getAuthTag : Cipher -> bytes;
  gcm_open : string -> bytes -> bytes -> bytes -> bytes -> option bytes
}.

(** A [Keypair] of @solana/web3.js. *)
Record keypair : Type := { publicKey : bytes; secretKey : bytes }.

(** bip39, ed25519-hd-key, @solana/web3.js and bs58.  [entropyToMnemonic] is
    what [generateMnemonic] makes of the random bytes it draws; [derivePath]
    stands for the [key] of its result; [toBase58] is [PublicKey.toString]. *)
Class SolanaLib : Type := {
  entropyToMnemonic : bytes -> jsstring;
  validateMnemonic : jsval -> bool;
  mnemonicToSeedSync : jsval -> bytes;
  derivePath : string -> jsstring -> bytes;
  fromSeed : bytes -> exn + keypair;
  fromSecretKey : bytes -> exn + keypair;
  toBase58 : bytes -> jsstring;
  bs58_encode : bytes -> jsstring;
  bs58_decode : jsval -> exn + bytes
}.

(** Both outputs of a cipher, and its tag: [update(text)], then [final()],
    then [getAuthTag()]. *)
Definition seal `{CryptoLib} (c : Cipher) (text : bytes) : bytes * bytes * bytes :=
  let (c1, out1) := cipher_update c text in
  let (c2, out2) := cipher_final c1 in
  (out1, out2, getAuthTag c2).

(** What the wizard relies on in node:crypto for AES-256-GCM with a 32-byte
    key and a 16-byte IV. *)
Class CryptoLaws `{CryptoLib} : Prop := {
  pbkdf2_length : forall pw salt it n d, length (pbkdf2 pw salt it n d) = n;
  gcm_create : forall key iv,
    length key = 32 -> length iv = 16 ->
    exists c, createCipheriv "aes-256-gcm" key iv = inr c;
  gcm_length : forall key iv c text out1 out2 tag,
    createCipheriv "aes-256-gcm" key iv = inr c ->
    seal c text = (out1, out2, tag) ->
    length (out1 ++ out2) = length text;
  gcm_open_seal : forall key iv c text out1 out2 tag,
    createCipheriv "aes-256-gcm" key iv = inr c ->
    seal c text = (out1, out2, tag) ->
    gcm_open "aes-256-gcm" key iv tag (out1 ++ out2) = Some text
}.

(** What the wizard relies on in the Solana packages: a generated mnemonic
    validates, and a secret key that is not 64 bytes long is refused. *)
Class SolanaLaws `{SolanaLib} : Prop := {
  generated_validates : forall e,
    length e = 16 -> validateMnemonic (VStr (entropyToMnemonic e)) = true;
  bad_secret_key_size : forall sk,
    length sk <> 64 -> fromSecretKey sk = inl "bad secret key size"
}.

(** A call into a package that may throw. *)
Definition lift {A} (r : exn + A) : M A :=
  match r with
  | inl e => throw e
  | inr a => ret a
  end.

Section Wallet.

Context {crypto : CryptoLib} {solana : SolanaLib}.

(** ** [encryptKey] (lines 88-103) *)

(** [crypto.pbkdf2Sync]: a password that is neither a string nor a buffer is
    a TypeError. *)
Definition pbkdf2Sync (password : jsval) (salt : bytes) (iterations : N)
    (keylen : nat) (digest : string) : M bytes :=
  emit (Called "crypto.pbkdf2Sync"
          [password; VBytes salt; VNum iterations; VNum (N.of_nat keylen);
           VStr (js digest)]) ;;
  match password with
  | VStr s => ret (pbkdf2 (utf8_encode s) salt iterations keylen digest)
  | VBytes b => ret (pbkdf2 b salt iterations keylen digest)
  | _ => throw "The password argument must be of type string or a buffer"
  end.

Definition encryptKey (key : jsstring) (password : jsval) : M jsval :=
  emit (Called "encryptKey" [VStr key; password]) ;;
  let algorithm := "aes-256-gcm" in
  salt <- randomBytes 32 ;;
  iv <- randomBytes 16 ;;
  derivedKey <- pbkdf2Sync password salt 100000 32 "sha256" ;;
  emit (Called "crypto.createCipheriv"
          [VStr (js algorithm); VBytes derivedKey; VBytes iv]) ;;
  cipher <- lift (createCipheriv algorithm derivedKey iv) ;;
  let (c1, out1) := cipher_update cipher (utf8_encode key) in
  let encrypted := toHex out1 in
  let (c2, out2) := cipher_final c1 in
  let encrypted := encrypted ++ toHex out2 in
  let authTag := getAuthTag c2 in
  ret (VObj [("encrypted", VStr encrypted);
             ("salt", VStr (toHex salt));
             ("iv", VStr (toHex iv));
             ("authTag", VStr (toHex authTag))]).

(** Modelled from the spec: the repository has no decryption routine (the
    wizard only ever encrypts), so [decryptKey] follows section 4.4 of the
    spec: re-derive the symmetric key from the password and the stored salt
    with the same iteration count, then authenticated-decrypt with the stored
    IV and tag; a tag that does not verify is [WrongPasswordOrCorrupted]. *)
Definition decryptKey (entry : jsval) (password : jsstring) : outcome jsstring :=
  match get entry "encrypted", get entry "salt", get entry "iv", get entry "authTag" with
  | VStr encrypted, VStr salt, VStr iv, VStr authTag =>
      let derivedKey := pbkdf2 (utf8_encode password) (fromHex salt) 100000 32 "sha256" in
      match gcm_open "aes-256-gcm" derivedKey (fromHex iv) (fromHex authTag)
                     (fromHex encrypted) with
      | Some text => Return (utf8_decode text)
      | None => Throw "WrongPasswordOrCorrupted"
      end
  | _, _, _, _ => Throw "WrongPasswordOrCorrupted"
  end.

(** ** The wallet constructors (lines 983-1093) *)

Definition SDK_REQUIRED : exn := "Solana SDK required".
Definition INVALID_KEY_FORMAT : exn := "Invalid private key format. Expected base58 or hex.".
Definition INVALID_SEED_PHRASE : exn := "Invalid seed phrase".
Definition DERIVATION_PATH : string := "m/44'/501'/0'/0'".

(** [bip39.generateMnemonic(strength)] draws strength/8 random bytes. *)
Definition generateMnemonic (strength : nat) : M jsstring :=
  emit (Called "bip39.generateMnemonic" [VNum (N.of_nat strength)]) ;;
  e <- randomBytes (strength / 8) ;;
  ret (entropyToMnemonic e).

(** Lines 998-1001 and 1063-1065: phrase to keypair. *)
Definition keypairOfPhrase (seedPhrase : jsval) : M keypair :=
  emit (Called "bip39.mnemonicToSeedSync" [seedPhrase]) ;;
  let seed := mnemonicToSeedSync seedPhrase in
  emit (Called "derivePath" [VStr (js DERIVATION_PATH); VStr (toHex seed)]) ;;
  let derivedSeed := derivePath DERIVATION_PATH (toHex seed) in
  emit (Called "Keypair.fromSeed" [VBytes (firstn 32 derivedSeed)]) ;;
  lift (fromSeed (firstn 32 derivedSeed)).

Definition generateNewWallet : M jsval :=
  try (require "@solana/web3.js" ;; require "bip39" ;;
       require "ed25519-hd-key" ;; require "bs58")
      (fun _ => throw SDK_REQUIRED) ;;
  seedPhrase <- generateMnemonic 128 ;;
  keypair <- keypairOfPhrase (VStr seedPhrase) ;;
  let base58Key := bs58_encode (secretKey keypair) in
  ret (VObj [("publicKey", VStr (toBase58 (publicKey keypair)));
             ("seedPhrase", VStr seedPhrase);
             ("type", VStr (js "local"));
             ("network", VStr (js "devnet"));
             ("base58Key", VStr base58Key);
             ("rawSecretKey", VBytes (secretKey keypair))]).

(** [Buffer.from(value, 'hex')]: a string is decoded (leniently), a buffer
    copied, anything else is a TypeError. *)
Definition Buffer_from_hex (value : jsval) : M bytes :=
  match value with
  | VStr s => ret (fromHex s)
  | VBytes b => ret b
  | _ => throw "The first argument must be of type string or a buffer"
  end.

Definition importFromPrivateKey (privateKey : jsval) : M jsval :=
  try (require "@solana/web3.js" ;; require "bs58")
      (fun _ => throw SDK_REQUIRED) ;;
  secretKey' <-
    try (emit (Called "bs58.decode" [privateKey]) ;;
         lift (bs58_decode privateKey))
        (fun _ =>
           try (emit (Called "Buffer.from" [privateKey; VStr (js "hex")]) ;;
                Buffer_from_hex privateKey)
               (fun _ => throw INVALID_KEY_FORMAT)) ;;
  emit (Called "Keypair.fromSecretKey" [VBytes secretKey']) ;;
  keypair <- lift (fromSecretKey secretKey') ;;
  ret (VObj [("publicKey", VStr (toBase58 (publicKey keypair)));
             ("type", VStr (js "imported"));
             ("network", VStr (js "devnet"));
             ("base58Key", privateKey);
             ("rawSecretKey", VBytes (secretKey keypair))]).

Definition importFromSeedPhrase (seedPhrase : jsval) : M jsval :=
  try (require "@solana/web3.js" ;; require "bip39" ;;
       require "ed25519-hd-key" ;; require "bs58")
      (fun _ => throw SDK_REQUIRED) ;;
  emit (Called "bip39.validateMnemonic" [seedPhrase]) ;;
  if negb (validateMnemonic seedPhrase) then throw INVALID_SEED_PHRASE
  else
    keypair <- keypairOfPhrase seedPhrase ;;
    ret (VObj [("publicKey", VStr (toBase58 (publicKey keypair)));
               ("type", VStr (js "imported"));
               ("network", VStr (js "devnet"));
               ("base58Key", VStr (bs58_encode (secretKey keypair)));
               ("rawSecretKey", VBytes (secretKey keypair))]).

Definition connectHardwareWallet : M jsval :=
  answers <- prompt [{| qtype := "input"; qname := "publicKey"; choices := [];
                        default := VUndefined;
                        validate := Some (fun input => (0 <? js_length input)%nat) |}] ;;
  let publicKey := get answers "publicKey" in
  ret (VObj [("publicKey", publicKey);
             ("type", VStr (js "hardware"));
             ("network", VStr (js "devnet"));
             ("encryptedKey", VNull)]).

(** ** [stepWalletSetup] (lines 784-981)

    Console output is not modelled, except the seed phrase shown after a
    wallet was created and the failure the [catch] reports. *)

(** Lines 178-188: without ora the spinner is an object with [succeed],
    [fail] and [stop] only, so calling its [start] is a TypeError. *)
Definition spinner_start : M unit := fun W =>
  if ora W then Run (Return tt) W []
  else Run (Throw "spinner.start is not a function") W [].

Definition list_question (name : string) (values : list string) (dflt : jsval)
  : question :=
  {| qtype := "list"; qname := name; choices := map js values;
     default := dflt; validate := None |}.

Definition text_question (type name : string) (check : option (jsval -> bool))
  : question :=
  {| qtype := type; qname := name; choices := []; default := VUndefined;
     validate := check |}.

Definition newline : string := String (ascii_of_nat 10) EmptyString.

(** [Buffer.from(value)] of a typed array or a string. *)
Definition Buffer_from (value : jsval) : M bytes :=
  match value with
  | VBytes b => ret b
  | VStr s => ret (utf8_encode s)
  | _ => throw "The first argument must be of type string or a buffer"
  end.

(** Lines 849-884: [walletData] starts as [{}]; the [switch] on
    [walletAction]. *)
Definition walletFor (walletAction : jsval) : M jsval :=
  if strict_eq walletAction (VStr (js "create")) then
    generateNewWallet
  else if strict_eq walletAction (VStr (js "import-key")) then
    answers <- prompt [text_question "password" "privateKey" None] ;;
    walletData <- importFromPrivateKey (get answers "privateKey") ;;
    spinner_start ;;
    ret walletData
  else if strict_eq walletAction (VStr (js "import-seed")) then
    answers <- prompt [text_question "input" "seedPhrase" None] ;;
    walletData <- importFromSeedPhrase (get answers "seedPhrase") ;;
    spinner_start ;;
    ret walletData
  else if strict_eq walletAction (VStr (js "hardware")) then
    connectHardwareWallet
  else ret (VObj []).

(** Lines 886-914: the password and the encryption, when there is a secret
    key. *)
Definition secureWallet (walletData : jsval) : M jsval :=
  if truthy (get walletData "rawSecretKey") then
    answers <- prompt [text_question "password" "password"
                         (Some (fun input => (8 <=? js_length input)%nat))] ;;
    let password := get answers "password" in
    prompt [text_question "password" "confirmPassword"
              (Some (fun input => strict_eq input password))] ;;
    spinner_start ;;
    raw <- Buffer_from (get walletData "rawSecretKey") ;;
    let secretKeyHex := toHex raw in
    encryptKey secretKeyHex password
  else ret VNull.

(** Lines 916-968: the keystore file, the configuration, the seed phrase of
    a new wallet, the network. *)
Definition saveWallet (walletAction walletData encryptedData : jsval) : M unit :=
  ensureDir WALLET_DIR ;;
  let walletFile := (WALLET_DIR ++ "/wallet.json")%string in
  now <- gets clock ;;
  let walletConfig :=
    VObj [("publicKey", get walletData "publicKey");
          ("network", js_or (get walletData "network") (VStr (js "devnet")));
          ("createdAt", VStr now);
          ("type", js_or (get walletData "type") (VStr (js "local")));
          ("encryptedKey", encryptedData)] in
  writeFile walletFile walletConfig ;;
  modify (fun W => with_config (set (config W) "wallet" walletConfig) W) ;;
  saveConfig ;;
  (if strict_eq walletAction (VStr (js "create")) then
     emit (Shown (js_or (get walletData "seedPhrase")
                    (VStr (js ("[Seed phrase would be shown here in production]"
                               ++ newline)))))
   else ret tt) ;;
  answers <- prompt [list_question "network" ["devnet"; "testnet"; "mainnet-beta"]
                       (js_or (get walletConfig "network") (VStr (js "devnet")))] ;;
  let network := get answers "network" in
  modify (fun W => with_config
            (set (config W) "wallet" (set (get (config W) "wallet") "network" network)) W) ;;
  saveConfig.

Definition stepWalletSetup : M unit :=
  cfg <- gets config ;;
  keep <- (if truthy (get cfg "wallet") then
             answers <- prompt [list_question "manageWallet"
                                  ["keep"; "new"; "import"; "hardware"]
                                  (VStr (js "keep"))] ;;
             ret (strict_eq (get answers "manageWallet") (VStr (js "keep")))
           else ret false) ;;
  if keep : bool then ret tt
  else
    answers <- prompt [list_question "walletAction"
                         ["create"; "import-key"; "import-seed"; "hardware"; "skip"]
                         (VStr (js "create"))] ;;
    let walletAction := get answers "walletAction" in
    if strict_eq walletAction (VStr (js "skip")) then ret tt
    else
      try (walletData <- walletFor walletAction ;;
           encryptedData <- secureWallet walletData ;;
           saveWallet walletAction walletData encryptedData)
          (fun error => emit (Reported ("Wallet setup failed: " ++ error)%string)) ;;
      prompt [{| qtype := "confirm"; qname := "continue"; choices := [];
                 default := VBool true; validate := None |}] ;;
      ret tt.

End Wallet.

(** * The other steps of the wizard *)

(** ** [createBox] (lines 190-215) *)

(** [s.split('\n')] *)
Fixpoint split_lines (s : jsstring) : list jsstring :=
  match s with
  | [] => [[]]
  | c :: rest =>
      if (c =? 10)%N then [] :: split_lines rest
      else match split_lines rest with
           | line :: lines => (c :: line) :: lines
           | [] => [[c]]
           end
  end.

(** [s.padEnd(n)] *)
Definition padEnd (s : jsstring) (n : nat) : jsstring :=
  s ++ repeat 32%N (n - length s).

(** The decimal digits of a number, as [String(n)] gives them. *)
Fixpoint decimal_digits (fuel : nat) (n : N) (acc : string) : string :=
  let acc' := String (ascii_of_N (48 + n mod 10)) acc in
  match fuel with
  | O => acc'
  | S fuel' => if (n <? 10)%N then acc' else decimal_digits fuel' (n / 10) acc'
  end.

Definition decimal (n : N) : string :=
  decimal_digits (N.to_nat (N.log2 n)) n "".

(** [c.repeat(count)] of a one-character string: a negative count is a
    RangeError. *)
Definition js_repeat (c : N) (count : Z) : exn + jsstring :=
  if (count <? 0)%Z
  then inl ("Invalid count value: -" ++ decimal (Z.to_N (- count)))%string
  else inr (repeat c (Z.to_nat count)).

Definition and_then {A B} (r : exn + A) (f : A -> exn + B) : exn + B :=
  match r with
  | inl e => inl e
  | inr a => f a
  end.

(** The box characters: ┌ ┐ └ ┘ ─ │. *)
Definition TOP_LEFT : N := 9484.
Definition TOP_RIGHT : N := 9488.
Definition BOTTOM_LEFT : N := 9492.
Definition BOTTOM_RIGHT : N := 9496.
Definition HORIZONTAL : N := 9472.
Definition VERTICAL : N := 9474.

(** [boxen] is the optional package when it was loaded, as a function of
    the content and the title.  Lengths are [String.length]: UTF-16 code
    units. *)
Definition createBox (boxen : option (jsstring -> jsstring -> jsstring))
    (content title : jsstring) : exn + jsstring :=
  match boxen with
  | Some render => inr (render content title)
  | None =>
      let lines := split_lines content in
      let width := (Z.of_nat (fold_right Nat.max 0%nat (map (@length N) lines)) + 4)%Z in
      and_then (js_repeat HORIZONTAL width) (fun border =>
      and_then
        (if truthy (VStr title) then
           let titlePadding := ((width - Z.of_nat (length title)) / 2)%Z in
           and_then (js_repeat HORIZONTAL titlePadding) (fun before =>
           and_then (js_repeat HORIZONTAL
                       (width - titlePadding - Z.of_nat (length title))) (fun behind =>
           inr ([TOP_LEFT] ++ before ++ title ++ behind ++ [TOP_RIGHT; 10%N])))
         else inr ([TOP_LEFT] ++ border ++ [TOP_RIGHT; 10%N]))
        (fun result =>
           let result :=
             fold_left (fun result line =>
                          result ++ [VERTICAL; 32%N; 32%N]
                          ++ padEnd line (Z.to_nat (width - 4))
                          ++ [32%N; 32%N; VERTICAL; 10%N])
                       lines result in
           inr (result ++ [BOTTOM_LEFT] ++ border ++ [BOTTOM_RIGHT])))
  end.

(** ** Reading and merging objects *)

(** [o.k] where [o] may be [undefined] or [null]: a TypeError then. *)
Definition member (o : jsval) (k : string) : M jsval :=
  match o with
  | VUndefined =>
      throw ("Cannot read properties of undefined (reading '" ++ k ++ "')")%string
  | VNull =>
      throw ("Cannot read properties of null (reading '" ++ k ++ "')")%string
  | _ => ret (get o k)
  end.

(** The own enumerable properties that [{...v}] copies: the fields of an
    object, the characters of a string and the bytes of a buffer by index,
    nothing of any other value. *)
Definition own_props (v : jsval) : list (string * jsval) :=
  match v with
  | VObj fs => fs
  | VStr s =>
      combine (map (fun i => decimal (N.of_nat i)) (seq 0 (length s)))
              (map (fun c => VStr [c]) s)
  | VBytes b =>
      combine (map (fun i => decimal (N.of_nat i)) (seq 0 (length b)))
              (map (fun x => VNum (Byte.to_N x)) b)
  | _ => []
  end.

(** [{ ...a, ...b }] *)
Definition spread (a b : jsval) : jsval :=
  VObj (fold_left (fun fs kv => assign (fst kv) (snd kv) fs)
                  (own_props a ++ own_props b) []).

(** ** [loadConfig] (lines 260-268) *)

Fixpoint find_file (path : string) (fs : list (string * jsval)) : option jsval :=
  match fs with
  | [] => None
  | (p, doc) :: rest => if String.eqb path p then Some doc else find_file path rest
  end.

(** A file holds what [JSON.parse] makes of its text; a value [JSON.parse]
    never gives ([undefined], a buffer) stands for a text that does not
    parse. *)
Definition parses (doc : jsval) : bool :=
  match doc with
  | VUndefined | VBytes _ => false
  | _ => true
  end.

(** The warning of line 265 goes to the console, which is not modelled. *)
Definition loadConfig : M unit :=
  fs <- gets files ;;
  match find_file CONFIG_FILE fs with
  | Some doc =>
      if parses doc
      then modify (fun W => with_config (spread (config W) doc) W)
      else ret tt
  | None => ret tt
  end.

(** ** The machine the wizard runs on *)

(** What the steps ask of the operating system.  [spawn command cwd disk]
    runs a child on the files there are: it gives the files the child leaves
    on disk, and the error event of a child that could not be started, or
    the exit code ([None] when a signal ended it) and what it printed;
    [execSync] gives the output or throws. *)
Record Machine : Type := {
  spawn : string -> option string -> list (string * jsval)
          -> list (string * jsval) * (exn + (option N * jsstring));
  execSync : string -> exn + jsstring;
  tmpdir : string;    (* os.tmpdir() *)
  username : jsstring (* os.userInfo().username *)
}.

(** [process.exit(code)] ends the run; a step that did not call it goes on. *)
Inductive flow : Type :=
| Continue
| Exit (code : N).

Record run_options : Type := {
  silent : bool;
  ignoreError : bool;
  cwd : option string
}.

Definition confirm_question (name : string) (dflt : jsval) : question :=
  {| qtype := "confirm"; qname := name; choices := []; default := dflt;
     validate := None |}.

Definition input_question (name : string) (values : list string) (dflt : jsval)
  : question :=
  {| qtype := "input"; qname := name; choices := map js values; default := dflt;
     validate := None |}.

Section Steps.

Context (host : Machine).

(** ** [runCommand] (lines 275-304)

    The command line is split at the spaces and handed to [spawn] with
    [shell: true], which joins it again: the child runs [command], and what
    it does to the disk is done whether it succeeds or not. *)
Definition runCommand (command : string) (options : run_options) : M jsstring :=
  emit (Called "spawn" [VStr (js command)]) ;;
  disk <- gets files ;;
  let (left, result) := spawn host command (cwd options) disk in
  modify (with_files left) ;;
  match result with
  | inl error => throw error
  | inr (code, printed) =>
      let output := if silent options then printed else [] in
      match code with
      | Some 0%N => ret output
      | _ =>
          if ignoreError options then ret output
          else throw ("Command failed with code "
                      ++ match code with
                         | Some n => decimal n
                         | None => "null"
                         end)%string
      end
  end.

(** ** [stepWelcome] (lines 319-344) *)
Definition stepWelcome : M flow :=
  answers <- prompt [confirm_question "proceed" (VBool true)] ;;
  let proceed := get answers "proceed" in
  if negb (truthy proceed) then ret (Exit 0)
  else ret Continue.

(** ** [stepCheckDependencies] (lines 346-392) *)






(** ** [stepInstallOpenClaw] (lines 394-477) *)

Definition quiet : run_options :=
  {| silent := true; ignoreError := false; cwd := None |}.

Definition stepInstallOpenClaw : M unit :=
  cfg <- gets config ;;
  skip <- (if truthy (get cfg "installed") then
             answers <- prompt [confirm_question "reinstall" (VBool false)] ;;
             ret (negb (truthy (get answers "reinstall")))
           else ret false) ;;
  if skip : bool then ret tt
  else
    answers <- prompt [list_question "installMethod"
                         ["npm"; "yarn"; "pnpm"; "source"; "skip"]
                         (VStr (js "npm"))] ;;
    let installMethod := get answers "installMethod" in
    if strict_eq installMethod (VStr (js "skip")) then ret tt
    else
      try (ensureDir OPENCLAW_DIR ;;
           (if strict_eq installMethod (VStr (js "source")) then
              let tempDir := (tmpdir host ++ "/openclaw-build")%string in
              runCommand ("rm -rf " ++ tempDir)
                {| silent := true; ignoreError := true; cwd := None |} ;;
              runCommand ("git clone https://github.com/openclaw/openclaw.git "
                          ++ tempDir) quiet ;;
              runCommand "cargo build --release"
                {| silent := true; ignoreError := false; cwd := Some tempDir |} ;;
              runCommand ("cp " ++ tempDir ++ "/target/release/openclaw" ++ " "
                          ++ OPENCLAW_DIR ++ "/") quiet
            else
              let pkgCmd :=
                if strict_eq installMethod (VStr (js "npm"))
                then "npm install -g @openclaw/cli"
                else if strict_eq installMethod (VStr (js "yarn"))
                then "yarn global add @openclaw/cli"
                else "pnpm add -g @openclaw/cli" in
              runCommand pkgCmd quiet) ;;
           modify (fun W => with_config (set (config W) "installed" (VBool true)) W) ;;
           modify (fun W => with_config (set (config W) "installMethod" installMethod) W) ;;
           saveConfig)
          (fun error => emit (Reported ("Installation failed: " ++ error)%string)) ;;
      prompt [confirm_question "continue" (VBool true)] ;;
      ret tt.

(** ** [stepOnboarding] (lines 479-556) *)
Definition stepOnboarding : M unit :=
  cfg <- gets config ;;
  skip <- (if truthy (get cfg "onboardingComplete") then
             member (get cfg "preferences") "userName" ;;
             member (get cfg "preferences") "mode" ;;
             answers <- prompt [confirm_question "redo" (VBool false)] ;;
             ret (negb (truthy (get answers "redo")))
           else ret false) ;;
  if skip : bool then ret tt
  else
    cfg <- gets config ;;
    userName <- member (get cfg "preferences") "userName" ;;
    mode <- member (get cfg "preferences") "mode" ;;
    telemetry <- member (get cfg "preferences") "telemetry" ;;
    newsletter <- member (get cfg "preferences") "newsletter" ;;
    answers <- prompt
      [input_question "userName" [] (js_or userName (VStr (username host)));
       list_question "mode" ["beginner"; "intermediate"; "advanced"]
         (js_or mode (VStr (js "intermediate")));
       confirm_question "telemetry" (VBool (negb (strict_eq telemetry (VBool false))));
       confirm_question "newsletter" (js_or newsletter (VBool false))] ;;
    modify (fun W => with_config
              (set (config W) "preferences"
                   (spread (get (config W) "preferences") answers)) W) ;;
    modify (fun W => with_config (set (config W) "onboardingComplete" (VBool true)) W) ;;
    saveConfig ;;
    prompt [confirm_question "continue" (VBool true)] ;;
    ret tt.

(** ** [stepFinalConfiguration] (lines 1095-1134) *)
Definition stepFinalConfiguration : M unit :=
  answers <- prompt [confirm_question "configureAdvanced" (VBool false)] ;;
  if truthy (get answers "configureAdvanced") then
    cfg <- gets config ;;
    rpcEndpoint <- member (get cfg "preferences") "rpcEndpoint" ;;
    logLevel <- member (get cfg "preferences") "logLevel" ;;
    autoUpdate <- member (get cfg "preferences") "autoUpdate" ;;
    advancedConfig <- prompt
      [input_question "rpcEndpoint" [] (js_or rpcEndpoint (VStr []));
       input_question "logLevel" ["debug"; "info"; "warn"; "error"]
         (js_or logLevel (VStr (js "info")));
       confirm_question "autoUpdate" (VBool (negb (strict_eq autoUpdate (VBool false))))] ;;
    modify (fun W => with_config
              (set (config W) "preferences"
                   (spread (get (config W) "preferences") advancedConfig)) W) ;;
    saveConfig
  else ret tt.

End Steps.

(** * The vocabulary of the statements *)

(** ** Encryption *)

(** The [n] bytes the random source holds [from] bytes past the cursor. *)
Definition drawn (W : World) (from n : nat) : bytes :=
  map (entropy W) (seq (cursor W + from) n).

(** The events of one call of [encryptKey]. *)
Definition encryptKey_events (key : jsstring) (password : jsval)
    (salt iv derivedKey : bytes) : list event :=
  [Called "encryptKey" [VStr key; password];
   Called "crypto.randomBytes" [VNum 32];
   Called "crypto.randomBytes" [VNum 16];
   Called "crypto.pbkdf2Sync"
     [password; VBytes salt; VNum 100000; VNum 32; VStr (js "sha256")];
   Called "crypto.createCipheriv"
     [VStr (js "aes-256-gcm"); VBytes derivedKey; VBytes iv]].

(** ** The wallet constructors *)

(** All four Solana packages can be loaded. *)
Definition sdk_loaded (W : World) : bool :=
  installed W "@solana/web3.js" && installed W "bip39"
  && installed W "ed25519-hd-key" && installed W "bs58".

(** A call that turns a phrase into a seed or a seed into keys. *)
Definition derivation_event (e : event) : bool :=
  match e with
  | Called fn _ =>
      String.eqb fn "bip39.mnemonicToSeedSync" || String.eqb fn "derivePath"
      || String.eqb fn "Keypair.fromSeed"
  | _ => false
  end.

Section Vocabulary.

Context {solana : SolanaLib}.

(** The keypair of a phrase: seed, fixed path, first 32 bytes, key pair. *)
Definition derivedKeypair (phrase : jsval) : exn + keypair :=
  fromSeed (firstn 32 (derivePath DERIVATION_PATH (toHex (mnemonicToSeedSync phrase)))).

Definition derivation_calls (phrase : jsval) : list event :=
  let seed := mnemonicToSeedSync phrase in
  [Called "bip39.mnemonicToSeedSync" [phrase];
   Called "derivePath" [VStr (js DERIVATION_PATH); VStr (toHex seed)];
   Called "Keypair.fromSeed" [VBytes (firstn 32 (derivePath DERIVATION_PATH (toHex seed)))]].

(** What a wallet constructor returns for a key pair. *)
Definition created_wallet (seedPhrase : jsstring) (kp : keypair) : jsval :=
  VObj [("publicKey", VStr (toBase58 (publicKey kp)));
        ("seedPhrase", VStr seedPhrase);
        ("type", VStr (js "local"));
        ("network", VStr (js "devnet"));
        ("base58Key", VStr (bs58_encode (secretKey kp)));
        ("rawSecretKey", VBytes (secretKey kp))].

(** Whether [Buffer.from(value, 'hex')] accepts the value at all. *)
Definition hex_decodable (value : jsval) : bool :=
  match value with
  | VStr _ | VBytes _ => true
  | _ => false
  end.

(** The bytes import-by-key hands to [Keypair.fromSecretKey]: base58 first,
    hex when that fails, the format error when both fail. *)
Definition decodeKey (privateKey : jsval) : exn + bytes :=
  match bs58_decode privateKey with
  | inr b => inr b
  | inl _ =>
      match privateKey with
      | VStr s => inr (fromHex s)
      | VBytes b => inr b
      | _ => inl INVALID_KEY_FORMAT
      end
  end.

Definition imported_wallet (privateKey : jsval) (kp : keypair) : jsval :=
  VObj [("publicKey", VStr (toBase58 (publicKey kp)));
        ("type", VStr (js "imported"));
        ("network", VStr (js "devnet"));
        ("base58Key", privateKey);
        ("rawSecretKey", VBytes (secretKey kp))].

Definition decoding_calls (privateKey : jsval) : list event :=
  Called "bs58.decode" [privateKey]
  :: match bs58_decode privateKey with
     | inr _ => []
     | inl _ => [Called "Buffer.from" [privateKey; VStr (js "hex")]]
     end.

End Vocabulary.

(** ** A program logic for the wizard

    [sat ui m E Q]: started in a world where inquirer is loaded as [ui]
    says ([None]: either way), [m] leaves that unchanged, emits only events
    that satisfy [E], and returns only values that satisfy [Q]. *)

Definition ui_is (ui : option bool) (W : World) : Prop :=
  match ui with
  | Some b => inquirer W = b
  | None => True
  end.

Definition sat {A} (ui : option bool) (m : M A) (E : event -> Prop) (Q : A -> Prop)
  : Prop :=
  forall W, ui_is ui W ->
    ui_is ui (world (m W))
    /\ Forall E (log (m W))
    /\ forall a, out (m W) = Return a -> Q a.

Definition anything {A} : A -> Prop := fun _ => True.

(** The answers a single question can get. *)
Definition answer_of (ui : option bool) (q : question) (v : jsval) : Prop :=
  match ui with
  | Some true => exists entry, inquirer_reading q entry = Some v
  | Some false => exists input, v = readline_answer q input
  | None => (exists entry, inquirer_reading q entry = Some v)
            \/ (exists input, v = readline_answer q input)
  end.

(** ** The keystore record and the events of the wallet step *)

(** The file [saveWallet] writes the keystore record to. *)
Definition WALLET_FILE : string := WALLET_DIR ++ "/wallet.json".

Definition is_str (v : jsval) : bool :=
  match v with
  | VStr _ => true
  | _ => false
  end.

Definition hex_field (o : jsval) (k : string) : bool :=
  match get o k with
  | VStr s => is_hex s
  | _ => false
  end.

Fixpoint strings_eqb (a b : list string) : bool :=
  match a, b with
  | [], [] => true
  | x :: a', y :: b' => String.eqb x y && strings_eqb a' b'
  | _, _ => false
  end.

(** [encryptedKey]: [null], or exactly the four hex strings. *)
Definition encrypted_ok (v : jsval) : bool :=
  match v with
  | VNull => true
  | VObj _ =>
      strings_eqb (keys v) ["encrypted"; "salt"; "iv"; "authTag"]
      && hex_field v "encrypted" && hex_field v "salt"
      && hex_field v "iv" && hex_field v "authTag"
  | _ => false
  end.

Definition wallet_type (v : jsval) : bool :=
  match v with
  | VStr s => jsstring_eqb s (js "local") || jsstring_eqb s (js "imported")
              || jsstring_eqb s (js "hardware")
  | _ => false
  end.

(** The keystore record as it is written: the five fields ([publicKey] is
    left out by [JSON.stringify] when it is [undefined]), strings for the
    public data, and [encryptedKey] as above. *)
Definition keystore_ok (doc : jsval) : bool :=
  (strings_eqb (keys doc) ["publicKey"; "network"; "createdAt"; "type"; "encryptedKey"]
   && is_str (get doc "publicKey")
   || strings_eqb (keys doc) ["network"; "createdAt"; "type"; "encryptedKey"])
  && is_str (get doc "network") && is_str (get doc "createdAt")
  && wallet_type (get doc "type") && encrypted_ok (get doc "encryptedKey").

Definition secret_prompt (n : string) : bool :=
  existsb (String.eqb n) ["password"; "confirmPassword"; "privateKey"; "seedPhrase"].

Definition step_prompt (n : string) : bool :=
  existsb (String.eqb n) ["manageWallet"; "walletAction"].

(** The arguments of a call of [encryptKey] with a password of eight
    characters or more. *)
Definition strong_password (args : list jsval) : Prop :=
  exists k s, args = [VStr k; VStr s] /\ 8 <= length s.

Definition is_hardware (walletAction : jsval) : bool :=
  strict_eq walletAction (VStr (js "hardware")).

(** What the wallet step may do once [walletAction] is known ([hw]: it is
    'hardware'; [ui]: whether inquirer is loaded). *)
Definition expected (ui : option bool) (hw : bool) (e : event) : Prop :=
  match e with
  | Asked n _ => step_prompt n = false /\ (hw = true -> secret_prompt n = false)
  | Called fn args =>
      hw = false
      /\ (fn = "encryptKey" -> ui = Some true -> strong_password args)
  | Wrote p d =>
      String.eqb p WALLET_FILE = true ->
      keystore_ok d = true
      /\ (hw = true ->
          get d "encryptedKey" = VNull /\ get d "type" = VStr (js "hardware"))
  | Shown _ => hw = false
  | Reported _ => True
  end.

(** What [encryptKey] returns. *)
Definition encrypted_form (v : jsval) : Prop :=
  exists e s i t,
    v = VObj [("encrypted", VStr e); ("salt", VStr s); ("iv", VStr i); ("authTag", VStr t)]
    /\ is_hex e = true /\ is_hex s = true /\ is_hex i = true /\ is_hex t = true.

(** What the wallet constructors return, as far as the keystore needs it. *)
Definition wallet_ok (hw : bool) (wd : jsval) : Prop :=
  (get wd "publicKey" = VUndefined \/ exists s, get wd "publicKey" = VStr s)
  /\ (exists s, js_or (get wd "network") (VStr (js "devnet")) = VStr s)
  /\ (exists s, js_or (get wd "type") (VStr (js "local")) = VStr s
                /\ wallet_type (VStr s) = true)
  /\ (get wd "rawSecretKey" = VUndefined \/ exists b, get wd "rawSecretKey" = VBytes b)
  /\ (hw = true ->
      get wd "rawSecretKey" = VUndefined /\ get wd "type" = VStr (js "hardware")).

(** What a step that set up a hardware wallet may do: no secret is asked
    for, no package or crypto routine is called, nothing is shown, and a
    keystore record carries no encrypted key. *)
Definition hardware_event (e : event) : Prop :=
  match e with
  | Asked n _ => secret_prompt n = false
  | Called _ _ => False
  | Wrote p doc =>
      p = WALLET_FILE ->
      get doc "encryptedKey" = VNull /\ get doc "type" = VStr (js "hardware")
  | Shown _ => False
  | Reported _ => True
  end.

(** ** The wallet step by parts *)

(** [holds I m E Q]: as [sat], for any property [I] of the world: started
    where [I] holds, [m] keeps [I], emits only events that satisfy [E], and
    returns only values that satisfy [Q]. *)
Definition holds {A} (I : World -> Prop) (m : M A) (E : event -> Prop) (Q : A -> Prop)
  : Prop :=
  forall W, I W ->
    I (world (m W))
    /\ Forall E (log (m W))
    /\ forall a, out (m W) = Return a -> Q a.

(** Properties of the world that reading input, or drawing random bytes,
    cannot change. *)
Definition input_free (I : World -> Prop) : Prop :=
  forall W l, I W -> I (with_stdin l W).

Definition draw_free (I : World -> Prop) : Prop :=
  forall W c, I W -> I (with_cursor c W).

Definition asked (e : event) : bool :=
  match e with
  | Asked _ _ => true
  | _ => false
  end.

Definition wrote (e : event) : bool :=
  match e with
  | Wrote _ _ => true
  | _ => false
  end.

Definition reported (e : event) : bool :=
  match e with
  | Reported _ => true
  | _ => false
  end.

(** [encryptKey] and the node:crypto routines it runs the password and the
    key through. *)
Definition crypto_call (fn : string) : bool :=
  existsb (String.eqb fn) ["encryptKey"; "crypto.pbkdf2Sync"; "crypto.createCipheriv"].

(** The questions for a key, a phrase, a public key or a password. *)
Definition wallet_question (n : string) : bool :=
  existsb (String.eqb n)
    ["privateKey"; "seedPhrase"; "publicKey"; "password"; "confirmPassword"].

(** One of these questions or a call of a package, none of them for
    encryption. *)
Definition preparing (e : event) : Prop :=
  match e with
  | Asked n _ => wallet_question n = true
  | Called fn _ => crypto_call fn = false
  | _ => False
  end.

(** One of these questions, or a call of any kind: nothing written, shown
    or reported. *)
Definition working (e : event) : Prop :=
  match e with
  | Asked n _ => wallet_question n = true
  | Called _ _ => True
  | _ => False
  end.

(** A run in which no key is encrypted: no call of [encryptKey] or of what
    it uses, and keystore records without an encrypted key. *)
Definition unencrypted (e : event) : Prop :=
  match e with
  | Called fn _ => crypto_call fn = false
  | Wrote p doc => p = WALLET_FILE -> get doc "encryptedKey" = VNull
  | _ => True
  end.

(** A keystore record is written for the devnet. *)
Definition on_devnet (e : event) : Prop :=
  match e with
  | Wrote p doc => p = WALLET_FILE -> get doc "network" = VStr (js "devnet")
  | _ => True
  end.

(** The wallet actions that give a wallet with a secret key. *)
Definition secret_action (a : jsval) : bool :=
  strict_eq a (VStr (js "create")) || strict_eq a (VStr (js "import-key"))
  || strict_eq a (VStr (js "import-seed")).

(** The configuration, the files and the random source are as in [W]. *)
Definition untouched (W W' : World) : Prop :=
  config W' = config W /\ files W' = files W /\ cursor W' = cursor W.

(** A run that comes after the events [l1]. *)
Definition after {A} (l1 : list event) (r : run A) : run A :=
  match r with
  | Run o W2 l2 => Run o W2 (l1 ++ l2)
  end.

(** [m] never throws. *)
Definition never_throws {A} (m : M A) : Prop :=
  forall W e, out (m W) <> Throw e.

(** The record [saveWallet] builds (lines 919-925). *)
Definition keystore_record (walletData encryptedData : jsval) (now : jsstring) : jsval :=
  VObj [("publicKey", get walletData "publicKey");
        ("network", js_or (get walletData "network") (VStr (js "devnet")));
        ("createdAt", VStr now);
        ("type", js_or (get walletData "type") (VStr (js "local")));
        ("encryptedKey", encryptedData)].

(** The network of a wallet a constructor returned: 'devnet', or none (the
    unknown action's [{}]), for which [saveWallet] writes 'devnet'. *)
Definition devnet_wallet (walletData : jsval) : Prop :=
  get walletData "network" = VStr (js "devnet")
  \/ get walletData "network" = VUndefined.

(** What the wallet step does when ora is loaded as [o] says: no key is
    encrypted without it, and every keystore record is for the devnet. *)
Definition trail (o : bool) (e : event) : Prop :=
  match e with
  | Called fn _ => o = false -> crypto_call fn = false
  | Wrote p doc =>
      p = WALLET_FILE ->
      get doc "network" = VStr (js "devnet")
      /\ (o = false -> get doc "encryptedKey" = VNull)
  | _ => True
  end.

(** What precedes the choice of an action: nothing, or an answer to
    [manageWallet] other than 'keep'. *)
Definition declined_keep (pre : list event) : Prop :=
  pre = []
  \/ exists v, pre = [Asked "manageWallet" v]
               /\ strict_eq v (VStr (js "keep")) = false.

Section Parts.

Context {crypto : CryptoLib} {solana : SolanaLib}.

(** Lines 848-973 of [stepWalletSetup]: the [try] block and its [catch]. *)
Definition configureWallet (walletAction : jsval) : M unit :=
  try (walletData <- walletFor walletAction ;;
       encryptedData <- secureWallet walletData ;;
       saveWallet walletAction walletData encryptedData)
      (fun error => emit (Reported ("Wallet setup failed: " ++ error)%string)).

(** The [try] block alone (lines 848-968). *)
Definition walletBody (walletAction : jsval) : M unit :=
  walletData <- walletFor walletAction ;;
  encryptedData <- secureWallet walletData ;;
  saveWallet walletAction walletData encryptedData.

(** Lines 823-980 of [stepWalletSetup]: from the choice of an action on. *)
Definition chooseWallet : M unit :=
  answers <- prompt [list_question "walletAction"
                       ["create"; "import-key"; "import-seed"; "hardware"; "skip"]
                       (VStr (js "create"))] ;;
  let walletAction := get answers "walletAction" in
  if strict_eq walletAction (VStr (js "skip")) then ret tt
  else
    configureWallet walletAction ;;
    prompt [{| qtype := "confirm"; qname := "continue"; choices := [];
               default := VBool true; validate := None |}] ;;
    ret tt.

End Parts.

(** ** The two files of the wallet step *)

(** An event that writes nothing, shows nothing and is not the answer to
    the network question. *)
Definition idle (e : event) : Prop :=
  match e with
  | Wrote _ _ | Shown _ => False
  | Asked n _ => n <> "network"
  | _ => True
  end.

(** What is shown when a created wallet has no seed phrase (line 948). *)
Definition NO_PHRASE : jsval :=
  VStr (js ("[Seed phrase would be shown here in production]" ++ newline)).


(** The fields of the keystore record. *)
Definition KEYSTORE_FIELDS : list string :=
  ["publicKey"; "network"; "createdAt"; "type"; "encryptedKey"].

(** The configuration after [saveWallet] stored the record, and after the
    network was chosen. *)
Definition stored_wallet_config (cfg record : jsval) : jsval :=
  set cfg "wallet" record.

Definition chosen_network_config (cfg record network : jsval) : jsval :=
  set (stored_wallet_config cfg record) "wallet" (set record "network" network).

(** ** The readline fallback *)

(** The answers the fallback collects from the lines typed, one line per
    question. *)
Fixpoint readline_answers (questions : list question) (lines : list jsstring)
    (answers : jsval) : jsval :=
  match questions, lines with
  | q :: questions', line :: lines' =>
      readline_answers questions' lines' (set answers (qname q) (readline_answer q line))
  | _, _ => answers
  end.

Definition readline_events (questions : list question) (lines : list jsstring)
  : list event :=
  map (fun ql => Asked (qname (fst ql)) (readline_answer (fst ql) (snd ql)))
      (combine questions lines).

(** Two questions that differ in [validate] at most. *)
Definition same_but_validate (q q' : question) : Prop :=
  qtype q = qtype q' /\ qname q = qname q' /\ choices q = choices q'
  /\ default q = default q'.

(** ** The first steps *)

(** What the readline fallback takes for a yes. *)
Definition says_yes (line : jsstring) : bool :=
  jsstring_eqb (toLowerCase line) (js "y") || jsstring_eqb (toLowerCase line) (js "yes").


Definition called (e : event) : bool :=
  match e with
  | Called _ _ => true
  | _ => false
  end.

(** ** Steps that can be skipped *)

(** The shape of [stepInstallOpenClaw] (and of [stepWalletSetup]): when the
    step was done before, ask whether to do it [again]; ask for the [choice];
    unless that is to skip, [act] on it and ask the [closing] question. *)
Definition gated (settled : jsval -> bool) (again : question) (stay : jsval -> bool)
    (choice : question) (skipped : jsval -> bool) (act : jsval -> M unit)
    (closing : question) : M unit :=
  cfg <- gets config ;;
  keep <- (if settled cfg then
             answers <- prompt [again] ;;
             ret (stay (get answers (qname again)))
           else ret false) ;;
  if keep : bool then ret tt
  else
    answers <- prompt [choice] ;;
    if skipped (get answers (qname choice)) then ret tt
    else
      act (get answers (qname choice)) ;;
      prompt [closing] ;;
      ret tt.

(** What precedes the choice: nothing, or an answer to [again] that does
    not [stay]. *)
Definition went_on (again : question) (stay : jsval -> bool) (pre : list event) : Prop :=
  pre = []
  \/ exists v, pre = [Asked (qname again) v] /\ stay v = false.

(** A computation that does not read the input: started with another
    input, it does the same and leaves that input. *)
Definition stdin_free {A} (m : M A) : Prop :=
  forall l W, m (with_stdin l W)
              = Run (out (m W)) (with_stdin l (world (m W))) (log (m W)).

Section InstallParts.

Context (host : Machine).

(** Lines 444-457 of [stepInstallOpenClaw]: the commands of the chosen
    method. *)
Definition installCommands (installMethod : jsval) : M jsstring :=
  if strict_eq installMethod (VStr (js "source")) then
    let tempDir := (tmpdir host ++ "/openclaw-build")%string in
    runCommand host ("rm -rf " ++ tempDir)
      {| silent := true; ignoreError := true; cwd := None |} ;;
    runCommand host ("git clone https://github.com/openclaw/openclaw.git "
                     ++ tempDir) quiet ;;
    runCommand host "cargo build --release"
      {| silent := true; ignoreError := false; cwd := Some tempDir |} ;;
    runCommand host ("cp " ++ tempDir ++ "/target/release/openclaw" ++ " "
                     ++ OPENCLAW_DIR ++ "/") quiet
  else
    let pkgCmd :=
      if strict_eq installMethod (VStr (js "npm"))
      then "npm install -g @openclaw/cli"
      else if strict_eq installMethod (VStr (js "yarn"))
      then "yarn global add @openclaw/cli"
      else "pnpm add -g @openclaw/cli" in
    runCommand host pkgCmd quiet.

(** Lines 441-469: the [try] block and its [catch]. *)
Definition installWith (installMethod : jsval) : M unit :=
  try (ensureDir OPENCLAW_DIR ;;
       installCommands installMethod ;;
       modify (fun W => with_config (set (config W) "installed" (VBool true)) W) ;;
       modify (fun W => with_config (set (config W) "installMethod" installMethod) W) ;;
       saveConfig)
      (fun error => emit (Reported ("Installation failed: " ++ error)%string)).

End InstallParts.

(** The configuration once an installation by [installMethod] succeeded. *)
Definition installed_config (cfg installMethod : jsval) : jsval :=
  set (set cfg "installed" (VBool true)) "installMethod" installMethod.

(** ** The preferences *)

Section PreferenceParts.

Context (host : Machine).

(** The questions of [stepOnboarding] for the preferences there are
    (lines 505-535). *)
Definition onboardingQuestions (preferences : jsval) : list question :=
  [input_question "userName" []
     (js_or (get preferences "userName") (VStr (username host)));
   list_question "mode" ["beginner"; "intermediate"; "advanced"]
     (js_or (get preferences "mode") (VStr (js "intermediate")));
   confirm_question "telemetry"
     (VBool (negb (strict_eq (get preferences "telemetry") (VBool false))));
   confirm_question "newsletter" (js_or (get preferences "newsletter") (VBool false))].

(** Lines 502-555 of [stepOnboarding]: the questions, the merge, the file. *)
Definition onboard : M unit :=
  cfg <- gets config ;;
  userName <- member (get cfg "preferences") "userName" ;;
  mode <- member (get cfg "preferences") "mode" ;;
  telemetry <- member (get cfg "preferences") "telemetry" ;;
  newsletter <- member (get cfg "preferences") "newsletter" ;;
  answers <- prompt
    [input_question "userName" [] (js_or userName (VStr (username host)));
     list_question "mode" ["beginner"; "intermediate"; "advanced"]
       (js_or mode (VStr (js "intermediate")));
     confirm_question "telemetry" (VBool (negb (strict_eq telemetry (VBool false))));
     confirm_question "newsletter" (js_or newsletter (VBool false))] ;;
  modify (fun W => with_config
            (set (config W) "preferences"
                 (spread (get (config W) "preferences") answers)) W) ;;
  modify (fun W => with_config (set (config W) "onboardingComplete" (VBool true)) W) ;;
  saveConfig ;;
  prompt [confirm_question "continue" (VBool true)] ;;
  ret tt.

End PreferenceParts.

(** The configuration after onboarding stored [answers]. *)
Definition onboarded_config (cfg answers : jsval) : jsval :=
  set (set cfg "preferences" (spread (get cfg "preferences") answers))
      "onboardingComplete" (VBool true).

(** The questions of the advanced settings (lines 1107-1127). *)
Definition advancedQuestions (preferences : jsval) : list question :=
  [input_question "rpcEndpoint" [] (js_or (get preferences "rpcEndpoint") (VStr []));
   input_question "logLevel" ["debug"; "info"; "warn"; "error"]
     (js_or (get preferences "logLevel") (VStr (js "info")));
   confirm_question "autoUpdate"
     (VBool (negb (strict_eq (get preferences "autoUpdate") (VBool false))))].

(** ** The fallback box *)

(** The width between the corners: the longest line and two spaces on
    either side. *)
Definition box_width (content : jsstring) : nat :=
  fold_right Nat.max 0 (map (@length N) (split_lines content)) + 4.

(** [rows.join('\n')] *)
Fixpoint join_lines (rows : list jsstring) : jsstring :=
  match rows with
  | [] => []
  | [row] => row
  | row :: rest => row ++ 10%N :: join_lines rest
  end.

(** A line of the content between the sides of the box. *)
Definition box_row (width : nat) (line : jsstring) : jsstring :=
  [VERTICAL; 32%N; 32%N] ++ line ++ repeat 32%N (width - 4 - length line)
  ++ [32%N; 32%N; VERTICAL].

(** The rows of the box: the title between dashes, the lines, the bottom. *)
Definition box_rows (content title : jsstring) : list jsstring :=
  let w := box_width content in
  let before := (w - length title) / 2 in
  let behind := w - length title - before in
  (TOP_LEFT :: repeat HORIZONTAL before ++ title ++ repeat HORIZONTAL behind
   ++ [TOP_RIGHT])
  :: map (box_row w) (split_lines content)
  ++ [BOTTOM_LEFT :: repeat HORIZONTAL w ++ [BOTTOM_RIGHT]].

(** * A small implementation of the two interfaces

    It stands in for the real packages where a statement is evaluated on a
    concrete input: a keystream cipher in place of AES-256-GCM, a
    repeat-to-length function in place of PBKDF2 and of the seed and path
    derivations, and base58 as bs58 implements it. *)
Module Sample.

Definition bxor (a b : byte) : byte :=
  match Byte.to_bits a, Byte.to_bits b with
  | (a0, (a1, (a2, (a3, (a4, (a5, (a6, a7))))))),
    (b0, (b1, (b2, (b3, (b4, (b5, (b6, b7))))))) =>
      Byte.of_bits (xorb a0 b0, (xorb a1 b1, (xorb a2 b2, (xorb a3 b3,
                   (xorb a4 b4, (xorb a5 b5, (xorb a6 b6, xorb a7 b7)))))))
  end.

Fixpoint xor_bytes (a b : bytes) : bytes :=
  match a, b with
  | x :: a', y :: b' => bxor x y :: xor_bytes a' b'
  | _, _ => []
  end.

(** [n] bytes out of [src], repeated as often as needed. *)
Definition stretch (n : nat) (src : bytes) : bytes :=
  map (fun i => nth (i mod length src) src x00) (seq 0 n).

Definition bytes_eqb (a b : bytes) : bool :=
  (length a =? length b)%nat
  && forallb (fun p => Byte.eqb (fst p) (snd p)) (combine a b).

Definition keystream (key iv : bytes) (from n : nat) : bytes :=
  skipn from (stretch (from + n) (key ++ iv)).

Definition tag_of (key iv text : bytes) : bytes :=
  xor_bytes (stretch 16 (x01 :: text)) (stretch 16 (key ++ iv)).

Definition is_gcm (alg : string) (key : bytes) : bool :=
  String.eqb alg "aes-256-gcm" && (length key =? 32)%nat.

#[export] Instance crypto : CryptoLib := {|
  pbkdf2 := fun pw salt _ n _ => stretch n (pw ++ salt);
  Cipher := bytes * bytes * bytes;
  createCipheriv := fun alg key iv =>
    if is_gcm alg key then inr (key, iv, []) else inl "Invalid key length";
  cipher_update := fun '(key, iv, done) text =>
    let out := xor_bytes text (keystream key iv (length done) (length text)) in
    ((key, iv, done ++ out), out);
  cipher_final := fun c => (c, []);
  getAuthTag := fun '(key, iv, done) => tag_of key iv done;
  gcm_open := fun alg key iv tag text =>
    if is_gcm alg key && bytes_eqb tag (tag_of key iv text)
    then Some (xor_bytes text (keystream key iv 0 (length text)))
    else None
|}.

(** *** base58 *)

Definition ALPHABET : jsstring :=
  js "123456789ABCDEFGHJKLMNPQRSTUVWXYZabcdefghijkmnopqrstuvwxyz".

Fixpoint index_of (c : N) (l : list N) : option N :=
  match l with
  | [] => None
  | x :: rest => if (x =? c)%N then Some 0%N
                 else option_map N.succ (index_of c rest)
  end.

(** The digits of [n] in base [base], most significant first. *)
Fixpoint digits (fuel : nat) (base n : N) (acc : list N) : list N :=
  match fuel with
  | O => acc
  | S fuel' => if (n =? 0)%N then acc
               else digits fuel' base (n / base) ((n mod base)%N :: acc)
  end.

Definition number (base : N) (ds : list N) : N :=
  fold_left (fun acc d => (acc * base + d)%N) ds 0%N.

Fixpoint leading {A} (is_zero : A -> bool) (l : list A) : nat :=
  match l with
  | x :: rest => if is_zero x then S (leading is_zero rest) else O
  | [] => O
  end.

Definition base58_encode (b : bytes) : jsstring :=
  let n := number 256 (map Byte.to_N b) in
  repeat 49%N (leading (Byte.eqb x00) b)
  ++ map (fun d => nth (N.to_nat d) ALPHABET 0%N) (digits (2 * length b) 58 n []).

Fixpoint indices (s : jsstring) : option (list N) :=
  match s with
  | [] => Some []
  | c :: rest =>
      match index_of c ALPHABET, indices rest with
      | Some i, Some l => Some (i :: l)
      | _, _ => None
      end
  end.

Definition base58_decode (v : jsval) : exn + bytes :=
  match v with
  | VStr s =>
      match indices s with
      | Some ds =>
          inr (repeat x00 (leading (N.eqb 0) ds)
               ++ map byte_of_N (digits (length s) 256 (number 58 ds) []))
      | None => inl "Non-base58 character"
      end
  | _ => inl "Expected String"
  end.

(** *** the Solana packages *)

Definition public_of (seed : bytes) : bytes := map (bxor x5c) (rev seed).

Definition phrase_ok (v : jsval) : bool :=
  match v with
  | VStr s => is_hex s && (length s =? 32)%nat
  | _ => false
  end.

#[export] Instance solana : SolanaLib := {|
  entropyToMnemonic := toHex;
  validateMnemonic := phrase_ok;
  mnemonicToSeedSync := fun v =>
    match v with
    | VStr s => stretch 64 (x02 :: utf8_encode s)
    | _ => stretch 64 [x02]
    end;
  derivePath := fun path seed => stretch 32 (rev (fromHex seed) ++ utf8_encode (js path));
  fromSeed := fun seed =>
    if (length seed =? 32)%nat
    then inr {| publicKey := public_of seed; secretKey := seed ++ public_of seed |}
    else inl "bad seed size";
  fromSecretKey := fun sk =>
    if (length sk =? 64)%nat then
      if bytes_eqb (public_of (firstn 32 sk)) (skipn 32 sk)
      then inr {| publicKey := skipn 32 sk; secretKey := sk |}
      else inl "provided secretKey is invalid"
    else inl "bad secret key size";
  toBase58 := base58_encode;
  bs58_encode := base58_encode;
  bs58_decode := base58_decode
|}.

(** A world for the examples: everything installed, no wallet yet, the
    random source counting up from [start]. *)
Definition counting (start : nat) : nat -> byte := fun i => byte_of_N (N.of_nat (start + i)).

Definition world0 (ui : bool) (source : nat -> byte) (input : list string) : World :=
  {| inquirer := ui; ora := true; installed := fun _ => true;
     stdin := map js input; entropy := source; cursor := 0;
     clock := js "2024-01-01T00:00:00.000Z";
     config := VObj [("version", VStr (js "1.0.0")); ("wallet", VNull)];
     files := [] |}.

(** The keystore records a run wrote. *)
Definition keystores (l : list event) : list jsval :=
  flat_map (fun e => match e with
                     | Wrote p doc => if String.eqb p WALLET_FILE then [doc] else []
                     | _ => []
                     end) l.

(** Nothing typed yet, inquirer loaded, random bytes 0, 1, 2, ... *)
Definition W0 : World := world0 true (counting 0) [].

(** A user who creates a wallet and protects it with 'correct-password'. *)
Definition creating : World :=
  world0 true (counting 0)
    ["create"; "correct-password"; "correct-password"; "devnet"; "y"].

(** A user who registers a hardware wallet. *)
Definition connecting : World :=
  world0 true (counting 0) ["hardware"; "HWPUBKEY"; "mainnet-beta"; "y"].

End Sample.

(** ** More worlds for the examples *)
Module Cases.

Import Sample.

(** The machine of [world0] without the optional ora package. *)
Definition plain (W : World) : World :=
  {| inquirer := inquirer W; ora := false; installed := installed W;
     stdin := stdin W; entropy := entropy W; cursor := cursor W;
     clock := clock W; config := config W; files := files W |}.

(** A machine on which a wallet was set up before. *)
Definition with_wallet (W : World) : World :=
  with_config (set (config W) "wallet"
                  (VObj [("publicKey", VStr (js "HWPUBKEY"));
                         ("network", VStr (js "devnet"));
                         ("type", VStr (js "hardware"));
                         ("encryptedKey", VNull)])) W.

(** A user who keeps the wallet there is. *)
Definition keeping : World := with_wallet (world0 true (counting 0) ["keep"]).

(** A user who creates a wallet on a machine without ora. *)
Definition creating_plain : World := plain creating.

(** A user who imports a key that is neither base58 nor of the right
    length. *)
Definition importing_badly : World :=
  world0 true (counting 0) ["import-key"; "0000"; "y"].

(** A machine on which every dependency is found and every command
    succeeds and leaves the program behind, except the installation with
    npm, which leaves its log. *)
Definition laptop : Machine :=
  {| spawn := fun command _ disk =>
       if String.eqb command "npm install -g @openclaw/cli"
       then (("~/.npm/_logs/debug.log", VStr (js "npm ERR!")) :: disk,
             inr (Some 1%N, []))
       else (("/usr/local/bin/openclaw", VBytes []) :: disk, inr (Some 0%N, []));
     execSync := fun _ => inr (js "v1.0.0");
     tmpdir := "/tmp";
     username := js "ann" |}.


(** The configuration the wizard starts with (lines 68-75; [skills], an
    empty array, is left out), on a machine with a theme preference from an
    earlier run. *)
Definition first_config : jsval :=
  VObj [("version", VStr (js "1.0.0")); ("installed", VBool false);
        ("wallet", VNull);
        ("preferences", VObj [("theme", VStr (js "dark"))]);
        ("onboardingComplete", VBool false)].

Definition first_run (ui : bool) (input : list string) : World :=
  with_config first_config (world0 ui (counting 0) input).

(** A configuration file that sets [installed] and has no preferences. *)
Definition stored_config : list (string * jsval) :=
  [("installed", VBool true); ("preferences", VNull)].

Definition second_run (ui : bool) (input : list string) : World :=
  with_files [(CONFIG_FILE, VObj stored_config)] (first_run ui input).

End Cases.

Ltac pick := repeat (first [left; reflexivity | right]).

(** * Properties *)

(** ** The monad *)

Lemma bind_Return {A B} (m : M A) (f : A -> M B) (W W1 : World) (a : A)
    (l1 : list event) :
  m W = Run (Return a) W1 l1 ->
  bind m f W = match f a W1 with Run o W2 l2 => Run o W2 (l1 ++ l2) end.
Proof. intros H. unfold bind. now rewrite H. Qed.

Lemma bind_Throw {A B} (m : M A) (f : A -> M B) (W W1 : World) (e : exn)
    (l1 : list event) :
  m W = Run (Throw e) W1 l1 -> bind m f W = Run (Throw e) W1 l1.
Proof. intros H. unfold bind. now rewrite H. Qed.

Lemma bind_Halt {A B} (m : M A) (f : A -> M B) (W W1 : World) (l1 : list event) :
  m W = Run Halt W1 l1 -> bind m f W = Run Halt W1 l1.
Proof. intros H. unfold bind. now rewrite H. Qed.

Lemma log_bind {A B} (m : M A) (f : A -> M B) (W : World) :
  log (bind m f W)
  = log (m W) ++ match out (m W) with
                 | Return a => log (f a (world (m W)))
                 | _ => []
                 end.
Proof.
  unfold bind. destruct (m W) as [[a|e|] W1 l1]; cbn [out world log].
  - now destruct (f a W1).
  - now rewrite app_nil_r.
  - now rewrite app_nil_r.
Qed.

(** ** Encodings *)

Lemma to_N_byte_of_N (n : N) : (n < 256)%N -> Byte.to_N (byte_of_N n) = n.
Proof.
  intros Hn. unfold byte_of_N. rewrite N.mod_small by exact Hn.
  destruct (Byte.of_N n) as [b|] eqn:E.
  - now apply Byte.to_of_N.
  - apply Byte.of_N_None_iff in E. lia.
Qed.

Lemma byte_of_N_to_N (b : byte) : byte_of_N (Byte.to_N b) = b.
Proof.
  unfold byte_of_N. pose proof (Byte.to_N_bounded b) as Hb.
  rewrite N.mod_small by lia. now rewrite Byte.of_to_N.
Qed.

Lemma fromHex_hex_of_byte (b : byte) (s : jsstring) :
  fromHex (hex_of_byte b ++ s) = b :: fromHex s.
Proof. destruct b; reflexivity. Qed.

Lemma fromHex_toHex (b : bytes) : fromHex (toHex b) = b.
Proof.
  induction b as [|x b IH]; [reflexivity|].
  unfold toHex in *. cbn [flat_map].
  now rewrite fromHex_hex_of_byte, IH.
Qed.

Lemma toHex_app (a b : bytes) : toHex (a ++ b) = toHex a ++ toHex b.
Proof. apply flat_map_app. Qed.

Lemma length_toHex (b : bytes) : length (toHex b) = 2 * length b.
Proof.
  induction b as [|x b IH]; [reflexivity|].
  unfold toHex in *. cbn [flat_map length app hex_of_byte]. rewrite IH. lia.
Qed.

Lemma is_hex_hex_of_byte (b : byte) : is_hex (hex_of_byte b) = true.
Proof. destruct b; reflexivity. Qed.

Lemma is_hex_app (s t : jsstring) : is_hex (s ++ t) = is_hex s && is_hex t.
Proof. apply forallb_app. Qed.

Lemma is_hex_toHex (b : bytes) : is_hex (toHex b) = true.
Proof.
  induction b as [|x b IH]; [reflexivity|].
  unfold toHex in *. cbn [flat_map].
  now rewrite is_hex_app, is_hex_hex_of_byte, IH.
Qed.

Lemma toHex_inj (a b : bytes) : toHex a = toHex b -> a = b.
Proof.
  intros E. rewrite <- (fromHex_toHex a), <- (fromHex_toHex b). now rewrite E.
Qed.

Lemma is_hex_is_ascii (s : jsstring) : is_hex s = true -> is_ascii s = true.
Proof.
  unfold is_hex, is_ascii. rewrite !forallb_forall. intros H c Hc.
  specialize (H c Hc). unfold is_hex_char in H.
  apply N.ltb_lt.
  apply orb_true_iff in H as [H|H]; apply andb_true_iff in H as [_ H];
    apply N.leb_le in H; lia.
Qed.

Lemma utf8_encode_ascii (s : jsstring) :
  is_ascii s = true -> utf8_encode s = map byte_of_N s.
Proof.
  induction s as [|c s IH]; [reflexivity|].
  cbn [is_ascii forallb]. intros H. apply andb_true_iff in H as [Hc Hs].
  assert (Hlt : (c < 0x80)%N) by now apply N.ltb_lt.
  cbn [utf8_encode map].
  replace (is_high c) with false
    by (symmetry; unfold is_high; apply andb_false_iff; left; apply N.leb_gt; lia).
  replace (is_low c) with false
    by (symmetry; unfold is_low; apply andb_false_iff; left; apply N.leb_gt; lia).
  unfold utf8_point. rewrite Hc. cbn [app]. f_equal. now apply IH.
Qed.

Lemma utf8_decode_ascii (s : jsstring) :
  is_ascii s = true -> utf8_decode (map byte_of_N s) = s.
Proof.
  induction s as [|c s IH]; [reflexivity|].
  cbn [is_ascii forallb]. intros H. apply andb_true_iff in H as [Hc Hs].
  assert (Hlt : (c < 0x80)%N) by now apply N.ltb_lt.
  cbn [map utf8_decode]. rewrite to_N_byte_of_N by lia.
  rewrite Hc. f_equal. now apply IH.
Qed.

(** Text made of ASCII characters survives the trip through UTF-8. *)
Lemma utf8_roundtrip_ascii (s : jsstring) :
  is_ascii s = true -> utf8_decode (utf8_encode s) = s.
Proof.
  intros H. rewrite utf8_encode_ascii by exact H. now apply utf8_decode_ascii.
Qed.

Lemma length_utf8_ascii (s : jsstring) :
  is_ascii s = true -> length (utf8_encode s) = length s.
Proof.
  intros H. rewrite utf8_encode_ascii by exact H. apply length_map.
Qed.

Lemma jsstring_eqb_eq (s t : jsstring) : jsstring_eqb s t = true <-> s = t.
Proof.
  unfold jsstring_eqb. revert t.
  induction s as [|a s IH]; intros [|b t]; cbn; try (split; congruence).
  specialize (IH t). destruct (Nat.eqb (length s) (length t)) eqn:El; cbn in *.
  - destruct (N.eqb a b) eqn:Eab; cbn.
    + apply N.eqb_eq in Eab. subst b. rewrite IH. split; congruence.
    + apply N.eqb_neq in Eab. split; congruence.
  - apply Nat.eqb_neq in El. split; [congruence|].
    intros E. inversion E. subst. congruence.
Qed.

(** ** Password-based encryption *)

Lemma length_drawn (W : World) (from n : nat) : length (drawn W from n) = n.
Proof. unfold drawn. now rewrite length_map, length_seq. Qed.

Section Encryption.

Context {crypto : CryptoLib} {laws : CryptoLaws}.

(** One call of [encryptKey] with a string password, step by step. *)
Lemma encryptKey_run (W : World) (key p : jsstring) :
  let salt := drawn W 0 32 in
  let iv := drawn W 32 16 in
  let derivedKey := pbkdf2 (utf8_encode p) salt 100000 32 "sha256" in
  exists c out1 out2 tag,
    createCipheriv "aes-256-gcm" derivedKey iv = inr c
    /\ seal c (utf8_encode key) = (out1, out2, tag)
    /\ encryptKey key (VStr p) W =
       Run (Return (VObj [("encrypted", VStr (toHex (out1 ++ out2)));
                          ("salt", VStr (toHex salt));
                          ("iv", VStr (toHex iv));
                          ("authTag", VStr (toHex tag))]))
           (with_cursor (cursor W + 48) W)
           (encryptKey_events key (VStr p) salt iv derivedKey).
Proof.
  cbv zeta.
  pose proof (pbkdf2_length (utf8_encode p) (drawn W 0 32) 100000 32 "sha256") as H1.
  pose proof (length_drawn W 32 16) as H2.
  destruct (gcm_create _ _ H1 H2) as [c Hc].
  destruct (seal c (utf8_encode key)) as [[out1 out2] tag] eqn:Hseal.
  exists c, out1, out2, tag. split; [exact Hc|]. split; [exact Hseal|].
  unfold drawn in *. rewrite Nat.add_0_r in *.
  unfold encryptKey, pbkdf2Sync, bind, emit, randomBytes, ret.
  cbn [cursor entropy with_cursor app]. rewrite Hc. cbn [lift ret app].
  unfold seal in Hseal.
  destruct (cipher_update c (utf8_encode key)) as [c1 o1].
  destruct (cipher_final c1) as [c2 o2].
  inversion Hseal; subst. unfold ret.
  rewrite toHex_app. unfold encryptKey_events, with_cursor.
  cbn [inquirer ora installed stdin entropy cursor clock config files].
  replace (cursor W + 32 + 16) with (cursor W + 48) by lia.
  reflexivity.
Qed.

Lemma app_eq_length {A} (a c b d : list A) :
  length a = length c -> a ++ b = c ++ d -> a = c /\ b = d.
Proof.
  revert c. induction a as [|x a IH]; intros [|y c] Hl E; try discriminate.
  - now split.
  - cbn in E. inversion E; subst. destruct (IH c) as [-> ->]; auto.
Qed.

Lemma drawn_split (W : World) (from n m : nat) :
  drawn W from (n + m) = drawn W from n ++ drawn W (from + n) m.
Proof.
  unfold drawn. rewrite seq_app, map_app. now rewrite Nat.add_assoc.
Qed.

Lemma drawn_after (W : World) (k from n : nat) :
  drawn (with_cursor (cursor W + k) W) from n = drawn W (k + from) n.
Proof. unfold drawn. cbn [cursor entropy with_cursor]. now rewrite Nat.add_assoc. Qed.

(** C3: [encryptKey] draws a 32-byte salt and a 16-byte IV from the random
    source, derives a 32-byte key from the password and the salt with
    PBKDF2 (100000 iterations, SHA-256), encrypts the text with AES-256-GCM
    under that key and IV, and returns ciphertext, salt, IV and tag as four
    hex strings. *)
Theorem encryptKey_steps (W : World) (key p : jsstring) :
  let salt := drawn W 0 32 in
  let iv := drawn W 32 16 in
  let derivedKey := pbkdf2 (utf8_encode p) salt 100000 32 "sha256" in
  let r := encryptKey key (VStr p) W in
  length salt = 32 /\ length iv = 16 /\ length derivedKey = 32
  /\ cursor (world r) = cursor W + 48
  /\ log r = encryptKey_events key (VStr p) salt iv derivedKey
  /\ exists c out1 out2 tag,
       createCipheriv "aes-256-gcm" derivedKey iv = inr c
       /\ seal c (utf8_encode key) = (out1, out2, tag)
       /\ out r = Return (VObj [("encrypted", VStr (toHex (out1 ++ out2)));
                                ("salt", VStr (toHex salt));
                                ("iv", VStr (toHex iv));
                                ("authTag", VStr (toHex tag))])
       /\ is_hex (toHex (out1 ++ out2)) = true /\ is_hex (toHex salt) = true
       /\ is_hex (toHex iv) = true /\ is_hex (toHex tag) = true.
Proof.
  intros salt iv derivedKey r.
  destruct (encryptKey_run W key p) as (c & out1 & out2 & tag & Hc & Hseal & Hrun).
  fold salt iv derivedKey in Hc, Hrun. subst r. rewrite Hrun.
  cbn [out world log cursor with_cursor].
  split; [apply length_drawn|]. split; [apply length_drawn|].
  split; [apply pbkdf2_length|]. split; [reflexivity|]. split; [reflexivity|].
  exists c, out1, out2, tag. repeat split; auto using is_hex_toHex.
Qed.

(** C10: the text given to the cipher is the UTF-8 encoding of the key
    string itself, so the [encrypted] field has two hex characters for each
    of those bytes: four for each byte of a raw key passed in as hex. *)
Theorem encrypted_length (W : World) (key p : jsstring) :
  exists e c out1 out2 tag,
    out (encryptKey key (VStr p) W) = Return e
    /\ createCipheriv "aes-256-gcm"
         (pbkdf2 (utf8_encode p) (drawn W 0 32) 100000 32 "sha256")
         (drawn W 32 16) = inr c
    /\ seal c (utf8_encode key) = (out1, out2, tag)
    /\ get e "encrypted" = VStr (toHex (out1 ++ out2))
    /\ length (toHex (out1 ++ out2)) = 2 * length (utf8_encode key)
    /\ forall raw, key = toHex raw -> length (toHex (out1 ++ out2)) = 4 * length raw.
Proof.
  destruct (encryptKey_run W key p) as (c & out1 & out2 & tag & Hc & Hseal & Hrun).
  eexists _, c, out1, out2, tag. rewrite Hrun. cbn [out].
  split; [reflexivity|]. split; [exact Hc|]. split; [exact Hseal|].
  split; [reflexivity|].
  assert (Hlen : length (toHex (out1 ++ out2)) = 2 * length (utf8_encode key)).
  { rewrite length_toHex. f_equal. eapply gcm_length; eassumption. }
  split; [exact Hlen|].
  intros raw ->. rewrite Hlen.
  rewrite length_utf8_ascii by (apply is_hex_is_ascii, is_hex_toHex).
  rewrite length_toHex. lia.
Qed.

(** C1: decrypting what [encryptKey] returned for a hex string [k] under
    a password, with the same password, gives [k] back. *)
Theorem decrypt_encrypt (W : World) (k p : jsstring) :
  is_hex k = true ->
  exists e, out (encryptKey k (VStr p) W) = Return e /\ decryptKey e p = Return k.
Proof.
  intros Hk.
  destruct (encryptKey_run W k p) as (c & out1 & out2 & tag & Hc & Hseal & Hrun).
  eexists. rewrite Hrun. cbn [out]. split; [reflexivity|].
  unfold decryptKey. cbn [get lookup String.eqb Ascii.eqb Bool.eqb].
  rewrite !fromHex_toHex.
  erewrite gcm_open_seal by eassumption.
  f_equal. apply utf8_roundtrip_ascii. now apply is_hex_is_ascii.
Qed.

(** [encryptKey] of the empty string returns the empty ciphertext, whatever
    the random source delivers. *)
Lemma empty_key_gives_empty_ciphertext (W : World) (p : jsstring) :
  exists e, out (encryptKey [] (VStr p) W) = Return e /\ get e "encrypted" = VStr [].
Proof.
  destruct (encryptKey_run W [] p) as (c & out1 & out2 & tag & Hc & Hseal & Hrun).
  eexists. rewrite Hrun. split; [reflexivity|].
  cbn [get lookup String.eqb Ascii.eqb Bool.eqb]. f_equal.
  pose proof (gcm_length _ _ _ _ _ _ _ Hc Hseal) as Hlen. cbn in Hlen.
  destruct (out1 ++ out2); [reflexivity|discriminate].
Qed.

(** C4, as amended: each call draws its salt and its IV from the random
    source anew, 48 bytes a call, whatever the key and the password are; two
    calls in a row give different salts (IVs) exactly when the source
    delivers different bytes for them, and equal draws give equal results. *)
Theorem encryptKey_fresh_draws (W : World) (key p : jsstring) :
  let r1 := encryptKey key (VStr p) W in
  let r2 := encryptKey key (VStr p) (world r1) in
  exists e1 e2,
    out r1 = Return e1 /\ out r2 = Return e2
    /\ get e1 "salt" = VStr (toHex (drawn W 0 32))
    /\ get e1 "iv" = VStr (toHex (drawn W 32 16))
    /\ get e2 "salt" = VStr (toHex (drawn W 48 32))
    /\ get e2 "iv" = VStr (toHex (drawn W 80 16))
    /\ (get e1 "salt" <> get e2 "salt" <-> drawn W 0 32 <> drawn W 48 32)
    /\ (get e1 "iv" <> get e2 "iv" <-> drawn W 32 16 <> drawn W 80 16)
    /\ (drawn W 0 48 = drawn W 48 48 -> e1 = e2).
Proof.
  intros r1 r2.
  destruct (encryptKey_run W key p) as (c & o1 & o2 & t & Hc & Hseal & Hrun).
  destruct (encryptKey_run (world r1) key p)
    as (c' & o1' & o2' & t' & Hc' & Hseal' & Hrun').
  subst r2. subst r1. rewrite Hrun in *. cbn [world] in *. rewrite Hrun'.
  rewrite !drawn_after in *. cbn [Nat.add] in *.
  eexists _, _. cbn [out get lookup String.eqb Ascii.eqb Bool.eqb].
  split; [reflexivity|]. split; [reflexivity|]. repeat (split; [reflexivity|]).
  assert (Hne : forall a b, VStr (toHex a) <> VStr (toHex b) <-> a <> b).
  { intros a b. split; intros H E; apply H.
    - now subst.
    - inversion E. now apply toHex_inj. }
  split; [apply Hne|]. split; [apply Hne|].
  intros Heq.
  change 48 with (32 + 16) in Heq at 1 3. rewrite !drawn_split in Heq.
  cbn [Nat.add] in Heq.
  apply app_eq_length in Heq; [|now rewrite !length_drawn].
  destruct Heq as [Hs Hi]. rewrite <- Hs, <- Hi in *.
  rewrite Hc in Hc'. inversion Hc'; subst c'.
  rewrite Hseal in Hseal'. now inversion Hseal'.
Qed.

End Encryption.

(** ** The sample implementation keeps the laws *)
Module SampleFacts.
Import Sample.

Lemma bxor_cancel (a b : byte) : bxor (bxor a b) b = a.
Proof.
  unfold bxor.
  destruct (Byte.to_bits a) as (a0 & a1 & a2 & a3 & a4 & a5 & a6 & a7) eqn:Ea.
  destruct (Byte.to_bits b) as (b0 & b1 & b2 & b3 & b4 & b5 & b6 & b7) eqn:Eb.
  rewrite Byte.to_bits_of_bits.
  rewrite !xorb_assoc, !xorb_nilpotent, !xorb_false_r.
  rewrite <- Ea. apply Byte.of_bits_to_bits.
Qed.

Lemma length_xor_bytes (a b : bytes) :
  length a <= length b -> length (xor_bytes a b) = length a.
Proof.
  revert b. induction a as [|x a IH]; intros [|y b] H; cbn in *; try lia.
  rewrite IH; lia.
Qed.

Lemma xor_bytes_cancel (a b : bytes) :
  length a <= length b -> xor_bytes (xor_bytes a b) b = a.
Proof.
  revert b. induction a as [|x a IH]; intros [|y b] H; cbn in *; try lia; auto.
  rewrite bxor_cancel, IH; [reflexivity | lia].
Qed.

Lemma length_stretch (n : nat) (src : bytes) : length (stretch n src) = n.
Proof. unfold stretch. now rewrite length_map, length_seq. Qed.

Lemma length_keystream (key iv : bytes) (from n : nat) :
  length (keystream key iv from n) = n.
Proof. unfold keystream. rewrite length_skipn, length_stretch. lia. Qed.

Lemma bytes_eqb_refl (a : bytes) : bytes_eqb a a = true.
Proof.
  unfold bytes_eqb. rewrite Nat.eqb_refl. cbn.
  induction a as [|x a IH]; cbn; [reflexivity|].
  now rewrite Byte.byte_dec_lb, IH.
Qed.

Lemma is_gcm_32 (key : bytes) : length key = 32 -> is_gcm "aes-256-gcm" key = true.
Proof. intros H. unfold is_gcm. rewrite H. reflexivity. Qed.

Lemma created (key iv : bytes) (c : Cipher) :
  createCipheriv "aes-256-gcm" key iv = inr c ->
  is_gcm "aes-256-gcm" key = true /\ c = (key, iv, []).
Proof.
  unfold createCipheriv, crypto.
  destruct (is_gcm "aes-256-gcm" key); [|discriminate].
  intros E. inversion E. now split.
Qed.

Lemma sealed (key iv text : bytes) :
  let out := xor_bytes text (keystream key iv 0 (length text)) in
  @seal crypto (key, iv, []) text = (out, [], tag_of key iv out).
Proof. reflexivity. Qed.

Lemma crypto_laws : @CryptoLaws crypto.
Proof.
  split.
  - intros. apply length_stretch.
  - intros key iv Hk _. exists (key, iv, []).
    unfold createCipheriv, crypto. now rewrite is_gcm_32.
  - intros key iv c text out1 out2 tag Hc Hs.
    apply created in Hc as [_ ->]. rewrite sealed in Hs. inversion Hs; subst.
    rewrite app_nil_r, length_xor_bytes; [reflexivity|].
    now rewrite length_keystream.
  - intros key iv c text out1 out2 tag Hc Hs.
    apply created in Hc as [Hg ->]. rewrite sealed in Hs. inversion Hs; subst.
    clear Hs. unfold gcm_open, crypto.
    rewrite Hg, app_nil_r, bytes_eqb_refl. cbn [andb].
    rewrite length_xor_bytes by now rewrite length_keystream.
    rewrite xor_bytes_cancel; [reflexivity|]. now rewrite length_keystream.
Qed.

Lemma solana_laws : @SolanaLaws solana.
Proof.
  split.
  - intros e He. cbn. rewrite is_hex_toHex, length_toHex, He. reflexivity.
  - intros sk Hsk. cbn. apply Nat.eqb_neq in Hsk. now rewrite Hsk.
Qed.

End SampleFacts.

(** ** The wallet constructors *)

Section Constructors.

Context {solana : SolanaLib}.

Lemma keypairOfPhrase_run (phrase : jsval) (W : World) :
  keypairOfPhrase phrase W =
  Run (match derivedKeypair phrase with inl e => Throw e | inr kp => Return kp end)
      W (derivation_calls phrase).
Proof.
  unfold keypairOfPhrase, derivedKeypair, derivation_calls, bind, emit, lift.
  cbn [out world log app].
  destruct (fromSeed _); reflexivity.
Qed.

Lemma require_four (W : World) :
  try (require "@solana/web3.js" ;; require "bip39" ;;
       require "ed25519-hd-key" ;; require "bs58")%js
      (fun _ => throw SDK_REQUIRED) W
  = Run (if sdk_loaded W then Return tt else Throw SDK_REQUIRED) W [].
Proof.
  unfold try, bind, require, throw, sdk_loaded.
  destruct (installed W "@solana/web3.js"); cbn [out world log app andb]; trivial.
  destruct (installed W "bip39"); cbn [out world log app andb]; trivial.
  destruct (installed W "ed25519-hd-key"); cbn [out world log app andb]; trivial.
  destruct (installed W "bs58"); reflexivity.
Qed.

Lemma require_two (W : World) :
  try (require "@solana/web3.js" ;; require "bs58")%js
      (fun _ => throw SDK_REQUIRED) W
  = Run (if installed W "@solana/web3.js" && installed W "bs58"
         then Return tt else Throw SDK_REQUIRED) W [].
Proof.
  unfold try, bind, require, throw.
  destruct (installed W "@solana/web3.js"); cbn [out world log app andb]; trivial.
  destruct (installed W "bs58"); reflexivity.
Qed.

(** C6: a phrase the validation rejects never reaches the derivation: the
    import throws, with "Invalid seed phrase" once the packages are loaded,
    and none of [mnemonicToSeedSync], [derivePath], [Keypair.fromSeed] is
    called. *)
Theorem invalid_phrase_is_not_derived (W : World) (phrase : jsval) :
  validateMnemonic phrase = false ->
  let r := importFromSeedPhrase phrase W in
  (sdk_loaded W = true ->
     out r = Throw INVALID_SEED_PHRASE
     /\ log r = [Called "bip39.validateMnemonic" [phrase]])
  /\ (exists e, out r = Throw e)
  /\ forallb (fun e => negb (derivation_event e)) (log r) = true.
Proof.
  intros Hbad r. subst r. unfold importFromSeedPhrase.
  destruct (sdk_loaded W) eqn:Hsdk.
  - erewrite bind_Return by (rewrite require_four, Hsdk; reflexivity).
    erewrite bind_Return by reflexivity.
    rewrite Hbad. cbn. repeat split; eauto.
  - erewrite bind_Throw by (rewrite require_four, Hsdk; reflexivity).
    cbn. split; [discriminate|]. split; [eauto|reflexivity].
Qed.

Lemma generateNewWallet_run (W : World) :
  sdk_loaded W = true ->
  let phrase := entropyToMnemonic (drawn W 0 16) in
  generateNewWallet W =
  Run (match derivedKeypair (VStr phrase) with
       | inl e => Throw e
       | inr kp => Return (created_wallet phrase kp)
       end)
      (with_cursor (cursor W + 16) W)
      (Called "bip39.generateMnemonic" [VNum 128]
       :: Called "crypto.randomBytes" [VNum 16]
       :: derivation_calls (VStr phrase)).
Proof.
  intros Hsdk phrase. unfold generateNewWallet.
  erewrite bind_Return by (rewrite require_four, Hsdk; reflexivity).
  erewrite bind_Return by reflexivity.
  change (128 / 8) with 16.
  replace (map (entropy W) (seq (cursor W) 16)) with (drawn W 0 16)
    by (unfold drawn; now rewrite Nat.add_0_r).
  fold phrase. unfold bind. rewrite keypairOfPhrase_run.
  unfold created_wallet.
  destruct (derivedKeypair (VStr phrase)); reflexivity.
Qed.

Lemma generateNewWallet_needs_sdk (W : World) (wallet : jsval) :
  out (generateNewWallet W) = Return wallet -> sdk_loaded W = true.
Proof.
  unfold generateNewWallet. destruct (sdk_loaded W) eqn:Hsdk; [reflexivity|].
  erewrite bind_Throw by (rewrite require_four, Hsdk; reflexivity).
  discriminate.
Qed.

(** C7: the phrase of a created wallet, imported again, gives a wallet with
    the same public key (and the same secret key), because both paths run
    the phrase through the same pipeline and nothing else: the seed of
    [mnemonicToSeedSync], [derivePath] at m/44'/501'/0'/0' on its hex text,
    [Keypair.fromSeed] on the first 32 bytes of the derived key.  Each run
    makes these three calls, in this order and with these arguments, and the
    public key of both wallets is that of the key pair they give. *)
Theorem import_recovers_created_wallet {laws : SolanaLaws}
    (W W' : World) (wallet : jsval) :
  out (generateNewWallet W) = Return wallet ->
  sdk_loaded W' = true ->
  exists phrase kp imported,
    get wallet "seedPhrase" = VStr phrase
    /\ out (importFromSeedPhrase (VStr phrase) W') = Return imported
    /\ get imported "publicKey" = get wallet "publicKey"
    /\ get imported "rawSecretKey" = get wallet "rawSecretKey"
    /\ DERIVATION_PATH = "m/44'/501'/0'/0'"
    /\ derivedKeypair (VStr phrase) = inr kp
    /\ (let seed := mnemonicToSeedSync (VStr phrase) in
        let derivedSeed := derivePath "m/44'/501'/0'/0'" (toHex seed) in
        let pipeline :=
          [Called "bip39.mnemonicToSeedSync" [VStr phrase];
           Called "derivePath" [VStr (js "m/44'/501'/0'/0'"); VStr (toHex seed)];
           Called "Keypair.fromSeed" [VBytes (firstn 32 derivedSeed)]] in
        fromSeed (firstn 32 derivedSeed) = inr kp
        /\ filter derivation_event (log (generateNewWallet W)) = pipeline
        /\ filter derivation_event (log (importFromSeedPhrase (VStr phrase) W'))
           = pipeline)
    /\ get wallet "publicKey" = VStr (toBase58 (publicKey kp))
    /\ get imported "publicKey" = VStr (toBase58 (publicKey kp))
    /\ get wallet "rawSecretKey" = VBytes (secretKey kp)
    /\ get imported "rawSecretKey" = VBytes (secretKey kp).
Proof.
  intros Hgen Hsdk'.
  pose proof (generateNewWallet_needs_sdk _ _ Hgen) as Hsdk.
  rewrite (generateNewWallet_run W Hsdk) in *. cbn [out log] in *.
  set (phrase := entropyToMnemonic (drawn W 0 16)) in *.
  destruct (derivedKeypair (VStr phrase)) as [e|kp] eqn:Hkp; [discriminate|].
  inversion Hgen; subst wallet. clear Hgen.
  assert (Himport : importFromSeedPhrase (VStr phrase) W'
                    = Run (Return (VObj [("publicKey", VStr (toBase58 (publicKey kp)));
                                         ("type", VStr (js "imported"));
                                         ("network", VStr (js "devnet"));
                                         ("base58Key", VStr (bs58_encode (secretKey kp)));
                                         ("rawSecretKey", VBytes (secretKey kp))]))
                          W' (Called "bip39.validateMnemonic" [VStr phrase]
                              :: derivation_calls (VStr phrase))).
  { unfold importFromSeedPhrase.
    erewrite bind_Return by (rewrite require_four, Hsdk'; reflexivity).
    erewrite bind_Return by reflexivity.
    assert (Hok : validateMnemonic (VStr phrase) = true)
      by (apply generated_validates, length_drawn).
    rewrite Hok. cbn [negb]. unfold bind, ret. rewrite keypairOfPhrase_run, Hkp.
    cbn [app]. now rewrite app_nil_r. }
  exists phrase, kp. eexists. split; [reflexivity|].
  rewrite Himport. cbn [out log].
  split; [reflexivity|]. split; [reflexivity|]. split; [reflexivity|].
  split; [reflexivity|]. split; [exact Hkp|].
  split; [|repeat split; reflexivity].
  cbv zeta. split; [exact Hkp|]. split; reflexivity.
Qed.

Lemma importFromPrivateKey_run (W : World) (privateKey : jsval) :
  installed W "@solana/web3.js" && installed W "bs58" = true ->
  importFromPrivateKey privateKey W =
  match decodeKey privateKey with
  | inl e => Run (Throw e) W (decoding_calls privateKey)
  | inr b =>
      Run (match fromSecretKey b with
           | inl e => Throw e
           | inr kp => Return (imported_wallet privateKey kp)
           end)
          W (decoding_calls privateKey ++ [Called "Keypair.fromSecretKey" [VBytes b]])
  end.
Proof.
  intros Hsdk. unfold importFromPrivateKey.
  erewrite bind_Return by (rewrite require_two, Hsdk; reflexivity).
  unfold decodeKey, decoding_calls, imported_wallet.
  unfold Buffer_from_hex, bind, try, emit, lift, ret, throw.
  destruct (bs58_decode privateKey) as [e|b].
  - destruct privateKey; cbn [app]; try reflexivity;
      destruct (fromSecretKey _); reflexivity.
  - cbn [app]. destruct (fromSecretKey b); reflexivity.
Qed.

Lemma length_fromHex (s : jsstring) : 2 * length (fromHex s) <= length s.
Proof.
  assert (H : forall n s, length s <= n -> 2 * length (fromHex s) <= length s).
  { induction n as [|n IH]; intros [|hi [|lo rest]] Hn; cbn [fromHex length] in *;
      try lia.
    destruct (hex_value hi), (hex_value lo); cbn [length]; try lia.
    assert (2 * length (fromHex rest) <= length rest) by (apply IH; lia). lia. }
  now apply (H (length s)).
Qed.

(** C5: import-by-key tries base58 first and hex only when base58 threw, and
    hands the bytes it got to [Keypair.fromSecretKey], which refuses bytes
    that are not 64 long (ten, say) with its key-size error.  But hex
    decoding never fails on a string ([Buffer.from(s, 'hex')] decodes the
    hex digits there are and stops), so a string that is neither base58 nor
    hex is not refused with the format error of lines 1031-1033: its bytes
    (none, for a string that does not begin with two hex digits) go to
    [Keypair.fromSecretKey] like any others.  The format error is thrown
    only for a value that is not a string. *)
Theorem import_key_decoding {laws : SolanaLaws} (W : World) (privateKey : jsval) :
  installed W "@solana/web3.js" && installed W "bs58" = true ->
  let r := importFromPrivateKey privateKey W in
  let of_bytes := fun b => match fromSecretKey b with
                           | inl e => Throw e
                           | inr kp => Return (imported_wallet privateKey kp)
                           end in
  hd_error (log r) = Some (Called "bs58.decode" [privateKey])
  /\ (In (Called "Buffer.from" [privateKey; VStr (js "hex")]) (log r)
      <-> exists e, bs58_decode privateKey = inl e)
  /\ (forall b, bs58_decode privateKey = inr b ->
        log r = [Called "bs58.decode" [privateKey];
                 Called "Keypair.fromSecretKey" [VBytes b]]
        /\ out r = of_bytes b)
  /\ (forall e s, bs58_decode privateKey = inl e -> privateKey = VStr s ->
        log r = [Called "bs58.decode" [privateKey];
                 Called "Buffer.from" [privateKey; VStr (js "hex")];
                 Called "Keypair.fromSecretKey" [VBytes (fromHex s)]]
        /\ out r = of_bytes (fromHex s)
        /\ (forall sk, s = toHex sk -> out r = of_bytes sk)
        /\ (length s < 128 -> out r = Throw "bad secret key size"))
  /\ (forall b, In (Called "Keypair.fromSecretKey" [VBytes b]) (log r) ->
        out r = of_bytes b
        /\ (length b <> 64 -> out r = Throw "bad secret key size"))
  /\ ((forall b, ~ In (Called "Keypair.fromSecretKey" [VBytes b]) (log r))
      <-> (exists e, bs58_decode privateKey = inl e)
          /\ hex_decodable privateKey = false)
  /\ ((forall b, ~ In (Called "Keypair.fromSecretKey" [VBytes b]) (log r)) ->
      out r = Throw INVALID_KEY_FORMAT).
Proof.
  intros Hsdk r of_bytes. subst r of_bytes.
  rewrite (importFromPrivateKey_run W privateKey Hsdk).
  unfold decodeKey, decoding_calls.
  destruct (bs58_decode privateKey) as [e|b] eqn:Hb58.
  - destruct privateKey as [| | | |s|b|fs]; cbn [out log app hd_error hex_decodable].
    all: split; [reflexivity|].
    all: split; [split; [eauto|intros _; right; now left]|].
    all: split; [intros b' Hb'; discriminate|].
    all: split;
      [intros e' s' _ Hs'; try discriminate; inversion Hs'; subst s'|].
    all: try (split; [intros b' Hin|split; [split|]]).
    (* the five values that are neither a string nor a buffer *)
    all: try (destruct Hin as [Hin|[Hin|[]]]; discriminate).
    all: try (intros _; split; [eauto|reflexivity]).
    all: try (intros _ b' [Hin|[Hin|[]]]; discriminate).
    all: try (intros _; reflexivity).
    + (* a string: its hex bytes go to the key pair *)
      split; [reflexivity|]. split; [reflexivity|]. split.
      * intros sk ->. now rewrite fromHex_toHex.
      * intros Hlen. rewrite bad_secret_key_size; [reflexivity|].
        pose proof (length_fromHex s). lia.
    + destruct Hin as [Hin|[Hin|[Hin|[]]]]; try discriminate.
      inversion Hin; subst b'. split; [reflexivity|].
      intros Hlen. now rewrite bad_secret_key_size.
    + intros Hno. exfalso. apply (Hno (fromHex s)). right. right. now left.
    + intros [_ Hno]. discriminate.
    + intros Hno. exfalso. apply (Hno (fromHex s)). right. right. now left.
    + destruct Hin as [Hin|[Hin|[Hin|[]]]]; try discriminate.
      inversion Hin; subst b'. split; [reflexivity|].
      intros Hlen. now rewrite bad_secret_key_size.
    + intros Hno. exfalso. apply (Hno b). right. right. now left.
    + intros [_ Hno]. discriminate.
    + intros Hno. exfalso. apply (Hno b). right. right. now left.
  - cbn [out log app hd_error].
    split; [reflexivity|].
    split.
    { split; [intros [Hin|[Hin|[]]]; discriminate|intros [e He]; discriminate]. }
    split.
    { intros b' Hb'. inversion Hb'; subst b'. split; reflexivity. }
    split; [intros e s He; discriminate|].
    split.
    { intros b' [Hin|[Hin|[]]]; [discriminate|]. inversion Hin; subst b'.
      split; [reflexivity|]. intros Hlen. now rewrite bad_secret_key_size. }
    split.
    { split.
      - intros Hno. exfalso. apply (Hno b). right. now left.
      - intros [[e He] _]. discriminate. }
    intros Hno. exfalso. apply (Hno b). right. now left.
Qed.

End Constructors.

(** ** The program logic *)

Section Logic.

Context {A B : Type} (ui : option bool) (E : event -> Prop).

Lemma sat_ret (a : A) (Q : A -> Prop) : Q a -> sat ui (ret a) E Q.
Proof.
  intros Ha W HW. cbn. split; [exact HW|]. split; [constructor|].
  intros b Hb. inversion Hb; subst. exact Ha.
Qed.

Lemma sat_throw (e : exn) (Q : A -> Prop) : sat ui (throw e) E Q.
Proof.
  intros W HW. cbn. split; [exact HW|]. split; [constructor|discriminate].
Qed.

Lemma sat_bind (m : M A) (f : A -> M B) (P : A -> Prop) (Q : B -> Prop) :
  sat ui m E P -> (forall a, P a -> sat ui (f a) E Q) -> sat ui (bind m f) E Q.
Proof.
  intros Hm Hf W HW. destruct (Hm W HW) as (HW1 & Hlog & Hout).
  unfold bind. destruct (m W) as [[a|e|] W1 l1]; cbn [out world log] in *.
  - destruct (Hf a (Hout a eq_refl) W1 HW1) as (HW2 & Hlog2 & Hout2).
    destruct (f a W1) as [o W2 l2]; cbn [out world log] in *.
    split; [exact HW2|]. split; [now apply Forall_app|exact Hout2].
  - split; [exact HW1|]. split; [exact Hlog|discriminate].
  - split; [exact HW1|]. split; [exact Hlog|discriminate].
Qed.

Lemma sat_try (m : M A) (h : exn -> M A) (Q : A -> Prop) :
  sat ui m E Q -> (forall e, sat ui (h e) E Q) -> sat ui (try m h) E Q.
Proof.
  intros Hm Hh W HW. destruct (Hm W HW) as (HW1 & Hlog & Hout).
  unfold try. destruct (m W) as [[a|e|] W1 l1]; cbn [out world log] in *.
  - split; [exact HW1|]. split; [exact Hlog|exact Hout].
  - destruct (Hh e W1 HW1) as (HW2 & Hlog2 & Hout2).
    destruct (h e W1) as [o W2 l2]; cbn [out world log] in *.
    split; [exact HW2|]. split; [now apply Forall_app|exact Hout2].
  - split; [exact HW1|]. split; [exact Hlog|discriminate].
Qed.

Lemma sat_weaken (m : M A) (E' : event -> Prop) (P Q : A -> Prop) :
  sat ui m E' P -> (forall e, E' e -> E e) -> (forall a, P a -> Q a) ->
  sat ui m E Q.
Proof.
  intros Hm HE HQ W HW. destruct (Hm W HW) as (HW1 & Hlog & Hout).
  repeat split; auto. eapply Forall_impl; eauto.
Qed.

End Logic.

Section Primitives.

Context (ui : option bool) (E : event -> Prop).

Lemma ui_is_same (W W' : World) :
  inquirer W' = inquirer W -> ui_is ui W -> ui_is ui W'.
Proof. unfold ui_is. destruct ui; [congruence|trivial]. Qed.

Lemma sat_value {A} (a : A) : sat ui (ret a) E anything.
Proof. now apply sat_ret. Qed.

Lemma sat_emit (e : event) : E e -> sat ui (emit e) E anything.
Proof.
  intros He W HW. cbn. split; [exact HW|]. split; [now constructor|].
  intros; exact I.
Qed.

Lemma sat_gets {A} (f : World -> A) : sat ui (gets f) E anything.
Proof.
  intros W HW. cbn. split; [exact HW|]. split; [constructor|]. intros; exact I.
Qed.

Lemma sat_clock : sat ui (gets clock) E anything.
Proof. apply sat_gets. Qed.

Lemma sat_modify (f : World -> World) :
  (forall W, inquirer (f W) = inquirer W) -> sat ui (modify f) E anything.
Proof.
  intros Hf W HW. cbn. split; [now apply (ui_is_same W)|].
  split; [constructor|]. intros; exact I.
Qed.

Lemma sat_require (name : string) : sat ui (require name) E anything.
Proof.
  intros W HW. unfold require.
  destruct (installed W name); cbn;
    (split; [exact HW|]); (split; [constructor|]); intros; exact I.
Qed.

Lemma sat_spinner_start : sat ui spinner_start E anything.
Proof.
  intros W HW. unfold spinner_start.
  destruct (ora W); cbn;
    (split; [exact HW|]); (split; [constructor|]); intros; exact I.
Qed.

Lemma sat_lift {A} (r : exn + A) (Q : A -> Prop) :
  (forall a, r = inr a -> Q a) -> sat ui (lift r) E Q.
Proof.
  intros HQ. destruct r as [e|a]; [apply sat_throw|apply sat_ret; auto].
Qed.

Lemma sat_randomBytes (n : nat) :
  E (Called "crypto.randomBytes" [VNum (N.of_nat n)]) ->
  sat ui (randomBytes n) E anything.
Proof.
  intros He W HW. unfold randomBytes. cbn [out world log].
  split; [now apply (ui_is_same W)|]. split; [now constructor|].
  intros; exact I.
Qed.

Lemma sat_ensureDir (dir : string) : sat ui (ensureDir dir) E anything.
Proof. now apply sat_ret. Qed.

Lemma sat_writeFile (path : string) (doc : jsval) :
  E (Wrote path (json doc)) -> sat ui (writeFile path doc) E anything.
Proof.
  intros He. unfold writeFile. eapply sat_bind; [now apply sat_emit|].
  intros _ _. now apply sat_modify.
Qed.

Lemma inquire_reading (q : question) (entries rest : list jsstring) (v : jsval) :
  inquire q entries = Some (v, rest) -> exists entry, inquirer_reading q entry = Some v.
Proof.
  induction entries as [|e entries IH]; cbn; [discriminate|].
  destruct (inquirer_reading q e) as [v'|] eqn:Er.
  - intros H. inversion H; subst. eauto.
  - exact IH.
Qed.

(** A single question: never answered, or answered once. *)
Lemma prompt_run (q : question) (W : World) :
  ui_is ui W ->
  let r := prompt [q] W in
  ui_is ui (world r)
  /\ ((out r = Halt /\ log r = [])
      \/ exists v, out r = Return (VObj [(qname q, v)])
                   /\ log r = [Asked (qname q) v] /\ answer_of ui q v).
Proof.
  intros HW r. subst r. unfold prompt. destruct (inquirer W) eqn:Hi.
  - assert (Hans : forall v, (exists entry, inquirer_reading q entry = Some v) ->
                             answer_of ui q v).
    { intros v Hv. unfold answer_of. destruct ui as [[|]|]; cbn in HW; auto; congruence. }
    cbn [inquirer_prompt]. unfold bind, inquirer_ask, ret.
    destruct (inquire q (stdin W)) as [[v rest]|] eqn:Eq; cbn [out world log app].
    + split; [now apply (ui_is_same W)|]. right. exists v.
      split; [reflexivity|]. split; [reflexivity|].
      apply Hans. eapply inquire_reading; eauto.
    + split; [now apply (ui_is_same W)|]. now left.
  - assert (Hans : forall input, answer_of ui q (readline_answer q input)).
    { intros input. unfold answer_of. destruct ui as [[|]|]; cbn in HW; eauto; congruence. }
    cbn [readline_prompt]. unfold bind, read_line, emit, ret.
    destruct (stdin W) as [|input rest]; cbn [out world log app].
    + split; [exact HW|]. now left.
    + split; [now apply (ui_is_same W)|]. right. eexists.
      split; [reflexivity|]. split; [reflexivity|]. apply Hans.
Qed.

Lemma sat_prompt (q : question) :
  (forall v, answer_of ui q v -> E (Asked (qname q) v)) ->
  sat ui (prompt [q]) E
      (fun answers => exists v, answers = VObj [(qname q, v)] /\ answer_of ui q v).
Proof.
  intros HE W HW.
  destruct (prompt_run q W HW) as (HW1 & [[Ho Hl]|(v & Ho & Hl & Hv)]).
  - split; [exact HW1|]. rewrite Ho, Hl. split; [constructor|discriminate].
  - split; [exact HW1|]. rewrite Ho, Hl. split; [repeat constructor; auto|].
    intros a Ha. inversion Ha; subst. eauto.
Qed.

End Primitives.

(** ** The parts of the wallet step *)

Lemma strict_eq_str (a : jsval) (s : jsstring) :
  strict_eq a (VStr s) = true -> a = VStr s.
Proof.
  destruct a; cbn; try discriminate. intros H. apply jsstring_eqb_eq in H. now subst.
Qed.

Section WalletStep.

Context {crypto : CryptoLib} {solana : SolanaLib}.
Context (ui : option bool).

Lemma encryptKey_expected (key : jsstring) (password : jsval) :
  (ui = Some true -> exists s, password = VStr s /\ 8 <= length s) ->
  sat ui (encryptKey key password) (expected ui false) encrypted_form.
Proof.
  intros Hpw.
  assert (Hcall : forall fn args, fn <> "encryptKey" -> expected ui false (Called fn args)).
  { intros fn args Hfn. split; [reflexivity|]. intros; contradiction. }
  unfold encryptKey.
  eapply sat_bind.
  { apply sat_emit. split; [reflexivity|]. intros _ Hui.
    destruct (Hpw Hui) as (s & -> & Hs). now exists key, s. }
  intros _ _. eapply sat_bind; [apply sat_randomBytes, Hcall; discriminate|].
  intros salt _. eapply sat_bind; [apply sat_randomBytes, Hcall; discriminate|].
  intros iv _. eapply sat_bind.
  { unfold pbkdf2Sync. eapply sat_bind; [apply sat_emit, Hcall; discriminate|].
    intros _ _. instantiate (1 := anything).
    destruct password; first [apply sat_throw | apply sat_value]. }
  intros derivedKey _. eapply sat_bind; [apply sat_emit, Hcall; discriminate|].
  intros _ _. eapply sat_bind; [apply sat_lift; intros; exact I|].
  intros c _.
  destruct (cipher_update c (utf8_encode key)) as [c1 out1].
  destruct (cipher_final c1) as [c2 out2].
  apply sat_ret. do 4 eexists. split; [reflexivity|].
  rewrite is_hex_app, !is_hex_toHex. auto.
Qed.

Lemma text_answer (type name : string) (check : option (jsval -> bool)) (v : jsval) :
  String.eqb type "confirm" = false -> String.eqb type "list" = false ->
  String.eqb type "select" = false ->
  answer_of ui (text_question type name check) v ->
  v = VUndefined \/ exists s, v = VStr s.
Proof.
  intros Hc Hl Hs Hv.
  assert (Hr : forall input, readline_answer (text_question type name check) input = v ->
                             v = VUndefined \/ exists s, v = VStr s).
  { intros input <-. unfold readline_answer. cbn [qtype text_question default].
    rewrite Hc, Hl, Hs. cbn [orb]. unfold js_or. destruct (truthy (VStr input)); eauto. }
  assert (Hi : forall entry, inquirer_reading (text_question type name check) entry = Some v ->
                             v = VUndefined \/ exists s, v = VStr s).
  { intros entry. unfold inquirer_reading. cbn [qtype text_question default validate].
    rewrite Hc, Hl.
    assert (Hval : match entry with [] | _ => VStr entry end = VStr entry)
      by now destruct entry.
    rewrite Hval. destruct check as [f|].
    - destruct (f (VStr entry)); [|discriminate]. intros E. inversion E. eauto.
    - intros E. inversion E. eauto. }
  unfold answer_of in Hv. destruct ui as [[|]|].
  - destruct Hv as [entry Hv]. eauto.
  - destruct Hv as [input Hv]. eauto.
  - destruct Hv as [[entry Hv]|[input Hv]]; eauto.
Qed.

Lemma password_answer (v : jsval) :
  ui = Some true ->
  answer_of ui (text_question "password" "password"
                  (Some (fun input => (8 <=? js_length input)%nat))) v ->
  exists s, v = VStr s /\ 8 <= length s.
Proof.
  intros -> [entry Hv]. unfold inquirer_reading in Hv.
  cbn [qtype text_question default validate] in Hv.
  change (String.eqb "password" "confirm") with false in Hv.
  change (String.eqb "password" "list") with false in Hv. cbn iota in Hv.
  assert (Hval : match entry with [] | _ => VStr entry end = VStr entry)
    by now destruct entry.
  rewrite Hval in Hv. cbn [js_length] in Hv.
  destruct (8 <=? length entry)%nat eqn:Hlen; [|discriminate].
  inversion Hv. exists entry. split; [reflexivity|]. now apply Nat.leb_le.
Qed.

Lemma secureWallet_expected (hw : bool) (wd : jsval) :
  wallet_ok hw wd ->
  sat ui (secureWallet wd) (expected ui hw)
      (fun ed => (ed = VNull \/ encrypted_form ed) /\ (hw = true -> ed = VNull)).
Proof.
  intros (_ & _ & _ & Hraw & Hhw). unfold secureWallet.
  destruct Hraw as [Hraw|[b Hraw]]; rewrite Hraw; cbn [truthy].
  { apply sat_ret. auto. }
  destruct hw.
  { destruct (Hhw eq_refl) as [Hu _]. congruence. }
  eapply sat_bind.
  { apply sat_prompt. intros v Hv. split; [reflexivity|discriminate]. }
  cbn beta. intros answers (v & -> & Hv).
  eapply sat_bind.
  { apply sat_prompt. intros v' Hv'. split; [reflexivity|discriminate]. }
  intros _ _. eapply sat_bind; [apply sat_spinner_start|].
  intros _ _. eapply sat_bind; [apply sat_value|].
  intros raw _.
  eapply sat_weaken.
  - apply encryptKey_expected. intros Hui.
    change (get (VObj [(qname (text_question "password" "password"
                 (Some (fun input => (8 <=? js_length input)%nat))), v)]) "password")
      with v.
    now apply password_answer.
  - auto.
  - intros ed Hed. split; [now right|discriminate].
Qed.

Lemma not_hardware (a : jsval) (s : string) :
  strict_eq a (VStr (js s)) = true ->
  jsstring_eqb (js s) (js "hardware") = false ->
  is_hardware a = false.
Proof.
  intros Ha Hne. apply strict_eq_str in Ha. subst a. exact Hne.
Qed.

Lemma keystore_written (hw : bool) (wd ed : jsval) (now : jsstring) :
  wallet_ok hw wd ->
  (ed = VNull \/ encrypted_form ed) ->
  (hw = true -> ed = VNull) ->
  let doc := json (VObj [("publicKey", get wd "publicKey");
                         ("network", js_or (get wd "network") (VStr (js "devnet")));
                         ("createdAt", VStr now);
                         ("type", js_or (get wd "type") (VStr (js "local")));
                         ("encryptedKey", ed)]) in
  keystore_ok doc = true
  /\ (hw = true ->
      get doc "encryptedKey" = VNull /\ get doc "type" = VStr (js "hardware")).
Proof.
  intros (Hpk & (n & Hn) & (t & Ht & Htype) & _ & Hhw) Hed Hnull doc.
  assert (Htype' : hw = true -> t = js "hardware").
  { intros H. destruct (Hhw H) as [_ E]. rewrite E in Ht.
    change (js_or (VStr (js "hardware")) (VStr (js "local")))
      with (VStr (js "hardware")) in Ht.
    now inversion Ht. }
  subst doc. rewrite Hn, Ht.
  destruct Hed as [->|(e & s & i & x & -> & He & Hs & Hi & Hx)];
    destruct Hpk as [->|[pk ->]]; cbn [json]; split.
  - unfold keystore_ok. cbn -[wallet_type]. now rewrite Htype.
  - intros H. rewrite (Htype' H). split; reflexivity.
  - unfold keystore_ok. cbn -[wallet_type]. now rewrite Htype.
  - intros H. rewrite (Htype' H). split; reflexivity.
  - unfold keystore_ok, hex_field. cbn -[wallet_type is_hex].
    now rewrite Htype, He, Hs, Hi, Hx.
  - intros H. specialize (Hnull H). discriminate.
  - unfold keystore_ok, hex_field. cbn -[wallet_type is_hex].
    now rewrite Htype, He, Hs, Hi, Hx.
  - intros H. specialize (Hnull H). discriminate.
Qed.

Lemma saveWallet_expected (a wd ed : jsval) :
  wallet_ok (is_hardware a) wd ->
  (ed = VNull \/ encrypted_form ed) ->
  (is_hardware a = true -> ed = VNull) ->
  sat ui (saveWallet a wd ed) (expected ui (is_hardware a)) anything.
Proof.
  intros Hwd Hed Hnull. unfold saveWallet.
  assert (Hcfg : forall doc, expected ui (is_hardware a) (Wrote CONFIG_FILE doc)).
  { intros doc H. vm_compute in H. discriminate. }
  assert (Hsave : sat ui saveConfig (expected ui (is_hardware a)) anything).
  { unfold saveConfig. eapply sat_bind; [apply sat_ensureDir|].
    intros _ _. eapply sat_bind; [apply sat_gets|].
    intros cfg _. apply sat_writeFile, Hcfg. }
  eapply sat_bind; [apply sat_ensureDir|].
  intros _ _. eapply sat_bind; [apply sat_clock|].
  intros now _. eapply sat_bind.
  { apply sat_writeFile. intros _. now apply keystore_written. }
  intros _ _. eapply sat_bind; [now apply sat_modify|].
  intros _ _. eapply sat_bind; [exact Hsave|].
  intros _ _. eapply sat_bind.
  { instantiate (1 := anything).
    destruct (strict_eq a (VStr (js "create"))) eqn:Hc.
    - apply sat_emit. cbn. eapply not_hardware; [exact Hc|reflexivity].
    - apply sat_value. }
  intros _ _. eapply sat_bind.
  { apply sat_prompt. intros v Hv. split; [reflexivity|reflexivity]. }
  intros answers _. eapply sat_bind; [now apply sat_modify|].
  intros _ _. exact Hsave.
Qed.

Lemma requires_expected (names : M unit) (hw : bool) :
  sat ui names (expected ui hw) anything ->
  sat ui (try names (fun _ => throw SDK_REQUIRED)) (expected ui hw) anything.
Proof. intros H. apply sat_try; [exact H|]. intros e. apply sat_throw. Qed.

Lemma called_expected (fn : string) (args : list jsval) :
  fn <> "encryptKey" -> expected ui false (Called fn args).
Proof. intros Hfn. split; [reflexivity|]. intros; contradiction. Qed.

Lemma keypairOfPhrase_expected (phrase : jsval) :
  sat ui (keypairOfPhrase phrase) (expected ui false) anything.
Proof.
  unfold keypairOfPhrase.
  eapply sat_bind; [apply sat_emit, called_expected; discriminate|].
  intros _ _. eapply sat_bind; [apply sat_emit, called_expected; discriminate|].
  intros _ _. eapply sat_bind; [apply sat_emit, called_expected; discriminate|].
  intros _ _. apply sat_lift. intros; exact I.
Qed.

Lemma secret_wallet_ok (fields : list (string * jsval)) (pk t : jsstring) (sk : bytes) :
  get (VObj fields) "publicKey" = VStr pk ->
  get (VObj fields) "network" = VStr (js "devnet") ->
  get (VObj fields) "type" = VStr t ->
  wallet_type (VStr t) = true ->
  get (VObj fields) "rawSecretKey" = VBytes sk ->
  wallet_ok false (VObj fields).
Proof.
  intros Hpk Hn Ht Htype Hsk. unfold wallet_ok. rewrite Hpk, Hn, Ht, Hsk.
  split; [eauto|]. split; [eexists; reflexivity|].
  split.
  - exists t. split; [|exact Htype]. unfold js_or.
    destruct t; [discriminate Htype|reflexivity].
  - split; [eauto|discriminate].
Qed.

Lemma generateNewWallet_expected :
  sat ui generateNewWallet (expected ui false) (wallet_ok false).
Proof.
  unfold generateNewWallet.
  eapply sat_bind.
  { apply requires_expected.
    repeat (eapply sat_bind; [apply sat_require|]; intros _ _). apply sat_require. }
  intros _ _. eapply sat_bind.
  { unfold generateMnemonic.
    eapply sat_bind; [apply sat_emit, called_expected; discriminate|].
    intros _ _. eapply sat_bind; [apply sat_randomBytes, called_expected; discriminate|].
    intros e _. apply sat_value. }
  intros seedPhrase _. eapply sat_bind; [apply keypairOfPhrase_expected|].
  intros kp _. apply sat_ret.
  eapply secret_wallet_ok; reflexivity.
Qed.

Lemma importFromPrivateKey_expected (privateKey : jsval) :
  sat ui (importFromPrivateKey privateKey) (expected ui false) (wallet_ok false).
Proof.
  unfold importFromPrivateKey.
  eapply sat_bind.
  { apply requires_expected. eapply sat_bind; [apply sat_require|].
    intros _ _. apply sat_require. }
  intros _ _. eapply sat_bind.
  { instantiate (1 := anything). apply sat_try.
    - eapply sat_bind; [apply sat_emit, called_expected; discriminate|].
      intros _ _. apply sat_lift. intros; exact I.
    - intros _. apply sat_try.
      + eapply sat_bind; [apply sat_emit, called_expected; discriminate|].
        intros _ _. destruct privateKey; first [apply sat_throw | apply sat_value].
      + intros _. apply sat_throw. }
  intros sk _. eapply sat_bind; [apply sat_emit, called_expected; discriminate|].
  intros _ _. eapply sat_bind; [apply sat_lift; intros; exact I|].
  intros kp _. apply sat_ret.
  eapply secret_wallet_ok; reflexivity.
Qed.

Lemma importFromSeedPhrase_expected (seedPhrase : jsval) :
  sat ui (importFromSeedPhrase seedPhrase) (expected ui false) (wallet_ok false).
Proof.
  unfold importFromSeedPhrase.
  eapply sat_bind.
  { apply requires_expected.
    repeat (eapply sat_bind; [apply sat_require|]; intros _ _). apply sat_require. }
  intros _ _. eapply sat_bind; [apply sat_emit, called_expected; discriminate|].
  intros _ _. destruct (negb (validateMnemonic seedPhrase)); [apply sat_throw|].
  eapply sat_bind; [apply keypairOfPhrase_expected|].
  intros kp _. apply sat_ret.
  eapply secret_wallet_ok; reflexivity.
Qed.

Lemma connectHardwareWallet_expected :
  sat ui connectHardwareWallet (expected ui true) (wallet_ok true).
Proof.
  unfold connectHardwareWallet.
  eapply sat_bind.
  { apply sat_prompt. intros v Hv. split; [reflexivity|]. intros _. reflexivity. }
  cbn beta. intros answers (v & -> & Hv). apply sat_ret.
  change (get (VObj [(qname _, v)]) "publicKey") with v.
  apply (text_answer "input" "publicKey") in Hv; try reflexivity.
  unfold wallet_ok. cbn [get lookup String.eqb Ascii.eqb Bool.eqb].
  split; [exact Hv|]. split; [eexists; reflexivity|].
  split; [eexists; split; reflexivity|]. split; [now left|]. now split.
Qed.

Lemma walletFor_expected (a : jsval) :
  sat ui (walletFor a) (expected ui (is_hardware a)) (wallet_ok (is_hardware a)).
Proof.
  unfold walletFor.
  destruct (strict_eq a (VStr (js "create"))) eqn:Hcreate.
  { rewrite (not_hardware a "create" Hcreate) by reflexivity.
    apply generateNewWallet_expected. }
  destruct (strict_eq a (VStr (js "import-key"))) eqn:Hkey.
  { rewrite (not_hardware a "import-key" Hkey) by reflexivity.
    eapply sat_bind.
    { apply sat_prompt. intros v Hv. split; [reflexivity|discriminate]. }
    intros answers _. eapply sat_bind; [apply importFromPrivateKey_expected|].
    intros wd Hwd. eapply sat_bind; [apply sat_spinner_start|].
    intros _ _. now apply sat_ret. }
  destruct (strict_eq a (VStr (js "import-seed"))) eqn:Hseed.
  { rewrite (not_hardware a "import-seed" Hseed) by reflexivity.
    eapply sat_bind.
    { apply sat_prompt. intros v Hv. split; [reflexivity|discriminate]. }
    intros answers _. eapply sat_bind; [apply importFromSeedPhrase_expected|].
    intros wd Hwd. eapply sat_bind; [apply sat_spinner_start|].
    intros _ _. now apply sat_ret. }
  unfold is_hardware.
  destruct (strict_eq a (VStr (js "hardware"))) eqn:Hhw.
  { apply connectHardwareWallet_expected. }
  apply sat_ret. unfold wallet_ok. cbn.
  split; [now left|]. split; [eexists; reflexivity|].
  split; [eexists; split; reflexivity|]. split; [now left|discriminate].
Qed.

(** Lines 848-973: the [try] block and its [catch]. *)
Lemma configure_expected (a : jsval) :
  sat ui
    (try (walletData <- walletFor a ;;
          encryptedData <- secureWallet walletData ;;
          saveWallet a walletData encryptedData)
         (fun error => emit (Reported ("Wallet setup failed: " ++ error)%string)))
    (expected ui (is_hardware a)) anything.
Proof.
  apply sat_try.
  - eapply sat_bind; [apply walletFor_expected|].
    intros wd Hwd. eapply sat_bind; [now apply secureWallet_expected|].
    cbn beta. intros ed [Hed Hnull]. now apply saveWallet_expected.
  - intros e. now apply sat_emit.
Qed.

(** The events of the whole step: questions about an existing wallet, then
    nothing more, or the choice of [walletAction] and what it leads to. *)
Lemma stepWalletSetup_events (W : World) :
  ui_is ui W ->
  exists pre post,
    log (stepWalletSetup W) = pre ++ post
    /\ Forall (fun e => exists v, e = Asked "manageWallet" v) pre
    /\ (post = []
        \/ exists a rest,
             post = Asked "walletAction" a :: rest
             /\ Forall (expected ui (is_hardware a)) rest).
Proof.
  intros HW. unfold stepWalletSetup.
  rewrite log_bind. cbn [gets out world log app].
  rewrite log_bind.
  match goal with
  | |- context [log (?m W) ++ _] => set (pre := m)
  end.
  assert (Hpre : sat ui pre (fun e => exists v, e = Asked "manageWallet" v) anything).
  { subst pre. destruct (truthy (get (config W) "wallet")).
    - eapply sat_bind; [apply sat_prompt; eauto|]. intros; apply sat_value.
    - apply sat_value. }
  destruct (Hpre W HW) as (HW1 & Hlog & _).
  exists (log (pre W)). eexists. split; [reflexivity|]. split; [exact Hlog|].
  destruct (out (pre W)) as [[|]| |]; auto.
  rewrite log_bind.
  match goal with
  | |- context [prompt [?q] (world (pre W))] =>
      destruct (prompt_run ui q (world (pre W)) HW1) as (HW2 & [[Ho Hl]|(a & Ho & Hl & _)])
  end.
  - rewrite Ho, Hl. now left.
  - rewrite Ho, Hl. right. exists a. eexists. split; [reflexivity|].
    cbn [qname list_question get lookup String.eqb Ascii.eqb Bool.eqb].
    destruct (strict_eq a (VStr (js "skip"))); [constructor|].
    match goal with
    | |- Forall _ (log (?m ?w)) =>
        assert (Hm : sat ui m (expected ui (is_hardware a)) anything)
    end.
    { eapply sat_bind; [apply configure_expected|].
      intros _ _. eapply sat_bind.
      - apply sat_prompt. intros v Hv. split; [reflexivity|]. intros _. reflexivity.
      - intros; apply sat_value. }
    now destruct (Hm _ HW2) as (_ & Hlog2 & _).
Qed.

End WalletStep.

(** ** The wallet step as a whole *)


Section WalletStepClaims.

Context {crypto : CryptoLib} {solana : SolanaLib}.

Lemma connectHardwareWallet_returns (W : World) (wallet : jsval) :
  out (connectHardwareWallet W) = Return wallet ->
  exists publicKey,
    wallet = VObj [("publicKey", publicKey); ("type", VStr (js "hardware"));
                   ("network", VStr (js "devnet")); ("encryptedKey", VNull)].
Proof.
  unfold connectHardwareWallet.
  match goal with
  | |- context [prompt [?q]] =>
      destruct (prompt_run None q W I) as (_ & [[Ho Hl]|(v & Ho & Hl & _)])
  end.
  - unfold bind. destruct (prompt _ W) as [o W1 l1]. cbn in Ho. subst o. discriminate.
  - unfold bind. destruct (prompt _ W) as [o W1 l1]. cbn in Ho. subst o.
    cbn. intros E. inversion E. eauto.
Qed.

(** C8: a hardware wallet has type 'hardware' and no [rawSecretKey]; and a
    step in which 'hardware' was chosen asks for no password, calls neither
    [encryptKey] nor anything else, and writes a keystore record whose
    [encryptedKey] is [null]. *)
Theorem hardware_wallet_skips_encryption (W : World) :
  (forall wallet, out (connectHardwareWallet W) = Return wallet ->
     get wallet "type" = VStr (js "hardware")
     /\ get wallet "rawSecretKey" = VUndefined
     /\ ~ In "rawSecretKey" (keys wallet))
  /\ (In (Asked "walletAction" (VStr (js "hardware"))) (log (stepWalletSetup W)) ->
      Forall hardware_event (log (stepWalletSetup W))).
Proof.
  split.
  { intros wallet Hw. apply connectHardwareWallet_returns in Hw as [pk ->].
    split; [reflexivity|]. split; [reflexivity|].
    cbn. intros [H|[H|[H|[H|[]]]]]; discriminate. }
  intros Hin.
  destruct (stepWalletSetup_events None W I) as (pre & post & Hlog & Hpre & Hpost).
  rewrite Hlog in *. apply Forall_app. split.
  { eapply Forall_impl; [|exact Hpre]. intros e [v ->]. reflexivity. }
  apply in_app_or in Hin as [Hin|Hin].
  { rewrite Forall_forall in Hpre. destruct (Hpre _ Hin) as [v Hv]. discriminate. }
  destruct Hpost as [->|(a & rest & -> & Hrest)]; [contradiction|].
  assert (Ha : a = VStr (js "hardware")).
  { destruct Hin as [Hin|Hin]; [now inversion Hin|].
    rewrite Forall_forall in Hrest. destruct (Hrest _ Hin) as [Hstep _]. discriminate. }
  subst a. constructor; [reflexivity|].
  eapply Forall_impl; [|exact Hrest].
  intros [n v|fn args|p doc|t|m]; cbn.
  - intros [_ H]. now apply H.
  - intros [H _]. discriminate.
  - intros H ->. destruct (H (String.eqb_refl _)) as [_ H']. now apply H'.
  - discriminate.
  - trivial.
Qed.

(** X7: with inquirer loaded, every call of [encryptKey] in the wallet step
    gets a password of eight characters or more. *)
Lemma inquirer_enforces_password_length (W : World) (args : list jsval) :
  inquirer W = true ->
  In (Called "encryptKey" args) (log (stepWalletSetup W)) ->
  strong_password args.
Proof.
  intros Hui Hin.
  destruct (stepWalletSetup_events (Some true) W Hui)
    as (pre & post & Hlog & Hpre & Hpost).
  rewrite Hlog in Hin. apply in_app_or in Hin as [Hin|Hin].
  { rewrite Forall_forall in Hpre. destruct (Hpre _ Hin) as [v Hv]. discriminate. }
  destruct Hpost as [->|(a & rest & -> & Hrest)]; [contradiction|].
  destruct Hin as [Hin|Hin]; [discriminate|].
  rewrite Forall_forall in Hrest. destruct (Hrest _ Hin) as [_ H]. now apply H.
Qed.

End WalletStepClaims.

(** ** Worked examples, on the sample implementation *)
Module Examples.
Import Sample SampleFacts.

(** [decrypt_encrypt] on the key 'deadbeef'. *)
Lemma decrypt_encrypt_example :
  is_hex (js "deadbeef") = true
  /\ exists e,
       out (encryptKey (js "deadbeef") (VStr (js "correct-password")) W0) = Return e
       /\ decryptKey e (js "correct-password") = Return (js "deadbeef").
Proof.
  split; [reflexivity|].
  apply (@decrypt_encrypt crypto crypto_laws W0). reflexivity.
Defined.

(** [encryptKey_steps] on the key 'deadbeef'. *)
Lemma encryptKey_steps_example :
  let salt := drawn W0 0 32 in
  let iv := drawn W0 32 16 in
  let derivedKey := pbkdf2 (utf8_encode (js "correct-password")) salt 100000 32 "sha256" in
  let r := encryptKey (js "deadbeef") (VStr (js "correct-password")) W0 in
  length salt = 32 /\ length iv = 16 /\ length derivedKey = 32
  /\ cursor (world r) = 48
  /\ log r = encryptKey_events (js "deadbeef") (VStr (js "correct-password"))
               salt iv derivedKey
  /\ exists c out1 out2 tag,
       createCipheriv "aes-256-gcm" derivedKey iv = inr c
       /\ seal c (utf8_encode (js "deadbeef")) = (out1, out2, tag)
       /\ out r = Return (VObj [("encrypted", VStr (toHex (out1 ++ out2)));
                                ("salt", VStr (toHex salt));
                                ("iv", VStr (toHex iv));
                                ("authTag", VStr (toHex tag))])
       /\ is_hex (toHex (out1 ++ out2)) = true /\ is_hex (toHex salt) = true
       /\ is_hex (toHex iv) = true /\ is_hex (toHex tag) = true.
Proof.
  exact (@encryptKey_steps crypto crypto_laws W0 (js "deadbeef") (js "correct-password")).
Defined.

(** [encryptKey_fresh_draws] on two calls in a row. *)
Lemma encryptKey_fresh_draws_example :
  let r1 := encryptKey (js "deadbeef") (VStr (js "correct-password")) W0 in
  let r2 := encryptKey (js "deadbeef") (VStr (js "correct-password")) (world r1) in
  exists e1 e2,
    out r1 = Return e1 /\ out r2 = Return e2
    /\ get e1 "salt" = VStr (toHex (drawn W0 0 32))
    /\ get e1 "iv" = VStr (toHex (drawn W0 32 16))
    /\ get e2 "salt" = VStr (toHex (drawn W0 48 32))
    /\ get e2 "iv" = VStr (toHex (drawn W0 80 16))
    /\ (get e1 "salt" <> get e2 "salt" <-> drawn W0 0 32 <> drawn W0 48 32)
    /\ (get e1 "iv" <> get e2 "iv" <-> drawn W0 32 16 <> drawn W0 80 16)
    /\ (drawn W0 0 48 = drawn W0 48 48 -> e1 = e2).
Proof.
  exact (@encryptKey_fresh_draws crypto crypto_laws W0 (js "deadbeef")
           (js "correct-password")).
Defined.

(** C4 as stated fails: when the random source repeats itself, two calls
    with the same key and password return the same salt, IV and ciphertext;
    and for the empty key the two ciphertexts are both empty even though the
    salts and IVs differ.  Both hold for every implementation of the crypto
    interface that keeps the laws, not only for the sample. *)
Lemma encryptKey_can_repeat :
  (let W := world0 true (fun _ => x2a) [] in
   let r1 := encryptKey (js "deadbeef") (VStr (js "correct-password")) W in
   let r2 := encryptKey (js "deadbeef") (VStr (js "correct-password")) (world r1) in
   exists e1 e2,
     out r1 = Return e1 /\ out r2 = Return e2
     /\ get e1 "salt" = get e2 "salt" /\ get e1 "iv" = get e2 "iv"
     /\ get e1 "encrypted" = get e2 "encrypted")
  /\ (let r1 := encryptKey [] (VStr (js "correct-password")) W0 in
      let r2 := encryptKey [] (VStr (js "correct-password")) (world r1) in
      exists e1 e2,
        out r1 = Return e1 /\ out r2 = Return e2
        /\ get e1 "salt" <> get e2 "salt" /\ get e1 "iv" <> get e2 "iv"
        /\ get e1 "encrypted" = VStr [] /\ get e2 "encrypted" = VStr []).
Proof.
  split.
  - eexists _, _. split; [vm_compute; reflexivity|]. split; [vm_compute; reflexivity|].
    repeat split; vm_compute; reflexivity.
  - eexists _, _. split; [vm_compute; reflexivity|]. split; [vm_compute; reflexivity|].
    repeat split; vm_compute; try reflexivity; discriminate.
Qed.

(** [import_key_decoding] on the text 'not-a-key', which is neither base58
    nor hex: the import fails with the key-size error, not with the format
    error; and on the base58 text of the ten bytes '0123456789'. *)
Lemma import_key_decoding_example :
  let privateKey := VStr (js "not-a-key") in
  let r := importFromPrivateKey privateKey W0 in
  installed W0 "@solana/web3.js" && installed W0 "bs58" = true
  /\ bs58_decode privateKey = inl "Non-base58 character"
  /\ is_hex (js "not-a-key") = false
  /\ log r = [Called "bs58.decode" [privateKey];
              Called "Buffer.from" [privateKey; VStr (js "hex")];
              Called "Keypair.fromSecretKey" [VBytes []]]
  /\ out r = Throw "bad secret key size"
  /\ out r <> Throw INVALID_KEY_FORMAT
  /\ (let ten := VStr (js "3i37NcgooY8f1S") in
      bs58_decode ten = inr (utf8_encode (js "0123456789"))
      /\ out (importFromPrivateKey ten W0) = Throw "bad secret key size").
Proof.
  intros privateKey r.
  assert (Hsdk : installed W0 "@solana/web3.js" && installed W0 "bs58" = true)
    by reflexivity.
  assert (Hb58 : bs58_decode privateKey = inl "Non-base58 character") by reflexivity.
  split; [exact Hsdk|]. split; [exact Hb58|]. split; [reflexivity|].
  destruct (@import_key_decoding solana solana_laws W0 privateKey Hsdk)
    as (_ & _ & _ & Hstring & _).
  destruct (Hstring _ (js "not-a-key") Hb58 eq_refl) as (Hlog & _ & _ & Hshort).
  split; [exact Hlog|].
  assert (Hout : out r = Throw "bad secret key size")
    by (apply Hshort; vm_compute; lia).
  split; [exact Hout|]. split; [rewrite Hout; discriminate|].
  intros ten.
  assert (Hten : bs58_decode ten = inr (utf8_encode (js "0123456789")))
    by reflexivity.
  split; [exact Hten|].
  destruct (@import_key_decoding solana solana_laws W0 ten Hsdk)
    as (_ & _ & Hbytes & _).
  destruct (Hbytes _ Hten) as (_ & Hout').
  rewrite Hout'. reflexivity.
Defined.

(** [invalid_phrase_is_not_derived] on a phrase that does not validate. *)
Lemma invalid_phrase_example :
  let phrase := VStr (js "not a phrase") in
  let r := importFromSeedPhrase phrase W0 in
  validateMnemonic phrase = false
  /\ (sdk_loaded W0 = true ->
        out r = Throw INVALID_SEED_PHRASE
        /\ log r = [Called "bip39.validateMnemonic" [phrase]])
  /\ (exists e, out r = Throw e)
  /\ forallb (fun e => negb (derivation_event e)) (log r) = true.
Proof.
  intros phrase r. split; [reflexivity|].
  apply (@invalid_phrase_is_not_derived solana W0 phrase). reflexivity.
Defined.

(** [import_recovers_created_wallet] on the wallet created in [W0]. *)
Lemma import_recovers_example :
  exists wallet,
    out (generateNewWallet W0) = Return wallet
    /\ sdk_loaded W0 = true
    /\ exists phrase kp imported,
         get wallet "seedPhrase" = VStr phrase
         /\ out (importFromSeedPhrase (VStr phrase) W0) = Return imported
         /\ get imported "publicKey" = get wallet "publicKey"
         /\ get imported "rawSecretKey" = get wallet "rawSecretKey"
         /\ DERIVATION_PATH = "m/44'/501'/0'/0'"
         /\ derivedKeypair (VStr phrase) = inr kp
         /\ (let seed := mnemonicToSeedSync (VStr phrase) in
             let derivedSeed := derivePath "m/44'/501'/0'/0'" (toHex seed) in
             let pipeline :=
               [Called "bip39.mnemonicToSeedSync" [VStr phrase];
                Called "derivePath" [VStr (js "m/44'/501'/0'/0'"); VStr (toHex seed)];
                Called "Keypair.fromSeed" [VBytes (firstn 32 derivedSeed)]] in
             fromSeed (firstn 32 derivedSeed) = inr kp
             /\ filter derivation_event (log (generateNewWallet W0)) = pipeline
             /\ filter derivation_event (log (importFromSeedPhrase (VStr phrase) W0))
                = pipeline)
         /\ get wallet "publicKey" = VStr (toBase58 (publicKey kp))
         /\ get imported "publicKey" = VStr (toBase58 (publicKey kp))
         /\ get wallet "rawSecretKey" = VBytes (secretKey kp)
         /\ get imported "rawSecretKey" = VBytes (secretKey kp).
Proof.
  eexists. split; [vm_compute; reflexivity|]. split; [reflexivity|].
  apply (@import_recovers_created_wallet solana solana_laws W0 W0);
    vm_compute; reflexivity.
Defined.

(** [hardware_wallet_skips_encryption] on a hardware wallet. *)
Lemma hardware_wallet_example :
  In (Asked "walletAction" (VStr (js "hardware"))) (log (stepWalletSetup connecting))
  /\ Forall hardware_event (log (stepWalletSetup connecting))
  /\ keystores (log (stepWalletSetup connecting))
     = [VObj [("publicKey", VStr (js "HWPUBKEY")); ("network", VStr (js "devnet"));
              ("createdAt", VStr (js "2024-01-01T00:00:00.000Z"));
              ("type", VStr (js "hardware")); ("encryptedKey", VNull)]].
Proof.
  assert (Hin : In (Asked "walletAction" (VStr (js "hardware")))
                   (log (stepWalletSetup connecting))) by (vm_compute; pick).
  split; [exact Hin|]. split; [|vm_compute; reflexivity].
  exact (proj2 (@hardware_wallet_skips_encryption crypto solana connecting) Hin).
Defined.

(** C9 fails without inquirer: the readline fallback does not run the
    question's [validate], so the three-character password 'abc' (confirmed
    with something else) reaches [encryptKey] and the keystore is written. *)
Theorem readline_fallback_takes_a_short_password :
  let r := stepWalletSetup
             (world0 false (counting 0) ["create"; "abc"; "zzz"; "devnet"; "y"]) in
  out r = Return tt
  /\ In (Asked "password" (VStr (js "abc"))) (log r)
  /\ In (Asked "confirmPassword" (VStr (js "zzz"))) (log r)
  /\ (exists key, In (Called "encryptKey" [VStr key; VStr (js "abc")]) (log r))
  /\ (exists doc, keystores (log r) = [doc] /\ get doc "encryptedKey" <> VNull).
Proof.
  split; [vm_compute; reflexivity|].
  split; [vm_compute; pick|]. split; [vm_compute; pick|].
  split; [eexists; vm_compute; pick|].
  eexists. split; [vm_compute; reflexivity|]. vm_compute. discriminate.
Qed.

(** [encrypted_length] on the hex text of four raw bytes. *)
Lemma encrypted_length_example :
  exists e c out1 out2 tag,
    out (encryptKey (js "deadbeef") (VStr (js "correct-password")) W0) = Return e
    /\ createCipheriv "aes-256-gcm"
         (pbkdf2 (utf8_encode (js "correct-password")) (drawn W0 0 32) 100000 32 "sha256")
         (drawn W0 32 16) = inr c
    /\ seal c (utf8_encode (js "deadbeef")) = (out1, out2, tag)
    /\ get e "encrypted" = VStr (toHex (out1 ++ out2))
    /\ length (toHex (out1 ++ out2)) = 2 * length (utf8_encode (js "deadbeef"))
    /\ forall raw, js "deadbeef" = toHex raw ->
                   length (toHex (out1 ++ out2)) = 4 * length raw.
Proof.
  exact (@encrypted_length crypto crypto_laws W0 (js "deadbeef") (js "correct-password")).
Defined.

End Examples.

(** * More of the wizard *)

(** ** Invariants *)

Section Holds.

Context {A B : Type} (I : World -> Prop) (E : event -> Prop).

Lemma holds_ret (a : A) (Q : A -> Prop) : Q a -> holds I (ret a) E Q.
Proof.
  intros Ha W HW. cbn. split; [exact HW|]. split; [constructor|].
  intros b Hb. inversion Hb; subst. exact Ha.
Qed.

Lemma holds_throw (e : exn) (Q : A -> Prop) : holds I (throw e) E Q.
Proof.
  intros W HW. cbn. split; [exact HW|]. split; [constructor|discriminate].
Qed.

Lemma holds_bind (m : M A) (f : A -> M B) (P : A -> Prop) (Q : B -> Prop) :
  holds I m E P -> (forall a, P a -> holds I (f a) E Q) -> holds I (bind m f) E Q.
Proof.
  intros Hm Hf W HW. destruct (Hm W HW) as (HW1 & Hlog & Hout).
  unfold bind. destruct (m W) as [[a|e|] W1 l1]; cbn [out world log] in *.
  - destruct (Hf a (Hout a eq_refl) W1 HW1) as (HW2 & Hlog2 & Hout2).
    destruct (f a W1) as [o W2 l2]; cbn [out world log] in *.
    split; [exact HW2|]. split; [now apply Forall_app|exact Hout2].
  - split; [exact HW1|]. split; [exact Hlog|discriminate].
  - split; [exact HW1|]. split; [exact Hlog|discriminate].
Qed.

Lemma holds_try (m : M A) (h : exn -> M A) (Q : A -> Prop) :
  holds I m E Q -> (forall e, holds I (h e) E Q) -> holds I (try m h) E Q.
Proof.
  intros Hm Hh W HW. destruct (Hm W HW) as (HW1 & Hlog & Hout).
  unfold try. destruct (m W) as [[a|e|] W1 l1]; cbn [out world log] in *.
  - split; [exact HW1|]. split; [exact Hlog|exact Hout].
  - destruct (Hh e W1 HW1) as (HW2 & Hlog2 & Hout2).
    destruct (h e W1) as [o W2 l2]; cbn [out world log] in *.
    split; [exact HW2|]. split; [now apply Forall_app|exact Hout2].
  - split; [exact HW1|]. split; [exact Hlog|discriminate].
Qed.

Lemma holds_weaken (m : M A) (E' : event -> Prop) (P Q : A -> Prop) :
  holds I m E' P -> (forall e, E' e -> E e) -> (forall a, P a -> Q a) ->
  holds I m E Q.
Proof.
  intros Hm HE HQ W HW. destruct (Hm W HW) as (HW1 & Hlog & Hout).
  repeat split; auto. eapply Forall_impl; eauto.
Qed.

(** A part that keeps more than [I] asks. *)
Lemma holds_frame (m : M A) (Q : A -> Prop) :
  (forall W, I W ->
     exists I' : World -> Prop,
       I' W /\ holds I' m E Q /\ forall W', I' W' -> I W') ->
  holds I m E Q.
Proof.
  intros H W HW. destruct (H W HW) as (I' & HW' & Hm & Hback).
  destruct (Hm W HW') as (HW1 & Hlog & Hout). auto.
Qed.

End Holds.

Lemma with_stdin_same (W : World) : with_stdin (stdin W) W = W.
Proof. now destruct W. Qed.

(** [prompt] changes nothing but what is left of the input, and its events
    are the answers to its questions. *)
Lemma readline_prompt_frame (questions : list question) (answers : jsval) (W : World) :
  (exists l, world (readline_prompt questions answers W) = with_stdin l W)
  /\ Forall (fun e => exists q v, In q questions /\ e = Asked (qname q) v)
            (log (readline_prompt questions answers W)).
Proof.
  revert answers W. induction questions as [|q rest IH]; intros answers W.
  - cbn. split; [exists (stdin W); now rewrite with_stdin_same|constructor].
  - cbn [readline_prompt]. unfold bind, read_line, emit. cbv beta.
    destruct (stdin W) as [|input more] eqn:Hin.
    + cbn [out world log]. split; [|constructor].
      exists (stdin W). now rewrite with_stdin_same.
    + destruct (IH (set answers (qname q) (readline_answer q input)) (with_stdin more W))
        as [[l Hl] Hlog].
      destruct (readline_prompt rest _ (with_stdin more W)) as [o W2 l2].
      cbn [out world log app] in *. split.
      * exists l. exact Hl.
      * constructor.
        -- exists q, (readline_answer q input). split; [now left|reflexivity].
        -- eapply Forall_impl; [|exact Hlog].
           intros e (q' & v & Hq & ->). exists q', v. split; [now right|reflexivity].
Qed.

Lemma inquirer_prompt_frame (questions : list question) (answers : jsval) (W : World) :
  (exists l, world (inquirer_prompt questions answers W) = with_stdin l W)
  /\ Forall (fun e => exists q v, In q questions /\ e = Asked (qname q) v)
            (log (inquirer_prompt questions answers W)).
Proof.
  revert answers W. induction questions as [|q rest IH]; intros answers W.
  - cbn. split; [exists (stdin W); now rewrite with_stdin_same|constructor].
  - cbn [inquirer_prompt]. unfold bind, inquirer_ask.
    destruct (inquire q (stdin W)) as [[v more]|] eqn:Hin.
    + destruct (IH (set answers (qname q) v) (with_stdin more W)) as [[l Hl] Hlog].
      destruct (inquirer_prompt rest _ (with_stdin more W)) as [o W2 l2].
      cbn [out world log app] in *. split.
      * exists l. exact Hl.
      * constructor.
        -- exists q, v. split; [now left|reflexivity].
        -- eapply Forall_impl; [|exact Hlog].
           intros e (q' & v' & Hq & ->). exists q', v'. split; [now right|reflexivity].
    + cbn. split; [now exists []|constructor].
Qed.

Lemma prompt_frame (questions : list question) (W : World) :
  (exists l, world (prompt questions W) = with_stdin l W)
  /\ Forall (fun e => exists q v, In q questions /\ e = Asked (qname q) v)
            (log (prompt questions W)).
Proof.
  unfold prompt. destruct (inquirer W).
  - apply inquirer_prompt_frame.
  - apply readline_prompt_frame.
Qed.

(** A single question, as an equation on the run. *)
Lemma prompt_cases (q : question) (W : World) :
  (exists l, prompt [q] W = Run Halt (with_stdin l W) [])
  \/ (exists v l,
        prompt [q] W = Run (Return (VObj [(qname q, v)])) (with_stdin l W)
                           [Asked (qname q) v]).
Proof.
  unfold prompt. destruct (inquirer W).
  - cbn [inquirer_prompt]. unfold bind, inquirer_ask, ret.
    destruct (inquire q (stdin W)) as [[v rest]|].
    + right. exists v, rest. reflexivity.
    + left. now exists [].
  - cbn [readline_prompt]. unfold bind, read_line, emit, ret.
    destruct (stdin W) as [|input rest] eqn:Hin.
    + left. exists (stdin W). now rewrite with_stdin_same.
    + right. exists (readline_answer q input), rest. reflexivity.
Qed.

Section HoldsPrimitives.

Context (I : World -> Prop) (E : event -> Prop).

Lemma holds_value {A} (a : A) : holds I (ret a) E anything.
Proof. now apply holds_ret. Qed.

Lemma holds_emit (e : event) : E e -> holds I (emit e) E anything.
Proof.
  intros He W HW. cbn. split; [exact HW|]. split; [now constructor|].
  intros; exact Logic.I.
Qed.

Lemma holds_gets {A} (f : World -> A) : holds I (gets f) E anything.
Proof.
  intros W HW. cbn. split; [exact HW|]. split; [constructor|]. intros; exact Logic.I.
Qed.

Lemma holds_modify (f : World -> World) :
  (forall W, I W -> I (f W)) -> holds I (modify f) E anything.
Proof.
  intros Hf W HW. cbn. split; [now apply Hf|].
  split; [constructor|]. intros; exact Logic.I.
Qed.

Lemma holds_require (name : string) : holds I (require name) E anything.
Proof.
  intros W HW. unfold require.
  destruct (installed W name); cbn;
    (split; [exact HW|]); (split; [constructor|]); intros; exact Logic.I.
Qed.

Lemma holds_spinner_start : holds I spinner_start E anything.
Proof.
  intros W HW. unfold spinner_start.
  destruct (ora W); cbn;
    (split; [exact HW|]); (split; [constructor|]); intros; exact Logic.I.
Qed.

Lemma holds_lift {A} (r : exn + A) (Q : A -> Prop) :
  (forall a, r = inr a -> Q a) -> holds I (lift r) E Q.
Proof.
  intros HQ. destruct r as [e|a]; [apply holds_throw|apply holds_ret; auto].
Qed.

Lemma holds_randomBytes (n : nat) :
  draw_free I ->
  E (Called "crypto.randomBytes" [VNum (N.of_nat n)]) ->
  holds I (randomBytes n) E anything.
Proof.
  intros Hd He W HW. unfold randomBytes. cbn [out world log].
  split; [now apply Hd|]. split; [now constructor|].
  intros; exact Logic.I.
Qed.

Lemma holds_writeFile (path : string) (doc : jsval) :
  (forall W f, I W -> I (with_files f W)) ->
  E (Wrote path (json doc)) -> holds I (writeFile path doc) E anything.
Proof.
  intros Hf He. unfold writeFile. eapply holds_bind; [now apply holds_emit|].
  intros _ _. apply holds_modify. intros W HW. now apply Hf.
Qed.

Lemma holds_prompt (questions : list question) :
  input_free I ->
  (forall q v, In q questions -> E (Asked (qname q) v)) ->
  holds I (prompt questions) E anything.
Proof.
  intros Hi HE W HW. destruct (prompt_frame questions W) as [[l Hl] Hlog].
  rewrite Hl. split; [now apply Hi|]. split; [|intros; exact Logic.I].
  eapply Forall_impl; [|exact Hlog]. intros e (q & v & Hq & ->). now apply HE.
Qed.

End HoldsPrimitives.

(** ** What [JSON.stringify] keeps *)

Lemma json_cons (k : string) (v : jsval) (rest : list (string * jsval)) :
  json (VObj ((k, v) :: rest))
  = match v with
    | VUndefined => json (VObj rest)
    | _ => VObj ((k, json v) :: match json (VObj rest) with
                                | VObj r => r
                                | _ => []
                                end)
    end.
Proof. destruct v; reflexivity. Qed.

Lemma json_obj (fs : list (string * jsval)) : exists r, json (VObj fs) = VObj r.
Proof. cbn. eauto. Qed.

Lemma lookup_absent (k : string) (fs : list (string * jsval)) :
  ~ In k (map fst fs) -> lookup k fs = VUndefined.
Proof.
  induction fs as [|[k' v] fs IH]; cbn; [reflexivity|].
  intros H. destruct (String.eqb k k') eqn:Ek.
  - apply String.eqb_eq in Ek. subst. exfalso. apply H. now left.
  - apply IH. intros Hin. apply H. now right.
Qed.

(** A property that was written reads back as what [JSON.stringify] kept of
    it; one that was [undefined] reads back as [undefined]. *)
Lemma get_json (fs : list (string * jsval)) (k : string) :
  NoDup (map fst fs) -> get (json (VObj fs)) k = json (lookup k fs).
Proof.
  induction fs as [|[k' v] fs IH]; intros Hnd; [reflexivity|].
  inversion Hnd as [|? ? Hnot Hnd']; subst.
  specialize (IH Hnd'). rewrite json_cons.
  destruct (json_obj fs) as [r Hr]. rewrite Hr in *.
  cbn [lookup]. destruct (String.eqb k k') eqn:Ek.
  - apply String.eqb_eq in Ek. subst k'.
    destruct v; cbn [get lookup]; rewrite ?String.eqb_refl; try reflexivity.
    cbn [get] in IH. rewrite IH. now rewrite lookup_absent.
  - destruct v; cbn [get lookup]; rewrite ?Ek; exact IH.
Qed.

(** ** The parts of the wallet step and what they leave alone *)

Lemma keystore_record_network (wd ed : jsval) (now : jsstring) :
  devnet_wallet wd ->
  get (json (keystore_record wd ed now)) "network" = VStr (js "devnet").
Proof.
  intros Hnet. unfold keystore_record. rewrite get_json.
  - cbn [lookup String.eqb Ascii.eqb Bool.eqb]. destruct Hnet as [-> | ->]; reflexivity.
  - cbn. repeat constructor; cbn; intuition discriminate.
Qed.

Lemma keystore_record_null (wd : jsval) (now : jsstring) :
  get (json (keystore_record wd VNull now)) "encryptedKey" = VNull.
Proof.
  unfold keystore_record. rewrite get_json.
  - reflexivity.
  - cbn. repeat constructor; cbn; intuition discriminate.
Qed.

Section WalletParts.

Context {crypto : CryptoLib} {solana : SolanaLib}.
Context (I : World -> Prop).
Hypothesis (Hinput : input_free I) (Hdraw : draw_free I).

Lemma sdk_holds (names : M unit) (E : event -> Prop) :
  holds I names E anything ->
  holds I (try names (fun _ => throw SDK_REQUIRED)) E anything.
Proof. intros H. apply holds_try; [exact H|]. intros e. apply holds_throw. Qed.

Lemma require_four_holds (E : event -> Prop) :
  holds I (try (require "@solana/web3.js" ;; require "bip39" ;;
                require "ed25519-hd-key" ;; require "bs58")
               (fun _ => throw SDK_REQUIRED)) E anything.
Proof.
  apply sdk_holds.
  repeat (eapply holds_bind; [apply holds_require|intros _ _]). apply holds_require.
Qed.

Lemma require_two_holds (E : event -> Prop) :
  holds I (try (require "@solana/web3.js" ;; require "bs58")
               (fun _ => throw SDK_REQUIRED)) E anything.
Proof.
  apply sdk_holds.
  repeat (eapply holds_bind; [apply holds_require|intros _ _]). apply holds_require.
Qed.

Lemma keypairOfPhrase_preparing (phrase : jsval) :
  holds I (keypairOfPhrase phrase) preparing anything.
Proof.
  unfold keypairOfPhrase. cbv zeta.
  repeat (eapply holds_bind; [apply holds_emit; reflexivity|intros _ _]).
  now apply holds_lift.
Qed.

(** A wallet with a secret key, for the devnet. *)
Lemma generateNewWallet_preparing :
  holds I generateNewWallet preparing
        (fun wd => devnet_wallet wd /\ truthy (get wd "rawSecretKey") = true).
Proof.
  unfold generateNewWallet.
  eapply holds_bind; [apply require_four_holds|intros _ _].
  eapply holds_bind.
  { unfold generateMnemonic.
    eapply holds_bind; [apply holds_emit; reflexivity|intros _ _].
    eapply holds_bind; [apply holds_randomBytes; [exact Hdraw|reflexivity]|intros e _].
    apply holds_value. }
  intros seedPhrase _.
  eapply holds_bind; [apply keypairOfPhrase_preparing|intros kp _].
  apply holds_ret. split; [now left|reflexivity].
Qed.

Lemma importFromPrivateKey_preparing (privateKey : jsval) :
  holds I (importFromPrivateKey privateKey) preparing
        (fun wd => devnet_wallet wd /\ truthy (get wd "rawSecretKey") = true).
Proof.
  unfold importFromPrivateKey.
  eapply holds_bind; [apply require_two_holds|intros _ _].
  eapply holds_bind.
  { apply holds_try.
    - eapply holds_bind; [apply holds_emit; reflexivity|intros _ _].
      apply holds_lift. intros; exact Logic.I.
    - intros _. apply holds_try.
      + eapply holds_bind; [apply holds_emit; reflexivity|intros _ _].
        unfold Buffer_from_hex.
        destruct privateKey; first [apply holds_value | apply holds_throw].
      + intros _. apply holds_throw. }
  intros sk _.
  eapply holds_bind; [apply holds_emit; reflexivity|intros _ _].
  eapply holds_bind; [apply holds_lift; intros; exact Logic.I|intros kp _].
  apply holds_ret. split; [now left|reflexivity].
Qed.

Lemma importFromSeedPhrase_preparing (seedPhrase : jsval) :
  holds I (importFromSeedPhrase seedPhrase) preparing
        (fun wd => devnet_wallet wd /\ truthy (get wd "rawSecretKey") = true).
Proof.
  unfold importFromSeedPhrase.
  eapply holds_bind; [apply require_four_holds|intros _ _].
  eapply holds_bind; [apply holds_emit; reflexivity|intros _ _].
  destruct (negb (validateMnemonic seedPhrase)); [apply holds_throw|].
  eapply holds_bind; [apply keypairOfPhrase_preparing|intros kp _].
  apply holds_ret. split; [now left|reflexivity].
Qed.

Lemma connectHardwareWallet_preparing :
  holds I connectHardwareWallet preparing
        (fun wd => devnet_wallet wd /\ get wd "rawSecretKey" = VUndefined).
Proof.
  unfold connectHardwareWallet.
  eapply holds_bind.
  { apply holds_prompt; [exact Hinput|]. intros q v [<-|[]]. reflexivity. }
  intros answers _. apply holds_ret. split; [now left|reflexivity].
Qed.

(** The constructors ask and call packages, never the encryption; what they
    return is for the devnet, with a secret key for the three actions that
    make or import one. *)
Lemma walletFor_preparing (a : jsval) :
  holds I (walletFor a) preparing
        (fun wd => devnet_wallet wd
                   /\ (secret_action a = true -> truthy (get wd "rawSecretKey") = true)).
Proof.
  unfold walletFor, secret_action.
  destruct (strict_eq a (VStr (js "create"))).
  { eapply holds_weaken; [apply generateNewWallet_preparing|auto|].
    intros wd [H1 H2]. auto. }
  destruct (strict_eq a (VStr (js "import-key"))).
  { eapply holds_bind.
    { apply holds_prompt; [exact Hinput|]. intros q v [<-|[]]. reflexivity. }
    intros answers _.
    eapply holds_bind; [apply importFromPrivateKey_preparing|intros wd [H1 H2]].
    eapply holds_bind; [apply holds_spinner_start|intros _ _].
    apply holds_ret. auto. }
  destruct (strict_eq a (VStr (js "import-seed"))).
  { eapply holds_bind.
    { apply holds_prompt; [exact Hinput|]. intros q v [<-|[]]. reflexivity. }
    intros answers _.
    eapply holds_bind; [apply importFromSeedPhrase_preparing|intros wd [H1 H2]].
    eapply holds_bind; [apply holds_spinner_start|intros _ _].
    apply holds_ret. auto. }
  destruct (strict_eq a (VStr (js "hardware"))).
  { eapply holds_weaken; [apply connectHardwareWallet_preparing|auto|].
    intros wd [H1 H2]. split; [exact H1|discriminate]. }
  apply holds_ret. split; [now right|discriminate].
Qed.

Lemma encryptKey_working (key : jsstring) (password : jsval) :
  holds I (encryptKey key password) working anything.
Proof.
  unfold encryptKey. cbv zeta.
  eapply holds_bind; [apply holds_emit; exact Logic.I|intros _ _].
  eapply holds_bind; [apply holds_randomBytes; [exact Hdraw|exact Logic.I]|intros salt _].
  eapply holds_bind; [apply holds_randomBytes; [exact Hdraw|exact Logic.I]|intros iv _].
  eapply holds_bind.
  { unfold pbkdf2Sync.
    eapply holds_bind; [apply holds_emit; exact Logic.I|intros _ _].
    destruct password; first [apply holds_value | apply holds_throw]. }
  intros derivedKey _.
  eapply holds_bind; [apply holds_emit; exact Logic.I|intros _ _].
  eapply holds_bind; [apply holds_lift; intros; exact Logic.I|intros cipher _].
  destruct (cipher_update cipher (utf8_encode key)) as [c1 out1].
  destruct (cipher_final c1) as [c2 out2].
  apply holds_value.
Qed.

(** Protecting the key asks and calls, and writes nothing. *)
Lemma secureWallet_working (wd : jsval) :
  holds I (secureWallet wd) working anything.
Proof.
  unfold secureWallet. destruct (truthy (get wd "rawSecretKey")); [|apply holds_value].
  eapply holds_bind.
  { apply holds_prompt; [exact Hinput|]. intros q v [<-|[]]. reflexivity. }
  intros answers _. cbv zeta.
  eapply holds_bind.
  { apply holds_prompt; [exact Hinput|]. intros q v [<-|[]]. reflexivity. }
  intros _ _.
  eapply holds_bind; [apply holds_spinner_start|intros _ _].
  eapply holds_bind.
  { unfold Buffer_from.
    destruct (get wd "rawSecretKey"); first [apply holds_value | apply holds_throw]. }
  intros raw _. cbv zeta.
  apply encryptKey_working.
Qed.

(** Without ora the spinner cannot be started. *)
Lemma spinner_start_absent (E : event -> Prop) :
  (forall W, I W -> ora W = false) ->
  holds I spinner_start E (fun _ => False).
Proof.
  intros Hora W HW. unfold spinner_start. rewrite (Hora W HW). cbn.
  split; [exact HW|]. split; [constructor|discriminate].
Qed.

(** Without ora nothing is encrypted: a wallet with a secret key stops at
    the spinner, after the password was asked for. *)
Lemma secureWallet_without_ora (wd : jsval) :
  (forall W, I W -> ora W = false) ->
  holds I (secureWallet wd) preparing
        (fun ed => ed = VNull /\ truthy (get wd "rawSecretKey") = false).
Proof.
  intros Hora. unfold secureWallet.
  destruct (truthy (get wd "rawSecretKey")); [|now apply holds_ret].
  eapply holds_bind.
  { apply holds_prompt; [exact Hinput|]. intros q v [<-|[]]. reflexivity. }
  intros answers _. cbv zeta.
  eapply holds_bind.
  { apply holds_prompt; [exact Hinput|]. intros q v [<-|[]]. reflexivity. }
  intros _ _.
  eapply holds_bind; [now apply spinner_start_absent|]. intros _ [].
Qed.

(** Without ora the two imports stop at the spinner as well. *)
Lemma walletFor_without_ora (a : jsval) :
  (forall W, I W -> ora W = false) ->
  holds I (walletFor a) preparing
        (fun wd => strict_eq a (VStr (js "import-key")) = false
                   /\ strict_eq a (VStr (js "import-seed")) = false).
Proof.
  intros Hora. unfold walletFor.
  destruct (strict_eq a (VStr (js "create"))) eqn:Hc.
  { apply strict_eq_str in Hc. subst a.
    eapply holds_weaken; [apply generateNewWallet_preparing|auto|].
    intros wd _. split; reflexivity. }
  destruct (strict_eq a (VStr (js "import-key"))).
  { eapply holds_bind.
    { apply holds_prompt; [exact Hinput|]. intros q v [<-|[]]. reflexivity. }
    intros answers _.
    eapply holds_bind; [apply importFromPrivateKey_preparing|intros wd _].
    eapply holds_bind; [now apply spinner_start_absent|]. intros _ []. }
  destruct (strict_eq a (VStr (js "import-seed"))).
  { eapply holds_bind.
    { apply holds_prompt; [exact Hinput|]. intros q v [<-|[]]. reflexivity. }
    intros answers _.
    eapply holds_bind; [apply importFromSeedPhrase_preparing|intros wd _].
    eapply holds_bind; [now apply spinner_start_absent|]. intros _ []. }
  destruct (strict_eq a (VStr (js "hardware"))).
  { eapply holds_weaken; [apply connectHardwareWallet_preparing|auto|].
    intros wd _. split; reflexivity. }
  apply holds_ret. split; reflexivity.
Qed.

End WalletParts.

Section WalletSaving.

Context {crypto : CryptoLib} {solana : SolanaLib}.
Context (I : World -> Prop) (E : event -> Prop).
Hypothesis (Hinput : input_free I).
Hypothesis (Hconfig : forall W c, I W -> I (with_config c W)).
Hypothesis (Hfiles : forall W f, I W -> I (with_files f W)).

Lemma saveConfig_holds :
  (forall doc, E (Wrote CONFIG_FILE doc)) -> holds I saveConfig E anything.
Proof.
  intros HE. unfold saveConfig, ensureDir.
  eapply holds_bind; [apply holds_value|intros _ _].
  eapply holds_bind; [apply holds_gets|intros cfg _].
  apply holds_writeFile; [exact Hfiles|apply HE].
Qed.

Lemma saveWallet_holds (a wd ed : jsval) :
  (forall now, E (Wrote WALLET_FILE (json (keystore_record wd ed now)))) ->
  (forall doc, E (Wrote CONFIG_FILE doc)) ->
  (forall text, E (Shown text)) ->
  (forall v, E (Asked "network" v)) ->
  holds I (saveWallet a wd ed) E anything.
Proof.
  intros Hkey Hcfg Hshown Hnet. unfold saveWallet, ensureDir.
  eapply holds_bind; [apply holds_value|intros _ _].
  eapply holds_bind; [apply holds_gets|intros now _]. cbv zeta.
  eapply holds_bind; [apply holds_writeFile; [exact Hfiles|apply Hkey]|intros _ _].
  eapply holds_bind; [apply holds_modify; intros W HW; now apply Hconfig|intros _ _].
  eapply holds_bind; [now apply saveConfig_holds|intros _ _].
  eapply holds_bind.
  { destruct (strict_eq a (VStr (js "create"))); [now apply holds_emit|apply holds_value]. }
  intros _ _.
  eapply holds_bind.
  { apply holds_prompt; [exact Hinput|]. intros q v [<-|[]]. apply Hnet. }
  intros answers _. cbv zeta.
  eapply holds_bind; [apply holds_modify; intros W HW; now apply Hconfig|intros _ _].
  now apply saveConfig_holds.
Qed.

End WalletSaving.

Lemma config_is_not_the_keystore : CONFIG_FILE <> WALLET_FILE.
Proof. discriminate. Qed.

Lemma preparing_trail (o : bool) (e : event) : preparing e -> trail o e.
Proof. destruct e; cbn; auto; contradiction. Qed.

Lemma working_trail (e : event) : working e -> trail true e.
Proof. destruct e; cbn; auto; try contradiction. discriminate. Qed.

Section WalletTrail.

Context {crypto : CryptoLib} {solana : SolanaLib}.

Lemma configureWallet_trail (o : bool) (a : jsval) :
  holds (fun W => ora W = o) (configureWallet a) (trail o) anything.
Proof.
  assert (Hin : input_free (fun W => ora W = o)) by (intros W l H; exact H).
  assert (Hdr : draw_free (fun W => ora W = o)) by (intros W c H; exact H).
  unfold configureWallet. apply holds_try; [|intros e; now apply holds_emit].
  eapply holds_bind.
  { eapply holds_weaken; [now apply walletFor_preparing|apply preparing_trail|].
    intros wd H. exact H. }
  intros wd [Hnet _].
  eapply holds_bind
    with (P := fun ed => o = false -> ed = VNull).
  { destruct o.
    - eapply holds_weaken; [now apply secureWallet_working|apply working_trail|discriminate].
    - eapply holds_weaken.
      + apply secureWallet_without_ora; auto.
      + apply preparing_trail.
      + intros ed [-> _] _. reflexivity. }
  intros ed Hed.
  apply saveWallet_holds; auto; try (intros; exact Logic.I).
  - intros now _. split; [now apply keystore_record_network|].
    intros Ho. rewrite (Hed Ho). apply keystore_record_null.
  - intros doc H. now destruct (config_is_not_the_keystore H).
Qed.

(** The events of the wallet step: a trail throughout. *)
Lemma stepWalletSetup_trail (o : bool) :
  holds (fun W => ora W = o) stepWalletSetup (trail o) anything.
Proof.
  assert (Hin : input_free (fun W => ora W = o)) by (intros W l H; exact H).
  unfold stepWalletSetup.
  eapply holds_bind; [apply holds_gets|intros cfg _].
  eapply holds_bind with (P := anything).
  { destruct (truthy (get cfg "wallet")); [|apply holds_value].
    eapply holds_bind; [apply holds_prompt; [exact Hin|intros; exact Logic.I]|].
    intros; apply holds_value. }
  intros keep _. destruct keep; [apply holds_value|].
  eapply holds_bind; [apply holds_prompt; [exact Hin|intros; exact Logic.I]|].
  intros answers _. cbv zeta.
  destruct (strict_eq (get answers "walletAction") (VStr (js "skip"))); [apply holds_value|].
  eapply holds_bind; [apply configureWallet_trail|intros _ _].
  eapply holds_bind; [apply holds_prompt; [exact Hin|intros; exact Logic.I]|].
  intros; apply holds_value.
Qed.

End WalletTrail.

(** ** The runs of the wallet step *)

Lemma bind_after {A B} (m : M A) (f : A -> M B) (W W1 : World) (a : A)
    (l1 : list event) :
  m W = Run (Return a) W1 l1 -> bind m f W = after l1 (f a W1).
Proof. intros H. now rewrite (bind_Return _ _ _ _ _ _ H). Qed.

Lemma after_nil {A} (r : run A) : after [] r = r.
Proof. now destruct r. Qed.

Lemma out_after {A} (l : list event) (r : run A) : out (after l r) = out r.
Proof. now destruct r. Qed.

Lemma world_after {A} (l : list event) (r : run A) : world (after l r) = world r.
Proof. now destruct r. Qed.

Lemma log_after {A} (l : list event) (r : run A) : log (after l r) = l ++ log r.
Proof. now destruct r. Qed.

Lemma never_throws_bind {A B} (m : M A) (f : A -> M B) :
  never_throws m -> (forall a, never_throws (f a)) -> never_throws (bind m f).
Proof.
  intros Hm Hf W e. specialize (Hm W). unfold bind.
  destruct (m W) as [[a|e'|] W1 l1]; cbn [out] in *.
  - specialize (Hf a W1 e). destruct (f a W1) as [o W2 l2]. exact Hf.
  - now destruct (Hm e').
  - discriminate.
Qed.

Lemma never_throws_prompt (q : question) : never_throws (prompt [q]).
Proof.
  intros W e.
  destruct (prompt_cases q W) as [[l H]|(v & l & H)]; rewrite H; discriminate.
Qed.

Lemma never_throws_writeFile (path : string) (doc : jsval) :
  never_throws (writeFile path doc).
Proof. intros W e. discriminate. Qed.

Lemma never_throws_saveConfig : never_throws saveConfig.
Proof. intros W e. discriminate. Qed.

Lemma never_throws_modify (f : World -> World) : never_throws (modify f).
Proof. intros W e. discriminate. Qed.

Lemma never_throws_ret {A} (a : A) : never_throws (ret a).
Proof. intros W e. discriminate. Qed.

Lemma never_throws_emit (ev : event) : never_throws (emit ev).
Proof. intros W e. discriminate. Qed.

(** A step followed by its closing question: the question changes only
    what is left of the input. *)
Lemma then_question (m : M unit) (q : question) (W : World) :
  let r := bind m (fun _ => bind (prompt [q]) (fun _ => ret tt)) W in
  exists l tail,
    log r = log (m W) ++ tail
    /\ world r = with_stdin l (world (m W))
    /\ Forall (fun e => exists v, e = Asked (qname q) v) tail
    /\ (out r = Return tt -> out (m W) = Return tt).
Proof.
  cbv zeta. destruct (m W) as [[[]|e|] W1 l1] eqn:Hm; cbn [out world log].
  - rewrite (bind_after _ _ _ _ _ _ Hm).
    rewrite out_after, world_after, log_after.
    destruct (prompt_cases q W1) as [[l H]|(v & l & H)].
    + rewrite (bind_Halt _ _ _ _ _ H). cbn [out world log].
      exists l, []. repeat split; auto.
    + rewrite (bind_after _ _ _ _ _ _ H). cbn [after ret out world log app].
      exists l, [Asked (qname q) v]. repeat split; auto.
      constructor; [eauto|constructor].
  - rewrite (bind_Throw _ _ _ _ _ _ Hm). cbn [out world log].
    exists (stdin W1), []. rewrite app_nil_r, with_stdin_same.
    repeat split; auto; discriminate.
  - rewrite (bind_Halt _ _ _ _ _ Hm). cbn [out world log].
    exists (stdin W1), []. rewrite app_nil_r, with_stdin_same.
    repeat split; auto; discriminate.
Qed.

Section WalletRuns.

Context {crypto : CryptoLib} {solana : SolanaLib}.

Lemma chooseWallet_cases (W : World) :
  (exists l, chooseWallet W = Run Halt (with_stdin l W) [])
  \/ (exists l a,
        strict_eq a (VStr (js "skip")) = true
        /\ chooseWallet W = Run (Return tt) (with_stdin l W) [Asked "walletAction" a])
  \/ (exists l a,
        strict_eq a (VStr (js "skip")) = false
        /\ chooseWallet W
           = after [Asked "walletAction" a]
               ((configureWallet a ;;
                 prompt [{| qtype := "confirm"; qname := "continue"; choices := [];
                            default := VBool true; validate := None |}] ;;
                 ret tt) (with_stdin l W))).
Proof.
  unfold chooseWallet.
  match goal with
  | |- context [prompt [?q]] => destruct (prompt_cases q W) as [[l H]|(a & l & H)]
  end.
  - left. exists l. exact (bind_Halt _ _ _ _ _ H).
  - right. rewrite (bind_after _ _ _ _ _ _ H). cbv beta zeta.
    cbn [qname list_question get lookup String.eqb Ascii.eqb Bool.eqb].
    destruct (strict_eq a (VStr (js "skip"))) eqn:Hs.
    + left. exists l, a. split; [exact Hs|reflexivity].
    + right. exists l, a. split; [exact Hs|reflexivity].
Qed.

Lemma stepWalletSetup_unfold :
  stepWalletSetup
  = (cfg <- gets config ;;
     keep <- (if truthy (get cfg "wallet") then
                answers <- prompt [list_question "manageWallet"
                                     ["keep"; "new"; "import"; "hardware"]
                                     (VStr (js "keep"))] ;;
                ret (strict_eq (get answers "manageWallet") (VStr (js "keep")))
              else ret false) ;;
     if keep : bool then ret tt else chooseWallet).
Proof. reflexivity. Qed.

(** The four ways the wallet step can go. *)
Lemma stepWalletSetup_cases (W : World) :
  (exists l pre,
     declined_keep pre /\ stepWalletSetup W = Run Halt (with_stdin l W) pre)
  \/ (exists l v,
        strict_eq v (VStr (js "keep")) = true
        /\ stepWalletSetup W = Run (Return tt) (with_stdin l W) [Asked "manageWallet" v])
  \/ (exists l pre a,
        declined_keep pre /\ strict_eq a (VStr (js "skip")) = true
        /\ stepWalletSetup W
           = Run (Return tt) (with_stdin l W) (pre ++ [Asked "walletAction" a]))
  \/ (exists l pre a,
        declined_keep pre /\ strict_eq a (VStr (js "skip")) = false
        /\ stepWalletSetup W
           = after (pre ++ [Asked "walletAction" a])
               ((configureWallet a ;;
                 prompt [{| qtype := "confirm"; qname := "continue"; choices := [];
                            default := VBool true; validate := None |}] ;;
                 ret tt) (with_stdin l W))).
Proof.
  rewrite stepWalletSetup_unfold.
  rewrite (bind_after (gets config) _ W W (config W) [] eq_refl), after_nil.
  cbv beta.
  assert (Hchoose : forall l pre,
    declined_keep pre ->
    let r := after pre (chooseWallet (with_stdin l W)) in
    (exists l pre, declined_keep pre /\ r = Run Halt (with_stdin l W) pre)
    \/ (exists l v, strict_eq v (VStr (js "keep")) = true
                    /\ r = Run (Return tt) (with_stdin l W) [Asked "manageWallet" v])
    \/ (exists l pre a,
          declined_keep pre /\ strict_eq a (VStr (js "skip")) = true
          /\ r = Run (Return tt) (with_stdin l W) (pre ++ [Asked "walletAction" a]))
    \/ (exists l pre a,
          declined_keep pre /\ strict_eq a (VStr (js "skip")) = false
          /\ r = after (pre ++ [Asked "walletAction" a])
                   ((configureWallet a ;;
                     prompt [{| qtype := "confirm"; qname := "continue"; choices := [];
                                default := VBool true; validate := None |}] ;;
                     ret tt) (with_stdin l W)))).
  { intros l pre Hpre r. subst r.
    destruct (chooseWallet_cases (with_stdin l W))
      as [[l' H]|[(l' & a & Hs & H)|(l' & a & Hs & H)]]; rewrite H.
    - left. exists l', pre. split; [exact Hpre|]. cbn. now rewrite app_nil_r.
    - right; right; left. exists l', pre, a. repeat split; auto.
    - right; right; right. exists l', pre, a. repeat split; auto.
      destruct ((configureWallet a ;; _) _) as [o W2 l2]. cbn.
      now rewrite <- app_assoc. }
  destruct (truthy (get (config W) "wallet")).
  - match goal with
    | |- context [prompt [?q]] => destruct (prompt_cases q W) as [[l H]|(v & l & H)]
    end.
    + left. exists l, []. split; [now left|].
      exact (bind_Halt _ _ _ _ _ (bind_Halt _ _ _ _ _ H)).
    + match goal with
      | |- context [bind (bind ?m ?k) ?K W] =>
          assert (H1 : bind m k W
                       = Run (Return (strict_eq v (VStr (js "keep"))))
                             (with_stdin l W) [Asked "manageWallet" v])
            by (rewrite (bind_after _ _ _ _ _ _ H); reflexivity);
          rewrite (bind_after _ K _ _ _ _ H1)
      end.
      destruct (strict_eq v (VStr (js "keep"))) eqn:Hk.
      * right; left. exists l, v. split; [exact Hk|reflexivity].
      * apply (Hchoose l [Asked "manageWallet" v]). right. eauto.
  - rewrite (bind_after (ret false) _ W W false [] eq_refl).
    pose proof (Hchoose (stdin W) [] (or_introl eq_refl)) as Hc.
    cbv zeta in Hc. rewrite with_stdin_same in Hc. exact Hc.
Qed.

End WalletRuns.

Lemma declined_keep_asked (pre : list event) :
  declined_keep pre ->
  Forall (fun e => asked e = true) pre
  /\ ~ In (Asked "manageWallet" (VStr (js "keep"))) pre
  /\ forall a, ~ In (Asked "walletAction" a) pre.
Proof.
  intros [->|(v & -> & Hv)].
  - split; [constructor|]. split; [intros []|intros a []].
  - split; [repeat constructor|]. split.
    + intros [H|[]]. inversion H; subst. discriminate.
    + intros a [H|[]]. discriminate.
Qed.

Section WalletStepMore.

Context {crypto : CryptoLib} {solana : SolanaLib}.

(** Once the action is chosen, neither [manageWallet] nor [walletAction] is
    asked again. *)
Lemma no_second_choice (a : jsval) (W : World) :
  Forall (fun e => forall n v, e = Asked n v -> step_prompt n = false)
         (log ((configureWallet a ;;
                prompt [{| qtype := "confirm"; qname := "continue"; choices := [];
                           default := VBool true; validate := None |}] ;;
                ret tt) W)).
Proof.
  match goal with
  | |- context [prompt [?q]] =>
      destruct (then_question (configureWallet a) q W) as (l & tail & Hlog & _ & Htail & _)
  end.
  rewrite Hlog. apply Forall_app. split.
  - destruct (configure_expected None a W Logic.I) as (_ & Hl & _).
    eapply Forall_impl; [|exact Hl].
    intros e He n v ->. now destruct He.
  - eapply Forall_impl; [|exact Htail].
    intros e [v' ->] n v H. inversion H; subst. reflexivity.
Qed.

(** X1: a user who keeps the wallet there is, or skips the wallet step,
    leaves everything as it was: the step returns having asked its one or two
    questions, with the configuration, the files and the random source
    untouched. *)
Theorem keeping_or_skipping_changes_nothing (W : World) :
  In (Asked "manageWallet" (VStr (js "keep"))) (log (stepWalletSetup W))
  \/ In (Asked "walletAction" (VStr (js "skip"))) (log (stepWalletSetup W)) ->
  out (stepWalletSetup W) = Return tt
  /\ Forall (fun e => asked e = true) (log (stepWalletSetup W))
  /\ untouched W (world (stepWalletSetup W)).
Proof.
  intros Hin.
  destruct (stepWalletSetup_cases W)
    as [(l & pre & Hpre & H)|[(l & v & Hv & H)|[(l & pre & a & Hpre & Ha & H)
        |(l & pre & a & Hpre & Ha & H)]]];
    rewrite H in *; clear H.
  - exfalso. destruct (declined_keep_asked pre Hpre) as (_ & Hk & Hs).
    cbn [log] in Hin. destruct Hin as [Hin|Hin]; [now apply Hk|now apply (Hs _ Hin)].
  - cbn. split; [reflexivity|]. split; [repeat constructor|repeat split].
  - destruct (declined_keep_asked pre Hpre) as (Hasked & _).
    cbn. split; [reflexivity|]. split; [|repeat split].
    apply Forall_app. split; [exact Hasked|repeat constructor].
  - exfalso. rewrite log_after in Hin.
    destruct (declined_keep_asked pre Hpre) as (_ & Hk & Hs).
    pose proof (no_second_choice a (with_stdin l W)) as Hrest.
    rewrite Forall_forall in Hrest.
    destruct Hin as [Hin|Hin]; apply in_app_or in Hin as [Hin|Hin].
    + apply in_app_or in Hin as [Hin|[Hin|[]]]; [now apply Hk|discriminate].
    + specialize (Hrest _ Hin _ _ eq_refl). discriminate.
    + apply in_app_or in Hin as [Hin|[Hin|[]]]; [now apply (Hs _ Hin)|].
      inversion Hin; subst. discriminate.
    + specialize (Hrest _ Hin _ _ eq_refl). discriminate.
Qed.

(** X2: without the optional ora package no key is ever encrypted: the
    wallet step calls neither [encryptKey] nor the node:crypto routines it
    uses, and every keystore record it writes has [encryptedKey] null. *)
Theorem without_ora_nothing_is_encrypted (W : World) :
  ora W = false -> Forall unencrypted (log (stepWalletSetup W)).
Proof.
  intros Hora. destruct (stepWalletSetup_trail false W Hora) as (_ & Hlog & _).
  eapply Forall_impl; [|exact Hlog].
  intros [n v|fn args|p doc|t|m]; cbn; auto.
  intros H Hp. now apply H.
Qed.

(** X3: every keystore record the wallet step writes names the network
    'devnet', whatever is answered at the network question. *)
Theorem keystore_is_always_for_devnet (W : World) (doc : jsval) :
  In (Wrote WALLET_FILE doc) (log (stepWalletSetup W)) ->
  get doc "network" = VStr (js "devnet").
Proof.
  intros Hin. destruct (stepWalletSetup_trail (ora W) W eq_refl) as (_ & Hlog & _).
  rewrite Forall_forall in Hlog. now destruct (Hlog _ Hin eq_refl).
Qed.

End WalletStepMore.

Section WalletFailure.

Context {crypto : CryptoLib} {solana : SolanaLib}.

Lemma never_throws_saveWallet (a wd ed : jsval) : never_throws (saveWallet a wd ed).
Proof.
  unfold saveWallet, ensureDir.
  repeat first
    [ apply never_throws_bind; [|intros ?]
    | apply never_throws_ret | apply never_throws_prompt | apply never_throws_modify
    | apply never_throws_saveConfig | apply never_throws_writeFile
    | (intros ? ?; discriminate)
    | (destruct (strict_eq a (VStr (js "create")));
       [apply never_throws_emit|apply never_throws_ret]) ].
Qed.

Lemma saveWallet_unreported (a wd ed : jsval) (W : World) :
  Forall (fun e => reported e = false) (log (saveWallet a wd ed W)).
Proof.
  assert (H : holds (fun _ => True) (saveWallet a wd ed)
                    (fun e => reported e = false) anything).
  { apply saveWallet_holds; auto. intros ? ? ?. exact Logic.I. }
  now destruct (H W Logic.I) as (_ & Hl & _).
Qed.

Lemma preparing_working (e : event) : preparing e -> working e.
Proof. destruct e; cbn; auto. Qed.

Lemma working_quiet (e : event) : working e -> wrote e = false /\ reported e = false.
Proof. destruct e; cbn; intuition. Qed.

(** The [try] block of the wallet step throws only before anything is
    written, and reports nothing itself. *)
Lemma walletBody_run (a : jsval) (W : World) :
  Forall (fun e => reported e = false) (log (walletBody a W))
  /\ forall e, out (walletBody a W) = Throw e ->
       Forall working (log (walletBody a W))
       /\ config (world (walletBody a W)) = config W
       /\ files (world (walletBody a W)) = files W.
Proof.
  set (J := fun W' : World => config W' = config W /\ files W' = files W).
  assert (HJin : input_free J) by (intros W' l H; exact H).
  assert (HJdr : draw_free J) by (intros W' c H; exact H).
  destruct (walletFor_preparing J HJin HJdr a W (conj eq_refl eq_refl))
    as (HJa & Hla & _).
  apply (Forall_impl _ preparing_working) in Hla.
  unfold walletBody.
  destruct (walletFor a W) as [[wd|e1|] Wa la] eqn:Hw; cbn [out world log] in *.
  2:{ rewrite (bind_Throw _ _ _ _ _ _ Hw). cbn [out world log].
      split; [|intros e _; destruct HJa; auto].
      eapply Forall_impl; [|exact Hla]. intros e He. now apply working_quiet. }
  2:{ rewrite (bind_Halt _ _ _ _ _ Hw). cbn [out world log].
      split; [|discriminate].
      eapply Forall_impl; [|exact Hla]. intros e He. now apply working_quiet. }
  rewrite (bind_after _ _ _ _ _ _ Hw).
  rewrite out_after, world_after, log_after.
  destruct (secureWallet_working J HJin HJdr wd Wa HJa) as (HJs & Hls & _).
  destruct (secureWallet wd Wa) as [[ed|e2|] Ws ls] eqn:Hs; cbn [out world log] in *.
  2:{ rewrite (bind_Throw _ _ _ _ _ _ Hs). cbn [out world log].
      assert (Hall : Forall working (la ++ ls)) by now apply Forall_app.
      split; [|intros e _; destruct HJs; auto].
      eapply Forall_impl; [|exact Hall]. intros e He. now apply working_quiet. }
  2:{ rewrite (bind_Halt _ _ _ _ _ Hs). cbn [out world log].
      assert (Hall : Forall working (la ++ ls)) by now apply Forall_app.
      split; [|discriminate].
      eapply Forall_impl; [|exact Hall]. intros e He. now apply working_quiet. }
  rewrite (bind_after _ _ _ _ _ _ Hs).
  rewrite out_after, world_after, log_after.
  split.
  - apply Forall_app. split.
    { eapply Forall_impl; [|exact Hla]. intros e He. now apply working_quiet. }
    apply Forall_app. split; [|apply saveWallet_unreported].
    eapply Forall_impl; [|exact Hls]. intros e He. now apply working_quiet.
  - intros e He. now destruct (never_throws_saveWallet a wd ed Ws e).
Qed.

Lemma configureWallet_reported (a : jsval) (W : World) (msg : string) :
  In (Reported msg) (log (configureWallet a W)) ->
  Forall (fun e => wrote e = false) (log (configureWallet a W))
  /\ config (world (configureWallet a W)) = config W
  /\ files (world (configureWallet a W)) = files W.
Proof.
  change (configureWallet a) with
    (try (walletBody a)
         (fun error => emit (Reported ("Wallet setup failed: " ++ error)%string))).
  destruct (walletBody_run a W) as (Hquiet & Hthrow).
  unfold try. destruct (walletBody a W) as [[[]|e|] W1 l1]; cbn [out world log] in *.
  - intros Hin. rewrite Forall_forall in Hquiet. now specialize (Hquiet _ Hin).
  - intros _. destruct (Hthrow e eq_refl) as (Hl & Hc & Hf).
    split; [|now split]. apply Forall_app. split; [|repeat constructor].
    eapply Forall_impl; [|exact Hl]. intros ev Hev. now apply working_quiet.
  - intros Hin. rewrite Forall_forall in Hquiet. now specialize (Hquiet _ Hin).
Qed.

(** X4: a wallet step that reports a failure has written no file and left
    the configuration as it was: what can throw in the [try] block comes
    before the first write (writing itself does not fail here: [writeFile]
    and [ensureDir] always succeed). *)
Theorem failed_wallet_setup_writes_nothing (W : World) (msg : string) :
  In (Reported msg) (log (stepWalletSetup W)) ->
  Forall (fun e => wrote e = false) (log (stepWalletSetup W))
  /\ config (world (stepWalletSetup W)) = config W
  /\ files (world (stepWalletSetup W)) = files W.
Proof.
  intros Hin.
  destruct (stepWalletSetup_cases W)
    as [(l & pre & Hpre & H)|[(l & v & Hv & H)|[(l & pre & a & Hpre & Ha & H)
        |(l & pre & a & Hpre & Ha & H)]]];
    rewrite H in *; clear H.
  - exfalso. destruct (declined_keep_asked pre Hpre) as (Hasked & _).
    rewrite Forall_forall in Hasked. now specialize (Hasked _ Hin).
  - exfalso. destruct Hin as [Hin|[]]. discriminate.
  - exfalso. destruct (declined_keep_asked pre Hpre) as (Hasked & _).
    rewrite Forall_forall in Hasked. cbn [log] in Hin.
    apply in_app_or in Hin as [Hin|[Hin|[]]]; [|discriminate].
    now specialize (Hasked _ Hin).
  - destruct (declined_keep_asked pre Hpre) as (Hasked & _).
    rewrite world_after, log_after in *.
    match goal with
    | |- context [prompt [?q]] =>
        destruct (then_question (configureWallet a) q (with_stdin l W))
          as (l' & tail & Hlog & Hworld & Htail & _)
    end.
    rewrite Hlog, Hworld in *.
    assert (Hrep : In (Reported msg) (log (configureWallet a (with_stdin l W)))).
    { apply in_app_or in Hin as [Hin|Hin].
      - apply in_app_or in Hin as [Hin|[Hin|[]]]; [|discriminate].
        rewrite Forall_forall in Hasked. now specialize (Hasked _ Hin).
      - apply in_app_or in Hin as [Hin|Hin]; [exact Hin|].
        rewrite Forall_forall in Htail. destruct (Htail _ Hin) as [v Hv]. discriminate. }
    destruct (configureWallet_reported a _ msg Hrep) as (Hw & Hc & Hf).
    split; [|split; [exact Hc|exact Hf]].
    apply Forall_app. split.
    + apply Forall_app. split; [|repeat constructor].
      eapply Forall_impl; [|exact Hasked]. now intros [] He.
    + apply Forall_app. split; [exact Hw|].
      eapply Forall_impl; [|exact Htail]. now intros e [v ->].
Qed.

(** Without ora the [try] block never gets to the keystore when the action
    gives a wallet with a secret key. *)
Lemma walletBody_without_ora (a : jsval) (c : jsval) (f : list (string * jsval)) :
  secret_action a = true ->
  holds (fun W => ora W = false /\ config W = c /\ files W = f)
        (walletBody a) working (fun _ => False).
Proof.
  intros Ha.
  set (J := fun W : World => ora W = false /\ config W = c /\ files W = f).
  assert (HJin : input_free J) by (intros W' l H; exact H).
  assert (HJdr : draw_free J) by (intros W' d H; exact H).
  assert (HJora : forall W, J W -> ora W = false) by (intros W H; apply H).
  unfold walletBody.
  eapply holds_bind
    with (P := fun wd => truthy (get wd "rawSecretKey") = true).
  { eapply holds_weaken; [now apply walletFor_preparing|apply preparing_working|].
    intros wd [_ H]. now apply H. }
  intros wd Hraw.
  eapply holds_bind with (P := fun _ => False).
  { eapply holds_weaken;
      [now apply secureWallet_without_ora|apply preparing_working|].
    intros ed [_ H]. congruence. }
  intros ed [].
Qed.

(** X5: without the optional ora package a wallet with a secret key cannot
    be set up: once 'create', 'import-key' or 'import-seed' is chosen the step
    writes no file and leaves the configuration as it was, and when it returns
    it has reported a failure. *)
Theorem without_ora_no_secret_wallet_is_saved (W : World) (a : jsval) :
  ora W = false ->
  secret_action a = true ->
  In (Asked "walletAction" a) (log (stepWalletSetup W)) ->
  Forall (fun e => wrote e = false) (log (stepWalletSetup W))
  /\ config (world (stepWalletSetup W)) = config W
  /\ files (world (stepWalletSetup W)) = files W
  /\ (out (stepWalletSetup W) = Return tt ->
      exists msg, In (Reported msg) (log (stepWalletSetup W))).
Proof.
  intros Hora Hsecret Hin.
  destruct (stepWalletSetup_cases W)
    as [(l & pre & Hpre & H)|[(l & v & Hv & H)|[(l & pre & a' & Hpre & Ha & H)
        |(l & pre & a' & Hpre & Ha & H)]]];
    rewrite H in *; clear H.
  - exfalso. destruct (declined_keep_asked pre Hpre) as (_ & _ & Hs).
    now apply (Hs _ Hin).
  - exfalso. destruct Hin as [Hin|[]]. discriminate.
  - exfalso. destruct (declined_keep_asked pre Hpre) as (_ & _ & Hs).
    cbn [log] in Hin. apply in_app_or in Hin as [Hin|[Hin|[]]]; [now apply (Hs _ Hin)|].
    inversion Hin; subst a'. apply strict_eq_str in Ha. subst a. discriminate.
  - destruct (declined_keep_asked pre Hpre) as (Hasked & _ & Hs).
    rewrite out_after, world_after, log_after in *.
    assert (a' = a).
    { apply in_app_or in Hin as [Hin|Hin].
      - apply in_app_or in Hin as [Hin|[Hin|[]]]; [now destruct (Hs _ Hin)|].
        now inversion Hin.
      - pose proof (no_second_choice a' (with_stdin l W)) as Hrest.
        rewrite Forall_forall in Hrest. specialize (Hrest _ Hin _ _ eq_refl).
        discriminate. }
    subst a'.
    match goal with
    | |- context [prompt [?q]] =>
        destruct (then_question (configureWallet a) q (with_stdin l W))
          as (l' & tail & Hlog & Hworld & Htail & Hout)
    end.
    rewrite Hlog, Hworld.
    pose proof (walletBody_without_ora a (config W) (files W) Hsecret (with_stdin l W)
                  (conj Hora (conj eq_refl eq_refl))) as (HJ & Hl & Hnever).
    change (configureWallet a) with
      (try (walletBody a)
           (fun error => emit (Reported ("Wallet setup failed: " ++ error)%string))) in *.
    unfold try in *.
    destruct (walletBody a (with_stdin l W)) as [[[]|e|] W1 l1];
      cbn [out world log emit app] in *.
    + now destruct (Hnever tt eq_refl).
    + destruct HJ as (_ & Hc & Hf).
      split; [|split; [exact Hc|split; [exact Hf|]]].
      * apply Forall_app. split.
        { apply Forall_app. split; [|repeat constructor].
          eapply Forall_impl; [|exact Hasked]. now intros [] He. }
        apply Forall_app. split.
        { apply Forall_app. split; [|repeat constructor].
          eapply Forall_impl; [|exact Hl]. intros ev Hev. now apply working_quiet. }
        eapply Forall_impl; [|exact Htail]. now intros ev [v ->].
      * intros _. eexists. apply in_or_app. right. apply in_or_app. left.
        apply in_or_app. right. now left.
    + destruct HJ as (_ & Hc & Hf).
      split; [|split; [exact Hc|split; [exact Hf|]]].
      * apply Forall_app. split.
        { apply Forall_app. split; [|repeat constructor].
          eapply Forall_impl; [|exact Hasked]. now intros [] He. }
        apply Forall_app. split.
        { eapply Forall_impl; [|exact Hl]. intros ev Hev. now apply working_quiet. }
        eapply Forall_impl; [|exact Htail]. now intros ev [v ->].
      * intros Hr. specialize (Hout Hr). discriminate.
Qed.

End WalletFailure.

Section MissingPackages.

Context {crypto : CryptoLib} {solana : SolanaLib}.

(** X6: when a package it needs cannot be loaded, a wallet constructor
    throws 'Solana SDK required' at once: nothing is called, no random byte is
    drawn and the world is as it was.  [generateNewWallet] and
    [importFromSeedPhrase] need the four packages, [importFromPrivateKey] only
    @solana/web3.js and bs58. *)
Theorem missing_package_stops_the_constructor (W : World) (input : jsval) :
  (sdk_loaded W = false ->
   generateNewWallet W = Run (Throw SDK_REQUIRED) W []
   /\ importFromSeedPhrase input W = Run (Throw SDK_REQUIRED) W [])
  /\ (installed W "@solana/web3.js" && installed W "bs58" = false ->
      importFromPrivateKey input W = Run (Throw SDK_REQUIRED) W []).
Proof.
  split.
  - intros Hsdk. split.
    + unfold generateNewWallet.
      erewrite bind_Throw by (rewrite require_four, Hsdk; reflexivity). reflexivity.
    + unfold importFromSeedPhrase.
      erewrite bind_Throw by (rewrite require_four, Hsdk; reflexivity). reflexivity.
  - intros Htwo. unfold importFromPrivateKey.
    erewrite bind_Throw by (rewrite require_two, Htwo; reflexivity). reflexivity.
Qed.

End MissingPackages.

(** ** The wallet step on the sample machines *)
Module WalletExamples.

Import Sample SampleFacts Cases.

(** [keeping_or_skipping_changes_nothing] on a user who keeps the wallet. *)
Lemma keeping_example :
  In (Asked "manageWallet" (VStr (js "keep"))) (log (stepWalletSetup keeping))
  /\ out (stepWalletSetup keeping) = Return tt
  /\ Forall (fun e => asked e = true) (log (stepWalletSetup keeping))
  /\ untouched keeping (world (stepWalletSetup keeping)).
Proof.
  assert (Hin : In (Asked "manageWallet" (VStr (js "keep")))
                   (log (stepWalletSetup keeping))) by (vm_compute; pick).
  split; [exact Hin|].
  exact (@keeping_or_skipping_changes_nothing crypto solana keeping (or_introl Hin)).
Defined.

(** [without_ora_nothing_is_encrypted] on a hardware wallet registered
    without ora: the keystore record is written, with no key in it. *)
Lemma without_ora_example :
  ora (plain connecting) = false
  /\ length (keystores (log (stepWalletSetup (plain connecting)))) = 1
  /\ Forall unencrypted (log (stepWalletSetup (plain connecting))).
Proof.
  split; [reflexivity|]. split; [vm_compute; reflexivity|].
  exact (@without_ora_nothing_is_encrypted crypto solana (plain connecting) eq_refl).
Defined.

(** [keystore_is_always_for_devnet] on a hardware wallet for which
    'mainnet-beta' was selected. *)
Lemma devnet_example :
  let r := stepWalletSetup connecting in
  let doc := hd VUndefined (keystores (log r)) in
  In (Asked "network" (VStr (js "mainnet-beta"))) (log r)
  /\ In (Wrote WALLET_FILE doc) (log r)
  /\ get doc "network" = VStr (js "devnet").
Proof.
  intros r doc.
  assert (Hin : In (Wrote WALLET_FILE doc) (log r)) by (vm_compute; pick).
  split; [vm_compute; pick|]. split; [exact Hin|].
  exact (@keystore_is_always_for_devnet crypto solana connecting doc Hin).
Defined.

(** [failed_wallet_setup_writes_nothing] on the import of a key of two
    bytes. *)
Lemma failed_import_example :
  let r := stepWalletSetup importing_badly in
  In (Reported "Wallet setup failed: bad secret key size") (log r)
  /\ Forall (fun e => wrote e = false) (log r)
  /\ config (world r) = config importing_badly
  /\ files (world r) = files importing_badly.
Proof.
  intros r.
  assert (Hin : In (Reported "Wallet setup failed: bad secret key size") (log r))
    by (vm_compute; pick).
  split; [exact Hin|].
  exact (@failed_wallet_setup_writes_nothing crypto solana importing_badly _ Hin).
Defined.

(** [without_ora_no_secret_wallet_is_saved] on a user who creates a wallet. *)
Lemma create_without_ora_example :
  let r := stepWalletSetup creating_plain in
  ora creating_plain = false
  /\ secret_action (VStr (js "create")) = true
  /\ In (Asked "walletAction" (VStr (js "create"))) (log r)
  /\ Forall (fun e => wrote e = false) (log r)
  /\ config (world r) = config creating_plain
  /\ files (world r) = files creating_plain
  /\ (out r = Return tt -> exists msg, In (Reported msg) (log r)).
Proof.
  intros r.
  assert (Hin : In (Asked "walletAction" (VStr (js "create"))) (log r))
    by (vm_compute; pick).
  split; [reflexivity|]. split; [reflexivity|]. split; [exact Hin|].
  exact (@without_ora_no_secret_wallet_is_saved crypto solana creating_plain
           (VStr (js "create")) eq_refl eq_refl Hin).
Defined.

(** [missing_package_stops_the_constructor] on a machine without bip39:
    a wallet cannot be created, a key can still be imported. *)
Lemma missing_package_example :
  let W := {| inquirer := true; ora := true;
              installed := fun name => negb (String.eqb name "bip39");
              stdin := []; entropy := counting 0; cursor := 0;
              clock := js "2024-01-01T00:00:00.000Z";
              config := VObj []; files := [] |} in
  sdk_loaded W = false
  /\ generateNewWallet W = Run (Throw SDK_REQUIRED) W []
  /\ importFromSeedPhrase (VStr (js "abandon")) W = Run (Throw SDK_REQUIRED) W []
  /\ out (importFromPrivateKey (VStr (js "abandon")) W) <> Throw SDK_REQUIRED.
Proof.
  intros W. split; [reflexivity|].
  destruct (@missing_package_stops_the_constructor solana W (VStr (js "abandon")))
    as [H _].
  destruct (H eq_refl) as [H1 H2].
  split; [exact H1|]. split; [exact H2|]. vm_compute. discriminate.
Defined.

(** [inquirer_enforces_password_length] on a user who creates a wallet. *)
Lemma password_length_example :
  let r := stepWalletSetup creating in
  let args := hd [] (flat_map (fun e => match e with
                                        | Called fn args =>
                                            if String.eqb fn "encryptKey" then [args] else []
                                        | _ => []
                                        end) (log r)) in
  inquirer creating = true
  /\ In (Called "encryptKey" args) (log r)
  /\ strong_password args.
Proof.
  intros r args.
  assert (Hin : In (Called "encryptKey" args) (log r)) by (vm_compute; pick).
  split; [reflexivity|]. split; [exact Hin|].
  exact (@inquirer_enforces_password_length crypto solana creating args eq_refl Hin).
Defined.

End WalletExamples.

(** ** The fallback box of [createBox] *)

Lemma join_lines_cons (row : jsstring) (rows : list jsstring) :
  rows <> [] -> join_lines (row :: rows) = row ++ 10%N :: join_lines rows.
Proof. destruct rows; [congruence|reflexivity]. Qed.

Lemma join_rows (rows : list jsstring) (last : jsstring) :
  join_lines (rows ++ [last]) = concat (map (fun row => row ++ [10%N]) rows) ++ last.
Proof.
  induction rows as [|row rows IH]; [reflexivity|].
  change ((row :: rows) ++ [last]) with (row :: (rows ++ [last])).
  rewrite join_lines_cons by (destruct rows; discriminate).
  rewrite IH. cbn [map concat]. rewrite <- !app_assoc. reflexivity.
Qed.

Lemma fold_rows (f : jsstring -> jsstring) (lines : list jsstring) (result : jsstring) :
  fold_left (fun result line => result ++ f line) lines result
  = result ++ concat (map f lines).
Proof.
  revert result. induction lines as [|line lines IH]; intros result; cbn.
  - now rewrite app_nil_r.
  - rewrite IH. now rewrite <- app_assoc.
Qed.

Lemma line_fits (content line : jsstring) :
  In line (split_lines content) -> length line + 4 <= box_width content.
Proof.
  unfold box_width. generalize (split_lines content).
  induction l as [|x l IH]; cbn; [contradiction|].
  intros [->|H]; [lia|]. specialize (IH H). lia.
Qed.

Lemma js_repeat_nat (c : N) (n : nat) :
  js_repeat c (Z.of_nat n) = inr (repeat c n).
Proof.
  unfold js_repeat. destruct (Z.ltb_spec (Z.of_nat n) 0); [lia|].
  now rewrite Nat2Z.id.
Qed.

(** X8: without boxen, and with a title no longer than the box is wide,
    [createBox] draws a rectangle: the title centred in the top border (at most
    one more dash behind it than before it), every line of the content between
    the sides, the bottom border; every row is as long as the longest line
    plus 6 (lengths in UTF-16 code units). *)
Theorem createBox_is_a_rectangle (content title : jsstring) :
  length title <= box_width content ->
  createBox None content title = inr (join_lines (box_rows content title))
  /\ length (box_rows content title) = length (split_lines content) + 2
  /\ Forall (fun row => length row = box_width content + 2) (box_rows content title)
  /\ (let before := (box_width content - length title) / 2 in
      let behind := box_width content - length title - before in
      behind = before \/ behind = before + 1).
Proof.
  intros Hfit.
  pose proof (Nat.div_mod_eq (box_width content - length title) 2) as Hdiv.
  assert (Hmod : (box_width content - length title) mod 2 < 2)
    by (apply Nat.mod_upper_bound; lia).
  set (w := box_width content) in *.
  set (before := (w - length title) / 2) in *.
  assert (Hbefore : 2 * before <= w - length title) by lia.
  split; [|split; [|split]].
  - unfold createBox. cbv zeta.
    replace (Z.of_nat (fold_right Nat.max 0%nat (map (@length N) (split_lines content))) + 4)%Z
      with (Z.of_nat w) by (subst w; unfold box_width; lia).
    rewrite js_repeat_nat. cbn [and_then].
    replace ((Z.of_nat w - Z.of_nat (length title)) / 2)%Z with (Z.of_nat before).
    2:{ subst before. rewrite <- Nat2Z.inj_sub by exact Hfit.
        now rewrite (Nat2Z.inj_div _ 2). }
    replace (Z.of_nat w - Z.of_nat before - Z.of_nat (length title))%Z
      with (Z.of_nat (w - length title - before)) by lia.
    replace (Z.to_nat (Z.of_nat w - 4)) with (w - 4) by lia.
    assert (Htop : (if truthy (VStr title)
                    then and_then (js_repeat HORIZONTAL (Z.of_nat before)) (fun before0 =>
                         and_then (js_repeat HORIZONTAL
                                     (Z.of_nat (w - length title - before)))
                           (fun behind =>
                            inr ([TOP_LEFT] ++ before0 ++ title ++ behind
                                 ++ [TOP_RIGHT; 10%N])))
                    else inr ([TOP_LEFT] ++ repeat HORIZONTAL w ++ [TOP_RIGHT; 10%N]))
                   = inr ((TOP_LEFT :: repeat HORIZONTAL before ++ title
                           ++ repeat HORIZONTAL (w - length title - before)
                           ++ [TOP_RIGHT]) ++ [10%N])).
    { destruct title as [|c title].
      - cbn [truthy length Nat.eqb negb app]. f_equal. cbn [app]. f_equal.
        rewrite !Nat.sub_0_r in *. cbn [length] in *.
        replace w with (before + (w - before)) at 1 by lia.
        rewrite repeat_app, <- !app_assoc. reflexivity.
      - cbn [truthy length Nat.eqb negb]. rewrite !js_repeat_nat. cbn [and_then].
        cbn [app]. f_equal. f_equal.
        repeat (rewrite <- app_assoc || rewrite <- app_comm_cons). reflexivity. }
    rewrite Htop. cbn [and_then].
    rewrite (fold_rows (fun line => [VERTICAL; 32%N; 32%N] ++ padEnd line (w - 4)
                                    ++ [32%N; 32%N; VERTICAL; 10%N])).
    f_equal. unfold box_rows. fold w. fold before.
    rewrite join_lines_cons
      by (intros H; apply app_eq_nil in H as [_ H]; discriminate).
    rewrite join_rows, map_map.
    rewrite (map_ext _ (fun line => box_row w line ++ [10%N])).
    2:{ intros line. unfold box_row, padEnd.
        repeat (rewrite <- app_assoc || rewrite <- app_comm_cons). reflexivity. }
    repeat (rewrite <- app_assoc || rewrite <- app_comm_cons). reflexivity.
  - unfold box_rows. cbn [length]. rewrite length_app, length_map. cbn. lia.
  - unfold box_rows. fold w. fold before. constructor.
    + cbn [length]. rewrite !length_app, !repeat_length. cbn [length]. lia.
    + apply Forall_app. split.
      * apply Forall_forall. intros row Hrow. apply in_map_iff in Hrow as (line & <- & Hl).
        apply line_fits in Hl. fold w in Hl. unfold box_row.
        rewrite !length_app, repeat_length. cbn [length]. lia.
      * constructor; [|constructor]. cbn [length].
        rewrite length_app, repeat_length. cbn. lia.
  - cbv zeta. lia.
Qed.

(** X9: without boxen a title longer than the box is wide makes
    [createBox] throw the RangeError of [String.prototype.repeat]. *)
Theorem createBox_rejects_a_long_title (content title : jsstring) :
  box_width content < length title ->
  createBox None content title
  = inl ("Invalid count value: -"
         ++ decimal (N.of_nat ((length title - box_width content + 1) / 2)))%string.
Proof.
  intros Hlong. unfold createBox. cbv zeta.
  replace (Z.of_nat (fold_right Nat.max 0%nat (map (@length N) (split_lines content))) + 4)%Z
    with (Z.of_nat (box_width content)) by (unfold box_width; lia).
  rewrite js_repeat_nat. cbn [and_then].
  destruct title as [|c title]; [cbn in Hlong; lia|].
  cbn [truthy negb]. replace (length (c :: title) =? 0)%nat with false by reflexivity.
  cbn [negb].
  set (w := box_width content) in *. set (n := length (c :: title)) in *.
  assert (Hpad : ((Z.of_nat w - Z.of_nat n) / 2 = - Z.of_nat ((n - w + 1) / 2))%Z).
  { pose proof (Nat.div_mod_eq (n - w + 1) 2) as Hd.
    assert (Hm : (n - w + 1) mod 2 < 2) by (apply Nat.mod_upper_bound; lia).
    symmetry. apply Z.div_unique with (r := Z.of_nat (1 - (n - w + 1) mod 2)); lia. }
  rewrite Hpad. unfold js_repeat at 1.
  destruct (Z.ltb_spec (- Z.of_nat ((n - w + 1) / 2)) 0) as [_|Hge].
  - cbn [and_then]. rewrite Z.opp_involutive, <- nat_N_Z, N2Z.id. reflexivity.
  - exfalso. pose proof (Nat.div_mod_eq (n - w + 1) 2) as Hd.
    assert (Hm : (n - w + 1) mod 2 < 2) by (apply Nat.mod_upper_bound; lia). lia.
Qed.

(** ** [prompt] without inquirer *)

Lemma get_set_same (fs : list (string * jsval)) (k : string) (v : jsval) :
  get (set (VObj fs) k v) k = v.
Proof.
  cbn. induction fs as [|[k' v'] fs IH]; cbn.
  - now rewrite String.eqb_refl.
  - destruct (String.eqb k k') eqn:Ek; cbn; [now rewrite String.eqb_refl|].
    now rewrite Ek.
Qed.

Lemma get_set_other (o : jsval) (k k' : string) (v : jsval) :
  k <> k' -> get (set o k v) k' = get o k'.
Proof.
  intros Hne. destruct o as [| | | | | |fs]; try reflexivity. cbn.
  induction fs as [|[k0 v0] fs IH]; cbn.
  - destruct (String.eqb k' k) eqn:E; [|reflexivity].
    apply String.eqb_eq in E. congruence.
  - destruct (String.eqb k k0) eqn:Ek; cbn.
    + apply String.eqb_eq in Ek. subst k0.
      destruct (String.eqb k' k) eqn:E; [|reflexivity].
      apply String.eqb_eq in E. congruence.
    + destruct (String.eqb k' k0); [reflexivity|exact IH].
Qed.

Lemma set_is_object (fs : list (string * jsval)) (k : string) (v : jsval) :
  exists fs', set (VObj fs) k v = VObj fs'.
Proof. cbn. eauto. Qed.

Lemma readline_prompt_enough (questions : list question) :
  forall (answers : jsval) (W : World),
    length questions <= length (stdin W) ->
    readline_prompt questions answers W
    = Run (Return (readline_answers questions (stdin W) answers))
          (with_stdin (skipn (length questions) (stdin W)) W)
          (readline_events questions (stdin W)).
Proof.
  induction questions as [|q questions IH]; intros answers W Hlen.
  - cbn. rewrite with_stdin_same. now destruct (stdin W).
  - cbn [readline_prompt]. unfold bind, read_line, emit. cbv beta.
    destruct (stdin W) as [|line lines] eqn:Hin; [cbn in Hlen; lia|].
    rewrite (IH _ (with_stdin lines W)) by (cbn in *; lia).
    reflexivity.
Qed.

Lemma readline_prompt_short (questions : list question) :
  forall (answers : jsval) (W : World),
    length (stdin W) < length questions ->
    readline_prompt questions answers W
    = Run Halt (with_stdin [] W) (readline_events questions (stdin W)).
Proof.
  induction questions as [|q questions IH]; intros answers W Hlen.
  - cbn in Hlen. lia.
  - cbn [readline_prompt]. unfold bind, read_line, emit. cbv beta.
    destruct (stdin W) as [|line lines] eqn:Hin.
    + cbn. rewrite <- Hin. now rewrite with_stdin_same.
    + rewrite (IH _ (with_stdin lines W)) by (cbn in *; lia).
      reflexivity.
Qed.

Lemma readline_answers_get (questions : list question) :
  forall (lines : list jsstring) (fs : list (string * jsval)) (i : nat)
         (q : question) (line : jsstring),
    nth_error questions i = Some q ->
    nth_error lines i = Some line ->
    (forall j q', i < j -> nth_error questions j = Some q' -> qname q' <> qname q) ->
    get (readline_answers questions lines (VObj fs)) (qname q) = readline_answer q line.
Proof.
  assert (Hkeep : forall questions lines fs k,
            (forall q', In q' questions -> qname q' <> k) ->
            get (readline_answers questions lines (VObj fs)) k = get (VObj fs) k).
  { induction questions0 as [|q0 qs IH]; intros lines fs k Hk; [reflexivity|].
    destruct lines as [|l ls]; [reflexivity|]. cbn [readline_answers].
    destruct (set_is_object fs (qname q0) (readline_answer q0 l)) as [fs' Hfs].
    rewrite Hfs, IH by (intros q' Hq'; apply Hk; now right).
    rewrite <- Hfs. apply get_set_other. apply Hk. now left. }
  induction questions as [|q0 qs IH]; intros lines fs i q line Hq Hl Hlater.
  - destruct i; discriminate.
  - destruct lines as [|l ls]; [destruct i; discriminate|].
    cbn [readline_answers].
    destruct (set_is_object fs (qname q0) (readline_answer q0 l)) as [fs' Hfs].
    destruct i as [|i]; cbn in Hq, Hl.
    + inversion Hq; inversion Hl; subst. rewrite Hfs, Hkeep.
      * rewrite <- Hfs. apply get_set_same.
      * intros q' Hq'. apply In_nth_error in Hq' as [j Hj].
        apply (Hlater (S j)); [lia|exact Hj].
    + rewrite Hfs. apply (IH ls fs' i q line Hq Hl).
      intros j q' Hij Hj. apply (Hlater (S j)); [lia|exact Hj].
Qed.

(** X10: without inquirer, [prompt] reads one line per question, in order:
    given at least as many lines as questions it returns, having consumed
    exactly that many lines, and the answer stored under a question's name is
    what the fallback makes of that question's line (when no later question
    has the same name). *)
Theorem readline_one_line_per_question (questions : list question) (W : World) :
  inquirer W = false ->
  length questions <= length (stdin W) ->
  exists answers,
    prompt questions W
    = Run (Return answers)
          (with_stdin (skipn (length questions) (stdin W)) W)
          (readline_events questions (stdin W))
    /\ forall i q line,
         nth_error questions i = Some q ->
         nth_error (stdin W) i = Some line ->
         (forall j q', i < j -> nth_error questions j = Some q' ->
                       qname q' <> qname q) ->
         get answers (qname q) = readline_answer q line.
Proof.
  intros Hui Hlen. unfold prompt. rewrite Hui.
  exists (readline_answers questions (stdin W) (VObj [])). split.
  - now apply readline_prompt_enough.
  - intros i q line. apply readline_answers_get.
Qed.

(** X11: without inquirer, a [prompt] with more questions than there are
    lines of input never resolves: the questions that got a line are answered,
    the next one is left waiting, and nothing is returned or thrown. *)
Theorem readline_runs_dry (questions : list question) (W : World) :
  inquirer W = false ->
  length (stdin W) < length questions ->
  prompt questions W
  = Run Halt (with_stdin [] W) (readline_events questions (stdin W))
  /\ length (log (prompt questions W)) = length (stdin W).
Proof.
  intros Hui Hlen. unfold prompt. rewrite Hui.
  rewrite readline_prompt_short by exact Hlen. split; [reflexivity|].
  cbn [log]. unfold readline_events. rewrite length_map, length_combine. lia.
Qed.

(** X12: without inquirer, [prompt] never looks at a question's
    [validate]: two lists of questions that agree in everything else (type,
    name, choices and default) give the same run, whatever their [validate]
    functions accept. *)
Theorem readline_ignores_validation (questions questions' : list question)
    (W : World) :
  inquirer W = false ->
  Forall2 same_but_validate questions questions' ->
  prompt questions W = prompt questions' W.
Proof.
  intros Hui Hsame. unfold prompt. rewrite Hui.
  generalize (VObj []). revert W Hui.
  induction Hsame as [|q q' qs qs' (Ht & Hn & _ & Hd) _ IH]; intros W Hui answers;
    [reflexivity|].
  cbn [readline_prompt]. unfold bind, read_line, emit. cbv beta.
  destruct (stdin W) as [|line lines]; [reflexivity|].
  assert (Ha : readline_answer q line = readline_answer q' line)
    by (unfold readline_answer; now rewrite Ht, Hd).
  rewrite Hn, Ha. now rewrite (IH (with_stdin lines W) Hui).
Qed.

(** ** The welcome and the dependency check *)

(** X13: at the welcome question the readline fallback proceeds only on
    'y' or 'yes' (in any case); Enter alone, which takes the default "yes"
    with inquirer, ends the wizard with status 0 without it. *)
Theorem welcome_needs_a_yes_without_inquirer (W : World) (line : jsstring)
    (rest : list jsstring) :
  stdin W = line :: rest ->
  (inquirer W = false ->
   stepWelcome W
   = Run (Return (if says_yes line then Continue else Exit 0)) (with_stdin rest W)
         [Asked "proceed" (VBool (says_yes line))])
  /\ (line = [] ->
      out (stepWelcome W) = Return (if inquirer W then Continue else Exit 0)).
Proof.
  intros Hin.
  assert (Hreadline :
    inquirer W = false ->
    prompt [confirm_question "proceed" (VBool true)] W
    = Run (Return (VObj [("proceed", VBool (says_yes line))])) (with_stdin rest W)
          [Asked "proceed" (VBool (says_yes line))]).
  { intros Hui. unfold prompt. rewrite Hui.
    cbn [readline_prompt]. unfold bind, read_line, emit, ret. cbv beta.
    rewrite Hin. reflexivity. }
  split.
  - intros Hui. unfold stepWelcome.
    rewrite (bind_after _ _ _ _ _ _ (Hreadline Hui)). cbv beta zeta.
    cbn [get lookup String.eqb Ascii.eqb Bool.eqb truthy].
    now destruct (says_yes line).
  - intros ->. unfold stepWelcome. destruct (inquirer W) eqn:Hui.
    + assert (Hp : prompt [confirm_question "proceed" (VBool true)] W
                   = Run (Return (VObj [("proceed", VBool true)])) (with_stdin rest W)
                         [Asked "proceed" (VBool true)]).
      { unfold prompt. rewrite Hui. cbn [inquirer_prompt].
        unfold bind, inquirer_ask, ret. cbv beta. rewrite Hin. reflexivity. }
      rewrite (bind_after _ _ _ _ _ _ Hp). reflexivity.
    + rewrite (bind_after _ _ _ _ _ _ (Hreadline eq_refl)). reflexivity.
Qed.



(** ** Steps that can be skipped *)

Lemma gated_cases (settled : jsval -> bool) (again : question) (stay : jsval -> bool)
    (choice : question) (skipped : jsval -> bool) (act : jsval -> M unit)
    (closing : question) (W : World) :
  let step := gated settled again stay choice skipped act closing in
  (exists l pre, went_on again stay pre /\ step W = Run Halt (with_stdin l W) pre)
  \/ (exists l v,
        stay v = true
        /\ step W = Run (Return tt) (with_stdin l W) [Asked (qname again) v])
  \/ (exists l pre a,
        went_on again stay pre /\ skipped a = true
        /\ step W = Run (Return tt) (with_stdin l W) (pre ++ [Asked (qname choice) a]))
  \/ (exists l pre a,
        went_on again stay pre /\ skipped a = false
        /\ step W = after (pre ++ [Asked (qname choice) a])
                      ((act a ;; prompt [closing] ;; ret tt) (with_stdin l W))).
Proof.
  cbv zeta. unfold gated.
  rewrite (bind_after (gets config) _ W W (config W) [] eq_refl), after_nil.
  cbv beta.
  set (rest := (answers <- prompt [choice] ;;
                if skipped (get answers (qname choice)) then ret tt
                else act (get answers (qname choice)) ;; prompt [closing] ;; ret tt)).
  assert (Hrest : forall W1,
    (exists l, rest W1 = Run Halt (with_stdin l W1) [])
    \/ (exists l a, skipped a = true
                    /\ rest W1 = Run (Return tt) (with_stdin l W1) [Asked (qname choice) a])
    \/ (exists l a, skipped a = false
                    /\ rest W1 = after [Asked (qname choice) a]
                                   ((act a ;; prompt [closing] ;; ret tt)
                                      (with_stdin l W1)))).
  { intros W1. subst rest. cbv beta.
    destruct (prompt_cases choice W1) as [[l H]|(a & l & H)].
    - left. exists l. exact (bind_Halt _ _ _ _ _ H).
    - right. rewrite (bind_after _ _ _ _ _ _ H). cbv beta.
      cbn [get lookup]. rewrite String.eqb_refl.
      destruct (skipped a) eqn:Hs.
      + left. exists l, a. split; [exact Hs|reflexivity].
      + right. exists l, a. split; [exact Hs|reflexivity]. }
  assert (Hchoose : forall l pre,
    went_on again stay pre ->
    (exists l0 pre0, went_on again stay pre0
                     /\ after pre (rest (with_stdin l W)) = Run Halt (with_stdin l0 W) pre0)
    \/ (exists l0 v, stay v = true
                     /\ after pre (rest (with_stdin l W))
                        = Run (Return tt) (with_stdin l0 W) [Asked (qname again) v])
    \/ (exists l0 pre0 a,
          went_on again stay pre0 /\ skipped a = true
          /\ after pre (rest (with_stdin l W))
             = Run (Return tt) (with_stdin l0 W) (pre0 ++ [Asked (qname choice) a]))
    \/ (exists l0 pre0 a,
          went_on again stay pre0 /\ skipped a = false
          /\ after pre (rest (with_stdin l W))
             = after (pre0 ++ [Asked (qname choice) a])
                 ((act a ;; prompt [closing] ;; ret tt) (with_stdin l0 W)))).
  { intros l pre Hpre.
    destruct (Hrest (with_stdin l W))
      as [[l' H]|[(l' & a & Hs & H)|(l' & a & Hs & H)]]; rewrite H.
    - left. exists l', pre. split; [exact Hpre|]. cbn. now rewrite app_nil_r.
    - right; right; left. exists l', pre, a. repeat split; auto.
    - right; right; right. exists l', pre, a. repeat split; auto.
      destruct ((act a ;; _) _) as [o W2 l2]. cbn.
      now rewrite <- app_assoc. }
  destruct (settled (config W)).
  - destruct (prompt_cases again W) as [[l H]|(v & l & H)].
    + left. exists l, []. split; [now left|].
      exact (bind_Halt _ _ _ _ _ (bind_Halt _ _ _ _ _ H)).
    + match goal with
      | |- context [bind (bind ?m ?k) ?K W] =>
          assert (H1 : bind m k W
                       = Run (Return (stay v)) (with_stdin l W) [Asked (qname again) v])
            by (rewrite (bind_after _ _ _ _ _ _ H); cbv beta; cbn [get lookup];
                rewrite String.eqb_refl; reflexivity);
          rewrite (bind_after _ K _ _ _ _ H1)
      end.
      destruct (stay v) eqn:Hk.
      * right; left. exists l, v. split; [exact Hk|reflexivity].
      * apply (Hchoose l [Asked (qname again) v]). right. eauto.
  - rewrite (bind_after (ret false) _ W W false [] eq_refl).
    pose proof (Hchoose (stdin W) [] (or_introl eq_refl)) as Hc.
    rewrite with_stdin_same in Hc. exact Hc.
Qed.

(** ** [stepInstallOpenClaw] *)

Section Installing.

Context (host : Machine).

Lemma stepInstallOpenClaw_gated :
  stepInstallOpenClaw host
  = gated (fun cfg => truthy (get cfg "installed"))
          (confirm_question "reinstall" (VBool false))
          (fun v => negb (truthy v))
          (list_question "installMethod" ["npm"; "yarn"; "pnpm"; "source"; "skip"]
             (VStr (js "npm")))
          (fun m => strict_eq m (VStr (js "skip")))
          (installWith host)
          (confirm_question "continue" (VBool true)).
Proof. reflexivity. Qed.

(** A command changes the files at most: it runs, or it throws. *)
Lemma runCommand_run (command : string) (options : run_options) (W : World) :
  exists o disk, runCommand host command options W
                 = Run o (with_files disk W) [Called "spawn" [VStr (js command)]].
Proof.
  unfold runCommand, bind, emit, gets, modify. cbv beta.
  cbn [out world log app].
  destruct (spawn host command (cwd options) (files W))
    as [left [e|[[[|p]|] printed]]];
    cbn; try destruct (ignoreError options); cbn; eauto.
Qed.

Lemma stdin_free_bind {A B} (m : M A) (k : A -> M B) :
  stdin_free m -> (forall a, stdin_free (k a)) -> stdin_free (bind m k).
Proof.
  intros Hm Hk l W. unfold bind. rewrite (Hm l W).
  destruct (m W) as [[a|e|] W1 l1]; cbn [out world log]; try reflexivity.
  rewrite (Hk a l W1). now destruct (k a W1).
Qed.

Lemma stdin_free_runCommand (command : string) (options : run_options) :
  stdin_free (runCommand host command options).
Proof.
  intros l W. unfold runCommand, bind, emit, gets, modify. cbv beta.
  cbn [out world log app files with_stdin].
  destruct (spawn host command (cwd options) (files W))
    as [left [e|[[[|p]|] printed]]];
    cbn; try destruct (ignoreError options); reflexivity.
Qed.

(** The commands of an installation do not read the input. *)
Lemma stdin_free_installCommands (m : jsval) : stdin_free (installCommands host m).
Proof.
  unfold installCommands. destruct (strict_eq m (VStr (js "source"))); cbv zeta.
  - repeat (apply stdin_free_bind; [apply stdin_free_runCommand|intros _]).
    apply stdin_free_runCommand.
  - apply stdin_free_runCommand.
Qed.

Lemma installCommands_run (m : jsval) (W : World) :
  exists o disk lc,
    installCommands host m W = Run o (with_files disk W) lc
    /\ Forall (fun e => called e = true) lc
    /\ (strict_eq m (VStr (js "source")) = false ->
        strict_eq m (VStr (js "npm")) = false ->
        strict_eq m (VStr (js "yarn")) = false ->
        lc = [Called "spawn" [VStr (js "pnpm add -g @openclaw/cli")]]).
Proof.
  unfold installCommands. destruct (strict_eq m (VStr (js "source"))).
  - cbv zeta.
    assert (Hseq : forall (c : string) (opts : run_options) (k : M jsstring),
              (forall W2, exists o disk lc,
                  k W2 = Run o (with_files disk W2) lc
                  /\ Forall (fun e => called e = true) lc) ->
              forall W1, exists o disk lc,
                (runCommand host c opts ;; k) W1 = Run o (with_files disk W1) lc
                /\ Forall (fun e => called e = true) lc).
    { intros c opts k Hk W1. destruct (runCommand_run c opts W1) as (o & disk & Ho).
      destruct o as [v|e|].
      - rewrite (bind_after _ _ _ _ _ _ Ho).
        destruct (Hk (with_files disk W1)) as (o2 & disk2 & lc & -> & Hlc).
        exists o2, disk2. eexists.
        split; [reflexivity|]. constructor; [reflexivity|exact Hlc].
      - rewrite (bind_Throw _ _ _ _ _ _ Ho). do 3 eexists.
        split; [reflexivity|repeat constructor].
      - rewrite (bind_Halt _ _ _ _ _ Ho). do 3 eexists.
        split; [reflexivity|repeat constructor]. }
    assert (Hlast : forall (c : string) (opts : run_options) W2,
              exists o disk lc,
                runCommand host c opts W2 = Run o (with_files disk W2) lc
                /\ Forall (fun e => called e = true) lc).
    { intros c opts W2. destruct (runCommand_run c opts W2) as (o & disk & Ho).
      exists o, disk. eexists. split; [exact Ho|repeat constructor]. }
    match goal with
    | |- context [bind (runCommand host ?c1 ?o1)
                    (fun _ => bind (runCommand host ?c2 ?o2)
                      (fun _ => bind (runCommand host ?c3 ?o3)
                        (fun _ => runCommand host ?c4 ?o4)))] =>
        destruct (Hseq c1 o1
                    (runCommand host c2 o2 ;; runCommand host c3 o3 ;;
                     runCommand host c4 o4)
                    (Hseq c2 o2 (runCommand host c3 o3 ;; runCommand host c4 o4)
                       (Hseq c3 o3 (runCommand host c4 o4) (Hlast c4 o4))) W)
          as (o & disk & lc & Hrun & Hlc)
    end.
    exists o, disk, lc. split; [exact Hrun|]. split; [exact Hlc|discriminate].
  - cbv zeta.
    destruct (strict_eq m (VStr (js "npm"))), (strict_eq m (VStr (js "yarn")));
      match goal with
      | |- context [runCommand host ?c ?opts W] =>
          destruct (runCommand_run c opts W) as (o & disk & Ho)
      end;
      exists o, disk; eexists; (split; [exact Ho|]);
      (split; [repeat constructor|]); intros; try discriminate; reflexivity.
Qed.

(** The [try] block: the commands change the files at most; when they
    succeeded the configuration is updated and saved, when one failed the
    failure is reported. *)
Lemma installWith_run (m : jsval) (W : World) :
  exists o disk lc,
    installCommands host m W = Run o (with_files disk W) lc
    /\ Forall (fun e => called e = true) lc
    /\ installWith host m W
       = match o with
         | Return _ =>
             Run (Return tt)
                 (with_files ((CONFIG_FILE, json (installed_config (config W) m))
                              :: disk)
                    (with_config (installed_config (config W) m) W))
                 (lc ++ [Wrote CONFIG_FILE (json (installed_config (config W) m))])
         | Throw e =>
             Run (Return tt) (with_files disk W)
                 (lc ++ [Reported ("Installation failed: " ++ e)])
         | Halt => Run Halt (with_files disk W) lc
         end.
Proof.
  destruct (installCommands_run m W) as (o & disk & lc & Hrun & Hlc & _).
  exists o, disk, lc. split; [exact Hrun|]. split; [exact Hlc|].
  unfold installWith, try, ensureDir.
  rewrite (bind_after (ret tt) _ W W tt [] eq_refl), after_nil.
  destruct o as [v|e|].
  - rewrite (bind_after _ _ _ _ _ _ Hrun). cbn. rewrite ?app_nil_r. reflexivity.
  - rewrite (bind_Throw _ _ _ _ _ _ Hrun). reflexivity.
  - rewrite (bind_Halt _ _ _ _ _ Hrun). reflexivity.
Qed.

End Installing.

Section InstallingRuns.

Context (host : Machine).

Lemma stepInstallOpenClaw_cases (W : World) :
  (Forall (fun e => asked e = true) (log (stepInstallOpenClaw host W))
   /\ (forall m, In (Asked "installMethod" m) (log (stepInstallOpenClaw host W)) ->
                 strict_eq m (VStr (js "skip")) = true)
   /\ exists l, world (stepInstallOpenClaw host W) = with_stdin l W)
  \/ (exists m o lc pre tail l1 l,
        strict_eq m (VStr (js "skip")) = false
        /\ installCommands host m W
           = Run o (with_files (files (world (installCommands host m W))) W) lc
        /\ Forall (fun e => called e = true) lc
        /\ Forall (fun e => exists v, e = Asked "reinstall" v) pre
        /\ Forall (fun e => exists v, e = Asked "continue" v) tail
        /\ log (stepInstallOpenClaw host W)
           = pre ++ Asked "installMethod" m
                    :: log (installWith host m (with_stdin l1 W)) ++ tail
        /\ world (stepInstallOpenClaw host W)
           = with_stdin l (world (installWith host m (with_stdin l1 W)))
        /\ installWith host m (with_stdin l1 W)
           = match o with
             | Return _ =>
                 Run (Return tt)
                     (with_files ((CONFIG_FILE, json (installed_config (config W) m))
                                  :: files (world (installCommands host m W)))
                        (with_config (installed_config (config W) m) (with_stdin l1 W)))
                     (lc ++ [Wrote CONFIG_FILE (json (installed_config (config W) m))])
             | Throw e =>
                 Run (Return tt)
                     (with_files (files (world (installCommands host m W)))
                        (with_stdin l1 W))
                     (lc ++ [Reported ("Installation failed: " ++ e)])
             | Halt =>
                 Run Halt
                     (with_files (files (world (installCommands host m W)))
                        (with_stdin l1 W)) lc
             end).
Proof.
  assert (Hpre : forall pre,
            went_on (confirm_question "reinstall" (VBool false))
                    (fun v => negb (truthy v)) pre ->
            Forall (fun e => exists v, e = Asked "reinstall" v) pre).
  { intros pre [->|(v & -> & _)]; repeat constructor. eauto. }
  rewrite stepInstallOpenClaw_gated.
  match goal with
  | |- context [gated ?s ?a ?st ?c ?sk ?act ?cl] =>
      destruct (gated_cases s a st c sk act cl W)
        as [(l & pre & Hp & H)|[(l & v & Hv & H)|[(l & pre & a' & Hp & Ha & H)
            |(l & pre & a' & Hp & Ha & H)]]];
      cbv zeta in H; rewrite H; clear H
  end.
  - left. cbn [log world]. apply Hpre in Hp. split; [|split; [|eauto]].
    + eapply Forall_impl; [|exact Hp]. now intros e [v ->].
    + intros m Hin. rewrite Forall_forall in Hp. destruct (Hp _ Hin) as [v Hv].
      discriminate.
  - left. cbn. split; [repeat constructor|]. split; [|eauto].
    intros m [Hin|[]]. discriminate.
  - left. cbn [log world]. apply Hpre in Hp. split; [|split; [|eauto]].
    + apply Forall_app. split; [|repeat constructor].
      eapply Forall_impl; [|exact Hp]. now intros e [v ->].
    + intros m Hin. apply in_app_or in Hin as [Hin|[Hin|[]]].
      * rewrite Forall_forall in Hp. destruct (Hp _ Hin) as [v Hv]. discriminate.
      * cbn in Hin. inversion Hin; subst. exact Ha.
  - right. apply Hpre in Hp.
    destruct (then_question (installWith host a')
                (confirm_question "continue" (VBool true)) (with_stdin l W))
      as (l' & tail & Hlog & Hworld & Htail & _).
    destruct (installWith_run host a' (with_stdin l W))
      as (o & disk & lc & Hrun & Hlc & Hwith).
    pose proof (stdin_free_installCommands host a' l W) as Hfree.
    rewrite Hrun in Hfree.
    assert (Ho : out (installCommands host a' W) = o) by congruence.
    assert (Hl : log (installCommands host a' W) = lc) by congruence.
    assert (Hd : files (world (installCommands host a' W)) = disk).
    { assert (Hw : with_files disk (with_stdin l W)
                   = with_stdin l (world (installCommands host a' W))) by congruence.
      change disk with (files (with_files disk (with_stdin l W))). now rewrite Hw. }
    assert (Hrun0 : installCommands host a' W
                    = Run o (with_files disk W) lc).
    { destruct (installCommands_run host a' W) as (o0 & disk0 & lc0 & H0 & _).
      rewrite H0 in Ho, Hl, Hd. cbn [out world log files with_files] in Ho, Hl, Hd.
      now rewrite H0, Ho, Hl, Hd. }
    exists a', o, lc, pre, tail, l, l'.
    rewrite log_after, world_after, Hlog, Hworld, Hd.
    split; [exact Ha|]. split; [exact Hrun0|]. split; [exact Hlc|].
    split; [exact Hp|]. split; [exact Htail|].
    split; [now rewrite <- app_assoc|]. split; [reflexivity|exact Hwith].
Qed.

(** X15: an installation that reports a failure is not recorded: the
    wizard has written no file of its own (config.json is not rewritten) and
    has left the configuration as it was, so OpenClaw is not marked as
    installed; the failure is that of the commands of the chosen method, the
    disk is as they left it, and what they did before one of them failed is
    not undone.  (Writing itself does not fail here: [writeFile] always
    succeeds; and the directory [ensureDir] may have made is not part of the
    state.) *)
Theorem failed_installation_is_not_recorded (W : World) (msg : string) :
  In (Reported msg) (log (stepInstallOpenClaw host W)) ->
  Forall (fun e => wrote e = false) (log (stepInstallOpenClaw host W))
  /\ config (world (stepInstallOpenClaw host W)) = config W
  /\ exists m e,
       In (Asked "installMethod" m) (log (stepInstallOpenClaw host W))
       /\ out (installCommands host m W) = Throw e
       /\ msg = ("Installation failed: " ++ e)%string
       /\ files (world (stepInstallOpenClaw host W))
          = files (world (installCommands host m W)).
Proof.
  intros Hin.
  destruct (stepInstallOpenClaw_cases W)
    as [(Hasked & _ & _)
       |(m & o & lc & pre & tail & l1 & l & Hm & Hrun & Hlc & Hpre & Htail
         & Hlog & Hworld & Hwith)].
  { rewrite Forall_forall in Hasked. now specialize (Hasked _ Hin). }
  rewrite Hlog, Hworld in *. rewrite Hwith in *.
  assert (Hquiet : forall l0, Forall (fun e => called e = true) l0 ->
                              Forall (fun e => wrote e = false) l0
                              /\ ~ In (Reported msg) l0).
  { intros l0 H0. split.
    - eapply Forall_impl; [|exact H0]. now intros [].
    - intros Hr. rewrite Forall_forall in H0. now specialize (H0 _ Hr). }
  assert (Hq : forall name l0, Forall (fun e => exists v, e = Asked name v) l0 ->
                               Forall (fun e => wrote e = false) l0
                               /\ ~ In (Reported msg) l0).
  { intros name l0 H0. split.
    - eapply Forall_impl; [|exact H0]. now intros e [v ->].
    - intros Hr. rewrite Forall_forall in H0. destruct (H0 _ Hr) as [v Hv].
      discriminate. }
  destruct (Hquiet lc Hlc) as [Hlcw Hlcr].
  destruct (Hq _ pre Hpre) as [Hprew Hprer].
  destruct (Hq _ tail Htail) as [Htailw Htailr].
  destruct o as [v|e|]; cbn [log world config files with_stdin with_files] in *.
  - exfalso. apply in_app_or in Hin as [Hin|[Hin|Hin]]; [now apply Hprer|discriminate|].
    apply in_app_or in Hin as [Hin|Hin]; [|now apply Htailr].
    apply in_app_or in Hin as [Hin|[Hin|[]]]; [now apply Hlcr|discriminate].
  - split; [|split; [reflexivity|]].
    + apply Forall_app. split; [exact Hprew|]. constructor; [reflexivity|].
      apply Forall_app. split; [|exact Htailw].
      apply Forall_app. split; [exact Hlcw|repeat constructor].
    + exists m, e. split; [apply in_or_app; right; now left|].
      split; [now rewrite Hrun|]. split; [|reflexivity].
      apply in_app_or in Hin as [Hin|[Hin|Hin]]; [now destruct Hprer|discriminate|].
      apply in_app_or in Hin as [Hin|Hin]; [|now destruct Htailr].
      apply in_app_or in Hin as [Hin|[Hin|[]]]; [now destruct Hlcr|].
      now inversion Hin.
  - exfalso. apply in_app_or in Hin as [Hin|[Hin|Hin]]; [now apply Hprer|discriminate|].
    apply in_app_or in Hin as [Hin|Hin]; [now apply Hlcr|now apply Htailr].
Qed.

(** X16: whatever the installation step itself writes is config.json,
    written once, on top of what the commands of the chosen method left on
    disk, after they succeeded and with no failure reported: the
    configuration then has [installed] true and [installMethod] as it was
    answered, and the file holds what [JSON.stringify] keeps of it.  (The
    directory [ensureDir] may have made is not part of the state.) *)
Theorem installation_is_recorded_on_success (W : World) (path : string) (doc : jsval) :
  In (Wrote path doc) (log (stepInstallOpenClaw host W)) ->
  exists m,
    In (Asked "installMethod" m) (log (stepInstallOpenClaw host W))
    /\ (exists output, out (installCommands host m W) = Return output)
    /\ config (world (stepInstallOpenClaw host W)) = installed_config (config W) m
    /\ path = CONFIG_FILE
    /\ doc = json (installed_config (config W) m)
    /\ filter wrote (log (stepInstallOpenClaw host W)) = [Wrote CONFIG_FILE doc]
    /\ files (world (stepInstallOpenClaw host W))
       = (CONFIG_FILE, doc) :: files (world (installCommands host m W))
    /\ forall msg, ~ In (Reported msg) (log (stepInstallOpenClaw host W)).
Proof.
  intros Hin.
  destruct (stepInstallOpenClaw_cases W)
    as [(Hasked & _ & _)
       |(m & o & lc & pre & tail & l1 & l & Hm & Hrun & Hlc & Hpre & Htail
         & Hlog & Hworld & Hwith)].
  { rewrite Forall_forall in Hasked. now specialize (Hasked _ Hin). }
  rewrite Hlog, Hworld in *. rewrite Hwith in *. clear Hlog Hworld Hwith.
  assert (Hq : forall name l0 e, Forall (fun e => exists v, e = Asked name v) l0 ->
                                 In e l0 -> asked e = true).
  { intros name l0 e H0 He. rewrite Forall_forall in H0.
    now destruct (H0 _ He) as [v ->]. }
  assert (Hqw : forall name l0, Forall (fun e => exists v, e = Asked name v) l0 ->
                                filter wrote l0 = []).
  { intros name l0 H0. induction H0 as [|e l0 [v ->] _ IH]; [reflexivity|exact IH]. }
  assert (Hcw : filter wrote lc = []).
  { clear -Hlc. induction Hlc as [|e l0 He _ IH]; [reflexivity|].
    destruct e; try discriminate. exact IH. }
  assert (Hc : forall e, In e lc -> called e = true)
    by (now apply Forall_forall).
  exists m. split; [apply in_or_app; right; now left|].
  destruct o as [v|e|]; cbn [log world config files with_stdin with_files with_config] in *.
  - apply in_app_or in Hin as [Hin|[Hin|Hin]];
      [now apply (Hq _ _ _ Hpre) in Hin|discriminate|].
    apply in_app_or in Hin as [Hin|Hin]; [|now apply (Hq _ _ _ Htail) in Hin].
    apply in_app_or in Hin as [Hin|[Hin|[]]]; [now apply Hc in Hin|].
    inversion Hin; subst.
    split; [exists v; now rewrite Hrun|].
    split; [reflexivity|]. split; [reflexivity|]. split; [reflexivity|].
    split.
    { rewrite filter_app, (Hqw _ _ Hpre). cbn [filter wrote app].
      rewrite !filter_app, Hcw, (Hqw _ _ Htail). reflexivity. }
    split; [reflexivity|].
    intros msg Hr.
    apply in_app_or in Hr as [Hr|[Hr|Hr]];
      [now apply (Hq _ _ _ Hpre) in Hr|discriminate|].
    apply in_app_or in Hr as [Hr|Hr]; [|now apply (Hq _ _ _ Htail) in Hr].
    apply in_app_or in Hr as [Hr|[Hr|[]]]; [now apply Hc in Hr|discriminate].
  - exfalso.
    apply in_app_or in Hin as [Hin|[Hin|Hin]];
      [now apply (Hq _ _ _ Hpre) in Hin|discriminate|].
    apply in_app_or in Hin as [Hin|Hin]; [|now apply (Hq _ _ _ Htail) in Hin].
    apply in_app_or in Hin as [Hin|[Hin|[]]]; [now apply Hc in Hin|discriminate].
  - exfalso.
    apply in_app_or in Hin as [Hin|[Hin|Hin]];
      [now apply (Hq _ _ _ Hpre) in Hin|discriminate|].
    apply in_app_or in Hin as [Hin|Hin];
      [now apply Hc in Hin|now apply (Hq _ _ _ Htail) in Hin].
Qed.

(** X17: every installation method other than 'skip', 'source', 'npm' and
    'yarn' is installed with pnpm: for 'pnpm' itself, and for any other text
    (the readline fallback takes whatever is typed, such as the number of a
    menu entry), the one command the step runs is
    'pnpm add -g @openclaw/cli'. *)
Theorem other_methods_are_installed_with_pnpm (W : World) (m : jsval) :
  In (Asked "installMethod" m) (log (stepInstallOpenClaw host W)) ->
  strict_eq m (VStr (js "skip")) = false ->
  strict_eq m (VStr (js "source")) = false ->
  strict_eq m (VStr (js "npm")) = false ->
  strict_eq m (VStr (js "yarn")) = false ->
  filter called (log (stepInstallOpenClaw host W))
  = [Called "spawn" [VStr (js "pnpm add -g @openclaw/cli")]].
Proof.
  intros Hin Hskip Hsource Hnpm Hyarn.
  destruct (stepInstallOpenClaw_cases W)
    as [(_ & Hskipped & _)
       |(m' & o & lc & pre & tail & l1 & l & Hm & Hrun & Hlc & Hpre & Htail
         & Hlog & Hworld & Hwith)].
  { rewrite (Hskipped m Hin) in Hskip. discriminate. }
  rewrite Hlog in *. clear Hlog Hworld.
  assert (Hq : forall name l0, Forall (fun e => exists v, e = Asked name v) l0 ->
                               filter called l0 = []).
  { intros name l0 H0. induction H0 as [|e l0 [v ->] _ IH]; [reflexivity|exact IH]. }
  assert (m' = m).
  { apply in_app_or in Hin as [Hin|[Hin|Hin]].
    - rewrite Forall_forall in Hpre. destruct (Hpre _ Hin) as [v Hv]. discriminate.
    - now inversion Hin.
    - exfalso. apply in_app_or in Hin as [Hin|Hin].
      + rewrite Hwith in Hin. rewrite Forall_forall in Hlc.
        destruct o; cbn [log] in Hin;
          try (apply in_app_or in Hin as [Hin|[Hin|[]]]; [|discriminate]);
          now specialize (Hlc _ Hin).
      + rewrite Forall_forall in Htail. destruct (Htail _ Hin) as [v Hv]. discriminate. }
  subst m'.
  destruct (installCommands_run host m W) as (o' & disk' & lc' & Hrun' & _ & Hpnpm).
  rewrite Hrun in Hrun'. inversion Hrun'; subst o' lc'.
  specialize (Hpnpm Hsource Hnpm Hyarn). subst lc.
  rewrite filter_app, (Hq _ _ Hpre). cbn [filter called app].
  rewrite filter_app, (Hq _ _ Htail), app_nil_r. rewrite Hwith.
  destruct o; reflexivity.
Qed.

End InstallingRuns.

(** ** Merging objects *)

Lemma lookup_assign (k k' : string) (v : jsval) (fs : list (string * jsval)) :
  lookup k (assign k' v fs) = if String.eqb k k' then v else lookup k fs.
Proof.
  induction fs as [|[k0 v0] fs IH]; cbn.
  - reflexivity.
  - destruct (String.eqb k' k0) eqn:E0; cbn.
    + apply String.eqb_eq in E0. subst k0. now destruct (String.eqb k k').
    + destruct (String.eqb k k0) eqn:E1.
      * apply String.eqb_eq in E1. subst k0.
        rewrite String.eqb_sym in E0. now rewrite E0.
      * exact IH.
Qed.

Lemma keys_assign (k : string) (v : jsval) (fs : list (string * jsval)) (x : string) :
  In x (map fst (assign k v fs)) <-> x = k \/ In x (map fst fs).
Proof.
  induction fs as [|[k0 v0] fs IH]; cbn.
  - intuition.
  - destruct (String.eqb k k0) eqn:E0; cbn.
    + apply String.eqb_eq in E0. subst k0. intuition.
    + rewrite IH. intuition.
Qed.

Lemma NoDup_assign (k : string) (v : jsval) (fs : list (string * jsval)) :
  NoDup (map fst fs) -> NoDup (map fst (assign k v fs)).
Proof.
  induction fs as [|[k0 v0] fs IH]; cbn; intros Hnd.
  - repeat constructor. intros [].
  - inversion Hnd as [|? ? Hnot Hrest]; subst.
    destruct (String.eqb k k0) eqn:E0; cbn.
    + apply String.eqb_eq in E0. subst k0. now constructor.
    + constructor; [|now apply IH].
      rewrite keys_assign. intros [->|H]; [|contradiction].
      now rewrite String.eqb_refl in E0.
Qed.

Lemma lookup_fold_assign (ps acc : list (string * jsval)) (k : string) :
  NoDup (map fst ps) ->
  lookup k (fold_left (fun fs kv => assign (fst kv) (snd kv) fs) ps acc)
  = if existsb (String.eqb k) (map fst ps) then lookup k ps else lookup k acc.
Proof.
  revert acc. induction ps as [|[k0 v0] ps IH]; intros acc Hnd; [reflexivity|].
  inversion Hnd as [|? ? Hnot Hrest]; subst.
  cbn [fold_left fst snd map existsb lookup]. rewrite IH by exact Hrest.
  destruct (String.eqb k k0) eqn:E0; cbn [orb].
  - apply String.eqb_eq in E0. subst k0.
    destruct (existsb (String.eqb k) (map fst ps)) eqn:Ex.
    + apply existsb_exists in Ex as (x & Hx & Heq).
      apply String.eqb_eq in Heq. subst x. contradiction.
    + rewrite lookup_assign. now rewrite String.eqb_refl.
  - destruct (existsb (String.eqb k) (map fst ps)); [reflexivity|].
    rewrite lookup_assign. now rewrite E0.
Qed.

Lemma keys_fold_assign (ps acc : list (string * jsval)) (x : string) :
  In x (map fst (fold_left (fun fs kv => assign (fst kv) (snd kv) fs) ps acc))
  <-> In x (map fst ps) \/ In x (map fst acc).
Proof.
  revert acc. induction ps as [|[k0 v0] ps IH]; intros acc; cbn [fold_left map fst snd].
  - cbn. intuition.
  - rewrite IH, keys_assign. cbn. intuition.
Qed.

Lemma NoDup_fold_assign (ps acc : list (string * jsval)) :
  NoDup (map fst acc) ->
  NoDup (map fst (fold_left (fun fs kv => assign (fst kv) (snd kv) fs) ps acc)).
Proof.
  revert acc. induction ps as [|[k0 v0] ps IH]; intros acc Hnd; [exact Hnd|].
  cbn [fold_left]. apply IH. now apply NoDup_assign.
Qed.

(** [{ ...a, ...b }] of two objects: what [b] has, and of [a] what [b] has
    not. *)
Lemma get_spread (fa fb : list (string * jsval)) (k : string) :
  NoDup (map fst fa) -> NoDup (map fst fb) ->
  get (spread (VObj fa) (VObj fb)) k
  = if existsb (String.eqb k) (map fst fb) then lookup k fb else lookup k fa.
Proof.
  intros Ha Hb. unfold spread. cbn [own_props get].
  rewrite fold_left_app, lookup_fold_assign by exact Hb.
  destruct (existsb (String.eqb k) (map fst fb)); [reflexivity|].
  rewrite lookup_fold_assign by exact Ha.
  destruct (existsb (String.eqb k) (map fst fa)) eqn:Ex; [reflexivity|].
  cbn. symmetry. apply lookup_absent. intros Hin.
  assert (existsb (String.eqb k) (map fst fa) = true); [|congruence].
  apply existsb_exists. exists k. split; [exact Hin|apply String.eqb_refl].
Qed.

Lemma json_keys (fs r : list (string * jsval)) (k : string) :
  json (VObj fs) = VObj r -> In k (map fst r) -> In k (map fst fs).
Proof.
  revert r. induction fs as [|[k0 v0] fs IH]; intros r Hr Hin.
  - cbn in Hr. injection Hr as <-. contradiction.
  - rewrite json_cons in Hr. destruct (json_obj fs) as [r' Hr'].
    rewrite Hr' in Hr. pose proof (IH r' Hr') as Hrest.
    cbn [map fst].
    destruct v0; injection Hr as <-; cbn [map fst] in Hin;
      try (destruct Hin as [<-|Hin]; [now left|right; now apply Hrest]).
    right. now apply Hrest.
Qed.

Lemma json_NoDup (fs r : list (string * jsval)) :
  NoDup (map fst fs) -> json (VObj fs) = VObj r -> NoDup (map fst r).
Proof.
  revert r. induction fs as [|[k0 v0] fs IH]; intros r Hnd Hr.
  - cbn in Hr. injection Hr as <-. constructor.
  - inversion Hnd as [|? ? Hnot Hrest]; subst.
    rewrite json_cons in Hr. destruct (json_obj fs) as [r' Hr'].
    rewrite Hr' in Hr. pose proof (IH r' Hrest Hr') as Hr0.
    destruct v0; injection Hr as <-; try exact Hr0;
      (constructor; [|exact Hr0]); intros Hin; apply Hnot;
      now apply (json_keys fs r').
Qed.

Lemma json_undefined (v : jsval) : json v = VUndefined -> v = VUndefined.
Proof. destruct v; cbn; congruence. Qed.

(** ** [loadConfig] and [saveConfig] *)

(** X18: [loadConfig] lays the file over the configuration: a property the
    file has takes the file's value, a property the file lacks keeps the value
    it had.  Nothing is written. *)
Theorem loadConfig_keeps_what_the_file_lacks (W : World)
    (defaults stored : list (string * jsval)) (k : string) :
  config W = VObj defaults -> NoDup (map fst defaults) ->
  find_file CONFIG_FILE (files W) = Some (VObj stored) -> NoDup (map fst stored) ->
  out (loadConfig W) = Return tt
  /\ log (loadConfig W) = []
  /\ files (world (loadConfig W)) = files W
  /\ get (config (world (loadConfig W))) k
     = if existsb (String.eqb k) (map fst stored) then lookup k stored
       else lookup k defaults.
Proof.
  intros Hcfg Hd Hfile Hs. unfold loadConfig.
  rewrite (bind_after (gets files) _ W W (files W) [] eq_refl), after_nil.
  cbv beta. rewrite Hfile. cbn [parses modify out world log with_config config files].
  repeat split. rewrite Hcfg. now apply get_spread.
Qed.

(** X19: a configuration file that is missing, or whose text does not
    parse, leaves the configuration exactly as it was: [loadConfig] returns
    without a change to the world, and it does not throw. *)
Theorem loadConfig_survives_a_bad_file (W : World) :
  (find_file CONFIG_FILE (files W) = None
   \/ exists doc, find_file CONFIG_FILE (files W) = Some doc /\ parses doc = false) ->
  loadConfig W = Run (Return tt) W [].
Proof.
  intros H. unfold loadConfig.
  rewrite (bind_after (gets files) _ W W (files W) [] eq_refl), after_nil.
  cbv beta. destruct H as [->|(doc & -> & ->)]; reflexivity.
Qed.

Lemma find_file_head (path : string) (doc : jsval) (fs : list (string * jsval)) :
  find_file path ((path, doc) :: fs) = Some doc.
Proof. cbn. now rewrite String.eqb_refl. Qed.

(** X20: saving the configuration and loading it again gives every
    property the value [JSON.stringify] kept of it: what was [undefined] stays
    [undefined], everything else reads back as it was written. *)
Theorem saved_configuration_loads_back (W : World) (fields : list (string * jsval))
    (k : string) :
  config W = VObj fields -> NoDup (map fst fields) ->
  get (config (world (loadConfig (world (saveConfig W))))) k
  = json (get (config W) k).
Proof.
  intros Hcfg Hnd.
  assert (Hsave : world (saveConfig W)
                  = with_files ((CONFIG_FILE, json (config W)) :: files W) W)
    by reflexivity.
  rewrite Hsave. unfold loadConfig.
  match goal with
  | |- context [bind (gets files) ?f ?W1] =>
      rewrite (bind_after (gets files) f W1 W1 (files W1) [] eq_refl), after_nil
  end.
  cbv beta. cbn [files with_files]. rewrite find_file_head.
  rewrite Hcfg. destruct (json_obj fields) as [stored Hstored]. rewrite Hstored.
  cbn [parses modify out world log with_config config with_files get].
  rewrite ?Hcfg.
  rewrite get_spread by (try exact Hnd; now apply (json_NoDup fields)).
  pose proof (get_json fields k Hnd) as Hget. rewrite Hstored in Hget. cbn [get] in Hget.
  destruct (existsb (String.eqb k) (map fst stored)) eqn:Ex; [exact Hget|].
  assert (Hundef : lookup k stored = VUndefined).
  { apply lookup_absent. intros Hin.
    assert (existsb (String.eqb k) (map fst stored) = true); [|congruence].
    apply existsb_exists. exists k. split; [exact Hin|apply String.eqb_refl]. }
  rewrite Hundef in Hget. symmetry in Hget. apply json_undefined in Hget.
  now rewrite Hget.
Qed.

(** ** The preferences: [stepOnboarding] and [stepFinalConfiguration] *)

Lemma readline_prompt_returns (questions : list question) :
  forall (acc : list (string * jsval)) (W : World),
    NoDup (map fst acc) ->
    exists o l lg,
      readline_prompt questions (VObj acc) W = Run o (with_stdin l W) lg
      /\ Forall (fun e => asked e = true) lg
      /\ match o with
         | Return answers =>
             exists fs, answers = VObj fs /\ NoDup (map fst fs)
                        /\ forall k, In k (map fst fs) ->
                                     In k (map qname questions) \/ In k (map fst acc)
         | Throw _ => False
         | Halt => True
         end.
Proof.
  induction questions as [|q questions IH]; intros acc W Hnd.
  - exists (Return (VObj acc)), (stdin W), []. rewrite with_stdin_same.
    split; [reflexivity|]. split; [constructor|]. exists acc. auto.
  - cbn [readline_prompt]. unfold bind, read_line, emit. cbv beta.
    destruct (stdin W) as [|line lines] eqn:Hin.
    + exists Halt, (stdin W), []. rewrite with_stdin_same. repeat split. constructor.
    + cbn [set].
      destruct (IH (assign (qname q) (readline_answer q line) acc) (with_stdin lines W)
                  (NoDup_assign _ _ _ Hnd)) as (o & l & lg & Hrun & Hlg & Ho).
      rewrite Hrun. exists o, l, (Asked (qname q) (readline_answer q line) :: lg).
      split; [reflexivity|]. split; [now constructor|].
      destruct o as [answers|e|]; auto.
      destruct Ho as (fs & -> & Hfs & Hkeys). exists fs. repeat split; auto.
      intros k Hk. destruct (Hkeys k Hk) as [H|H]; [left; now right|].
      apply keys_assign in H as [->|H]; [left; now left|now right].
Qed.

Lemma inquirer_prompt_returns (questions : list question) :
  forall (acc : list (string * jsval)) (W : World),
    NoDup (map fst acc) ->
    exists o l lg,
      inquirer_prompt questions (VObj acc) W = Run o (with_stdin l W) lg
      /\ Forall (fun e => asked e = true) lg
      /\ match o with
         | Return answers =>
             exists fs, answers = VObj fs /\ NoDup (map fst fs)
                        /\ forall k, In k (map fst fs) ->
                                     In k (map qname questions) \/ In k (map fst acc)
         | Throw _ => False
         | Halt => True
         end.
Proof.
  induction questions as [|q questions IH]; intros acc W Hnd.
  - exists (Return (VObj acc)), (stdin W), []. rewrite with_stdin_same.
    split; [reflexivity|]. split; [constructor|]. exists acc. auto.
  - cbn [inquirer_prompt]. unfold bind, inquirer_ask. cbv beta.
    destruct (inquire q (stdin W)) as [[v more]|] eqn:Hin.
    + cbn [set].
      destruct (IH (assign (qname q) v acc) (with_stdin more W)
                  (NoDup_assign _ _ _ Hnd)) as (o & l & lg & Hrun & Hlg & Ho).
      rewrite Hrun. exists o, l, (Asked (qname q) v :: lg).
      split; [reflexivity|]. split; [now constructor|].
      destruct o as [answers|e|]; auto.
      destruct Ho as (fs & -> & Hfs & Hkeys). exists fs. repeat split; auto.
      intros k Hk. destruct (Hkeys k Hk) as [H|H]; [left; now right|].
      apply keys_assign in H as [->|H]; [left; now left|now right].
    + exists Halt, [], []. repeat split. constructor.
Qed.

(** Several questions: never all answered, or an object whose properties
    are named after the questions. *)
Lemma prompt_returns (questions : list question) (W : World) :
  (exists l lg,
     prompt questions W = Run Halt (with_stdin l W) lg
     /\ Forall (fun e => asked e = true) lg)
  \/ (exists fs l lg,
        prompt questions W = Run (Return (VObj fs)) (with_stdin l W) lg
        /\ Forall (fun e => asked e = true) lg
        /\ NoDup (map fst fs)
        /\ forall k, In k (map fst fs) -> In k (map qname questions)).
Proof.
  assert (Hnil : NoDup (map fst (@nil (string * jsval)))) by constructor.
  unfold prompt. destruct (inquirer W).
  - destruct (inquirer_prompt_returns questions [] W Hnil) as (o & l & lg & Hrun & Hlg & Ho).
    rewrite Hrun. destruct o as [answers|e|]; [|contradiction|left; eauto].
    destruct Ho as (fs & -> & Hfs & Hkeys). right. exists fs, l, lg.
    repeat split; auto. intros k Hk. now destruct (Hkeys k Hk).
  - destruct (readline_prompt_returns questions [] W Hnil) as (o & l & lg & Hrun & Hlg & Ho).
    rewrite Hrun. destruct o as [answers|e|]; [|contradiction|left; eauto].
    destruct Ho as (fs & -> & Hfs & Hkeys). right. exists fs, l, lg.
    repeat split; auto. intros k Hk. now destruct (Hkeys k Hk).
Qed.

Lemma modify_run (f : World -> World) (W : World) :
  modify f W = Run (Return tt) (f W) [].
Proof. reflexivity. Qed.

Lemma saveConfig_run (W : World) :
  saveConfig W
  = Run (Return tt) (with_files ((CONFIG_FILE, json (config W)) :: files W) W)
        [Wrote CONFIG_FILE (json (config W))].
Proof. reflexivity. Qed.

Lemma get_object (o : jsval) (k : string) (fs : list (string * jsval)) :
  get o k = VObj fs -> exists fields, o = VObj fields.
Proof. destruct o; cbn; try discriminate. eauto. Qed.

(** Merging answers into the preferences keeps what was not asked. *)
Lemma merged_preferences (cfg : jsval) (prefs answers : list (string * jsval))
    (names : list string) (k : string) :
  get cfg "preferences" = VObj prefs ->
  NoDup (map fst prefs) -> NoDup (map fst answers) ->
  (forall x, In x (map fst answers) -> In x names) ->
  ~ In k names ->
  get (get (set cfg "preferences" (spread (get cfg "preferences") (VObj answers)))
           "preferences") k
  = lookup k prefs.
Proof.
  intros Hprefs Hp Ha Hnames Hk.
  destruct (get_object _ _ _ Hprefs) as [fields ->].
  rewrite get_set_same, Hprefs, get_spread by assumption.
  destruct (existsb (String.eqb k) (map fst answers)) eqn:Ex; [|reflexivity].
  apply existsb_exists in Ex as (x & Hx & Heq). apply String.eqb_eq in Heq. subst x.
  destruct (Hk (Hnames _ Hx)).
Qed.

Section Preferences.

Context (host : Machine).

Lemma stepOnboarding_unfold :
  stepOnboarding host
  = (cfg <- gets config ;;
     skip <- (if truthy (get cfg "onboardingComplete") then
                member (get cfg "preferences") "userName" ;;
                member (get cfg "preferences") "mode" ;;
                answers <- prompt [confirm_question "redo" (VBool false)] ;;
                ret (negb (truthy (get answers "redo")))
              else ret false) ;;
     if skip : bool then ret tt else onboard host).
Proof. reflexivity. Qed.

(** The questions and the merge, for preferences that are an object. *)
Lemma onboard_run (W : World) (prefs : list (string * jsval)) :
  get (config W) "preferences" = VObj prefs ->
  (exists l lg,
     onboard host W = Run Halt (with_stdin l W) lg
     /\ Forall (fun e => asked e = true) lg)
  \/ (exists answers l' lg tail o,
        NoDup (map fst answers)
        /\ (forall k, In k (map fst answers) ->
                      In k ["userName"; "mode"; "telemetry"; "newsletter"])
        /\ Forall (fun e => asked e = true) lg
        /\ Forall (fun e => asked e = true) tail
        /\ onboard host W
           = Run o
               (with_files
                  ((CONFIG_FILE, json (onboarded_config (config W) (VObj answers)))
                   :: files W)
                  (with_config (onboarded_config (config W) (VObj answers))
                     (with_stdin l' W)))
               (lg ++ Wrote CONFIG_FILE
                        (json (onboarded_config (config W) (VObj answers))) :: tail)).
Proof.
  intros Hprefs. unfold onboard.
  rewrite (bind_after (gets config) _ W W (config W) [] eq_refl), after_nil.
  cbv beta. rewrite Hprefs.
  repeat (match goal with
          | |- context [bind (member (VObj prefs) ?k) ?f W] =>
              rewrite (bind_after (member (VObj prefs) k) f W W (lookup k prefs) []
                         eq_refl), after_nil; cbv beta
          end).
  match goal with
  | |- context [prompt ?qs] =>
      destruct (prompt_returns qs W)
        as [(l & lg & Hrun & Hlg)|(fs & l & lg & Hrun & Hlg & Hnd & Hkeys)]
  end.
  - left. exists l, lg. rewrite (bind_Halt _ _ _ _ _ Hrun). split; [reflexivity|exact Hlg].
  - right. rewrite (bind_after _ _ _ _ _ _ Hrun).
    rewrite (bind_after _ _ _ _ _ _ (modify_run _ _)), after_nil.
    rewrite (bind_after _ _ _ _ _ _ (modify_run _ _)), after_nil.
    rewrite (bind_after _ _ _ _ _ _ (saveConfig_run _)).
    match goal with
    | |- context [bind (prompt [?q]) ?k ?W3] =>
        destruct (prompt_cases q W3) as [[l' H]|(v & l' & H)]
    end.
    + exists fs, l', lg, [], Halt. split; [exact Hnd|]. split; [exact Hkeys|].
      split; [exact Hlg|]. split; [constructor|].
      rewrite (bind_Halt _ _ _ _ _ H). reflexivity.
    + exists fs, l', lg, [Asked "continue" v], (Return tt).
      split; [exact Hnd|]. split; [exact Hkeys|].
      split; [exact Hlg|]. split; [repeat constructor|].
      rewrite (bind_after _ _ _ _ _ _ H). reflexivity.
Qed.

End Preferences.

Section PreferenceClaims.

Context (host : Machine).

Lemma onboarded_preferences (cfg : jsval) (prefs answers : list (string * jsval))
    (k : string) :
  get cfg "preferences" = VObj prefs ->
  NoDup (map fst prefs) -> NoDup (map fst answers) ->
  (forall x, In x (map fst answers) ->
             In x ["userName"; "mode"; "telemetry"; "newsletter"]) ->
  get (onboarded_config cfg (VObj answers)) "onboardingComplete" = VBool true
  /\ (~ In k ["userName"; "mode"; "telemetry"; "newsletter"] ->
      get (get (onboarded_config cfg (VObj answers)) "preferences") k = lookup k prefs).
Proof.
  intros Hprefs Hp Ha Hnames. unfold onboarded_config.
  destruct (get_object _ _ _ Hprefs) as [fields Hcfg].
  split.
  - rewrite Hcfg. destruct (set_is_object fields "preferences"
                              (spread (get (VObj fields) "preferences") (VObj answers)))
      as [fs' ->].
    apply get_set_same.
  - intros Hk. rewrite get_set_other by discriminate.
    now apply (merged_preferences cfg prefs answers
                 ["userName"; "mode"; "telemetry"; "newsletter"]).
Qed.

(** X21: when onboarding writes the configuration, the file holds the
    configuration as it then is, [onboardingComplete] is true, and every
    preference other than the four that were asked for has the value it had:
    the answers are merged into the preferences, not put in their place. *)
Theorem onboarding_keeps_other_preferences (W : World)
    (prefs : list (string * jsval)) (path : string) (doc : jsval) :
  get (config W) "preferences" = VObj prefs ->
  NoDup (map fst prefs) ->
  In (Wrote path doc) (log (stepOnboarding host W)) ->
  path = CONFIG_FILE
  /\ doc = json (config (world (stepOnboarding host W)))
  /\ get (config (world (stepOnboarding host W))) "onboardingComplete" = VBool true
  /\ forall k, ~ In k ["userName"; "mode"; "telemetry"; "newsletter"] ->
       get (get (config (world (stepOnboarding host W))) "preferences") k
       = lookup k prefs.
Proof.
  intros Hprefs Hnd.
  assert (Hbody : forall l pre,
            Forall (fun e => asked e = true) pre ->
            In (Wrote path doc) (log (after pre (onboard host (with_stdin l W)))) ->
            path = CONFIG_FILE
            /\ doc = json (config (world (after pre (onboard host (with_stdin l W)))))
            /\ get (config (world (after pre (onboard host (with_stdin l W)))))
                   "onboardingComplete" = VBool true
            /\ forall k, ~ In k ["userName"; "mode"; "telemetry"; "newsletter"] ->
                 get (get (config (world (after pre (onboard host (with_stdin l W)))))
                          "preferences") k
                 = lookup k prefs).
  { intros l pre Hpre. rewrite log_after, world_after.
    assert (Hnot : forall l0, Forall (fun e => asked e = true) l0 ->
                              ~ In (Wrote path doc) l0).
    { intros l0 H0 Hin. rewrite Forall_forall in H0. now specialize (H0 _ Hin). }
    destruct (onboard_run host (with_stdin l W) prefs Hprefs)
      as [(l' & lg & -> & Hlg)
         |(answers & l' & lg & tail & o & Ha & Hnames & Hlg & Htail & ->)];
      cbn [log world config with_files with_config with_stdin]; intros Hin.
    - apply in_app_or in Hin as [Hin|Hin]; [now destruct (Hnot _ Hpre)|].
      now destruct (Hnot _ Hlg).
    - apply in_app_or in Hin as [Hin|Hin]; [now destruct (Hnot _ Hpre)|].
      apply in_app_or in Hin as [Hin|[Hin|Hin]];
        [now destruct (Hnot _ Hlg)| |now destruct (Hnot _ Htail)].
      inversion Hin; subst. split; [reflexivity|]. split; [reflexivity|].
      split.
      + now apply (onboarded_preferences (config W) prefs answers "").
      + intros k. now apply (onboarded_preferences (config W) prefs answers k). }
  rewrite stepOnboarding_unfold.
  rewrite (bind_after (gets config) _ W W (config W) [] eq_refl), after_nil.
  cbv beta. rewrite Hprefs.
  destruct (truthy (get (config W) "onboardingComplete")).
  - match goal with
    | |- context [prompt [?q]] => destruct (prompt_cases q W) as [[l H]|(v & l & H)]
    end.
    + match goal with
      | |- context [bind ?m ?K W] =>
          assert (H1 : m W = Run Halt (with_stdin l W) [])
      end.
      { rewrite (bind_after (member (VObj prefs) "userName") _ W W _ [] eq_refl), after_nil.
        rewrite (bind_after (member (VObj prefs) "mode") _ W W _ [] eq_refl), after_nil.
        exact (bind_Halt _ _ _ _ _ H). }
      rewrite (bind_Halt _ _ _ _ _ H1). intros [].
    + match goal with
      | |- context [bind ?m ?K W] =>
          assert (H1 : m W = Run (Return (negb (truthy v))) (with_stdin l W)
                               [Asked "redo" v])
      end.
      { rewrite (bind_after (member (VObj prefs) "userName") _ W W _ [] eq_refl), after_nil.
        rewrite (bind_after (member (VObj prefs) "mode") _ W W _ [] eq_refl), after_nil.
        rewrite (bind_after _ _ _ _ _ _ H). reflexivity. }
      rewrite (bind_after _ _ _ _ _ _ H1).
      destruct (negb (truthy v)).
      * cbn. intros [Hin|[]]. discriminate.
      * apply Hbody. repeat constructor.
  - rewrite (bind_after (ret false) _ W W false [] eq_refl).
    pose proof (Hbody (stdin W) [] (Forall_nil _)) as Hb.
    rewrite with_stdin_same in Hb. exact Hb.
Qed.

(** X22: onboarding reads [config.preferences.userName] before it asks
    anything, so preferences that are [null] or [undefined] (a configuration
    file may say so) make the step throw a TypeError at once, with nothing
    asked or changed. *)
Theorem onboarding_needs_preferences (W : World) :
  get (config W) "preferences" = VNull \/ get (config W) "preferences" = VUndefined ->
  exists e, stepOnboarding host W = Run (Throw e) W [].
Proof.
  intros Hprefs. rewrite stepOnboarding_unfold.
  rewrite (bind_after (gets config) _ W W (config W) [] eq_refl), after_nil.
  cbv beta.
  destruct (truthy (get (config W) "onboardingComplete")).
  - destruct Hprefs as [-> | ->]; eexists;
      match goal with
      | |- bind ?m ?K W = _ =>
          assert (H1 : m W = Run (Throw _) W []) by reflexivity;
          rewrite (bind_Throw _ _ _ _ _ _ H1)
      end; reflexivity.
  - rewrite (bind_after (ret false) _ W W false [] eq_refl), after_nil.
    unfold onboard.
    rewrite (bind_after (gets config) _ W W (config W) [] eq_refl), after_nil.
    cbv beta. destruct Hprefs as [-> | ->]; eexists; reflexivity.
Qed.

End PreferenceClaims.

(** X23: the final configuration leaves the configuration and the files
    alone unless advanced settings are asked for; then it writes the
    configuration once, and every preference other than [rpcEndpoint],
    [logLevel] and [autoUpdate] has the value it had. *)
Theorem advanced_settings_keep_other_preferences (W : World)
    (prefs : list (string * jsval)) :
  get (config W) "preferences" = VObj prefs ->
  NoDup (map fst prefs) ->
  (Forall (fun e => asked e = true) (log (stepFinalConfiguration W))
   /\ config (world (stepFinalConfiguration W)) = config W
   /\ files (world (stepFinalConfiguration W)) = files W)
  \/ (exists v,
        In (Asked "configureAdvanced" v) (log (stepFinalConfiguration W))
        /\ truthy v = true
        /\ out (stepFinalConfiguration W) = Return tt
        /\ files (world (stepFinalConfiguration W))
           = (CONFIG_FILE, json (config (world (stepFinalConfiguration W)))) :: files W
        /\ forall k, ~ In k ["rpcEndpoint"; "logLevel"; "autoUpdate"] ->
             get (get (config (world (stepFinalConfiguration W))) "preferences") k
             = lookup k prefs).
Proof.
  intros Hprefs Hnd. unfold stepFinalConfiguration.
  match goal with
  | |- context [prompt [?q]] => destruct (prompt_cases q W) as [[l H]|(v & l & H)]
  end.
  { left. rewrite (bind_Halt _ _ _ _ _ H). cbn. repeat split. constructor. }
  rewrite (bind_after _ _ _ _ _ _ H). cbv beta.
  cbn [get lookup qname confirm_question String.eqb Ascii.eqb Bool.eqb].
  destruct (truthy v) eqn:Hv.
  2:{ left. cbn. repeat split. repeat constructor. }
  rewrite (bind_after (gets config) _ _ _ _ [] eq_refl), after_nil. cbv beta.
  cbn [config with_stdin]. rewrite Hprefs.
  repeat (match goal with
          | |- context [bind (member (VObj prefs) ?k) ?f ?W1] =>
              rewrite (bind_after (member (VObj prefs) k) f W1 W1 (lookup k prefs) []
                         eq_refl), after_nil; cbv beta
          end).
  match goal with
  | |- context [bind (prompt ?qs) ?f (with_stdin l W)] =>
      destruct (prompt_returns qs (with_stdin l W))
        as [(l' & lg & Hrun & Hlg)|(fs & l' & lg & Hrun & Hlg & Hfs & Hkeys)]
  end.
  - left. rewrite (bind_Halt _ _ _ _ _ Hrun). cbn. repeat split.
    constructor; [reflexivity|exact Hlg].
  - right. exists v. rewrite (bind_after _ _ _ _ _ _ Hrun).
    rewrite (bind_after _ _ _ _ _ _ (modify_run _ _)), after_nil.
    rewrite (saveConfig_run _).
    cbn [after out world log config files with_files with_config with_stdin].
    split; [now left|]. split; [exact Hv|]. split; [reflexivity|].
    split; [reflexivity|].
    intros k Hk.
    now apply (merged_preferences (config W) prefs fs
                 ["rpcEndpoint"; "logLevel"; "autoUpdate"]).
Qed.

(** ** The other steps on the sample machines *)
Module StepExamples.

Import Sample Cases.

(** [createBox_is_a_rectangle] on a box of three lines. *)
Lemma createBox_example :
  let content := js ("Wallet Details" ++ newline ++ newline ++ "Network: devnet") in
  let title := js "Wallet Ready" in
  length title <= box_width content
  /\ createBox None content title = inr (join_lines (box_rows content title))
  /\ length (box_rows content title) = 5
  /\ Forall (fun row => length row = 21) (box_rows content title).
Proof.
  intros content title.
  assert (Hfit : length title <= box_width content) by (vm_compute; lia).
  destruct (createBox_is_a_rectangle content title Hfit) as (Hbox & Hrows & Hlen & _).
  split; [exact Hfit|]. split; [exact Hbox|]. split; [exact Hrows|exact Hlen].
Defined.

(** [createBox_rejects_a_long_title] on a title of twelve characters over
    a content of two. *)
Lemma createBox_long_title_example :
  box_width (js "ok") < length (js "A long title")
  /\ createBox None (js "ok") (js "A long title") = inl "Invalid count value: -3".
Proof.
  assert (Hlong : box_width (js "ok") < length (js "A long title")) by (vm_compute; lia).
  split; [exact Hlong|].
  exact (createBox_rejects_a_long_title (js "ok") (js "A long title") Hlong).
Defined.

(** [readline_one_line_per_question] on two questions and three lines. *)
Lemma readline_example :
  let questions := [text_question "input" "seedPhrase" None;
                    confirm_question "continue" (VBool true)] in
  let W := world0 false (counting 0) ["abandon"; "Yes"; "left"] in
  inquirer W = false
  /\ length questions <= length (stdin W)
  /\ exists answers,
       prompt questions W
       = Run (Return answers) (with_stdin [js "left"] W)
             [Asked "seedPhrase" (VStr (js "abandon")); Asked "continue" (VBool true)]
       /\ get answers "seedPhrase" = VStr (js "abandon")
       /\ get answers "continue" = VBool true.
Proof.
  intros questions W.
  assert (Hlen : length questions <= length (stdin W)) by (vm_compute; lia).
  split; [reflexivity|]. split; [exact Hlen|].
  destruct (readline_one_line_per_question questions W eq_refl Hlen)
    as (answers & Hrun & Hget).
  exists answers. split; [exact Hrun|]. split.
  - apply (Hget 0 (text_question "input" "seedPhrase" None) (js "abandon"));
      try reflexivity.
    intros [|[|[|j]]] q' Hj Hq'; try lia; try discriminate.
    inversion Hq'; subst. discriminate.
  - apply (Hget 1 (confirm_question "continue" (VBool true)) (js "Yes"));
      try reflexivity.
    intros [|[|[|j]]] q' Hj Hq'; try lia; discriminate.
Defined.

(** [readline_runs_dry] on two questions and one line. *)
Lemma readline_runs_dry_example :
  let questions := [text_question "password" "password" None;
                    text_question "password" "confirmPassword" None] in
  let W := world0 false (counting 0) ["secret"] in
  inquirer W = false
  /\ length (stdin W) < length questions
  /\ prompt questions W
     = Run Halt (with_stdin [] W) [Asked "password" (VStr (js "secret"))]
  /\ length (log (prompt questions W)) = 1.
Proof.
  intros questions W.
  assert (Hlen : length (stdin W) < length questions) by (vm_compute; lia).
  split; [reflexivity|]. split; [exact Hlen|].
  exact (readline_runs_dry questions W eq_refl Hlen).
Defined.

(** [readline_ignores_validation] on the password question with and
    without its check. *)
Lemma readline_ignores_validation_example :
  let checked := text_question "password" "password"
                   (Some (fun input => (8 <=? js_length input)%nat)) in
  let unchecked := text_question "password" "password" None in
  let W := world0 false (counting 0) ["abc"] in
  inquirer W = false
  /\ Forall2 same_but_validate [checked] [unchecked]
  /\ prompt [checked] W = prompt [unchecked] W.
Proof.
  intros checked unchecked W.
  assert (Hsame : Forall2 same_but_validate [checked] [unchecked])
    by (repeat constructor).
  split; [reflexivity|]. split; [exact Hsame|].
  exact (readline_ignores_validation [checked] [unchecked] W eq_refl Hsame).
Defined.

(** [welcome_needs_a_yes_without_inquirer] on a user who presses Enter. *)
Lemma welcome_example :
  let W := first_run false [""; "y"] in
  stdin W = [] :: [js "y"]
  /\ stepWelcome W
     = Run (Return (Exit 0)) (with_stdin [js "y"] W) [Asked "proceed" (VBool false)]
  /\ out (stepWelcome (first_run true [""; "y"])) = Return Continue.
Proof.
  intros W.
  destruct (welcome_needs_a_yes_without_inquirer W [] [js "y"] eq_refl) as [Hplain _].
  destruct (welcome_needs_a_yes_without_inquirer (first_run true [""; "y"]) []
              [js "y"] eq_refl) as [_ Hui].
  split; [reflexivity|]. split; [exact (Hplain eq_refl)|exact (Hui eq_refl)].
Defined.


(** [failed_installation_is_not_recorded] on an installation with npm
    that ends with status 1, leaving its log on disk. *)
Lemma failed_installation_example :
  let W := first_run true ["npm"; "y"] in
  let r := stepInstallOpenClaw laptop W in
  In (Reported "Installation failed: Command failed with code 1") (log r)
  /\ files (world r) = [("~/.npm/_logs/debug.log", VStr (js "npm ERR!"))]
  /\ Forall (fun e => wrote e = false) (log r)
  /\ config (world r) = config W
  /\ exists m e,
       In (Asked "installMethod" m) (log r)
       /\ out (installCommands laptop m W) = Throw e
       /\ "Installation failed: Command failed with code 1"
          = ("Installation failed: " ++ e)%string
       /\ files (world r) = files (world (installCommands laptop m W)).
Proof.
  intros W r.
  assert (Hin : In (Reported "Installation failed: Command failed with code 1")
                   (log r)) by (vm_compute; pick).
  split; [exact Hin|]. split; [reflexivity|].
  exact (failed_installation_is_not_recorded laptop W _ Hin).
Defined.

(** [installation_is_recorded_on_success] on an installation with yarn. *)
Lemma installation_example :
  let W := first_run true ["yarn"; "y"] in
  let doc := json (installed_config first_config (VStr (js "yarn"))) in
  In (Wrote CONFIG_FILE doc) (log (stepInstallOpenClaw laptop W))
  /\ exists m,
       In (Asked "installMethod" m) (log (stepInstallOpenClaw laptop W))
       /\ (exists output, out (installCommands laptop m W) = Return output)
       /\ config (world (stepInstallOpenClaw laptop W)) = installed_config (config W) m
       /\ CONFIG_FILE = CONFIG_FILE
       /\ doc = json (installed_config (config W) m)
       /\ filter wrote (log (stepInstallOpenClaw laptop W)) = [Wrote CONFIG_FILE doc]
       /\ files (world (stepInstallOpenClaw laptop W))
          = (CONFIG_FILE, doc) :: files (world (installCommands laptop m W))
       /\ forall msg, ~ In (Reported msg) (log (stepInstallOpenClaw laptop W)).
Proof.
  intros W doc.
  assert (Hin : In (Wrote CONFIG_FILE doc) (log (stepInstallOpenClaw laptop W)))
    by (vm_compute; pick).
  split; [exact Hin|].
  exact (installation_is_recorded_on_success laptop W CONFIG_FILE doc Hin).
Defined.

(** [other_methods_are_installed_with_pnpm] on a user who, without
    inquirer, types the number of the first menu entry ("npm"). *)
Lemma menu_number_example :
  let W := first_run false ["1"; "y"] in
  In (Asked "installMethod" (VStr (js "1"))) (log (stepInstallOpenClaw laptop W))
  /\ filter called (log (stepInstallOpenClaw laptop W))
     = [Called "spawn" [VStr (js "pnpm add -g @openclaw/cli")]].
Proof.
  intros W.
  assert (Hin : In (Asked "installMethod" (VStr (js "1")))
                   (log (stepInstallOpenClaw laptop W))) by (vm_compute; pick).
  split; [exact Hin|].
  exact (other_methods_are_installed_with_pnpm laptop W (VStr (js "1")) Hin
           eq_refl eq_refl eq_refl eq_refl).
Defined.

(** [loadConfig_keeps_what_the_file_lacks] on a file that sets [installed]
    and says nothing of the version. *)
Lemma loadConfig_example :
  let W := second_run true [] in
  find_file CONFIG_FILE (files W) = Some (VObj stored_config)
  /\ get (config (world (loadConfig W))) "installed" = VBool true
  /\ get (config (world (loadConfig W))) "version" = VStr (js "1.0.0")
  /\ get (config (world (loadConfig W))) "preferences" = VNull.
Proof.
  intros W.
  assert (Hfile : find_file CONFIG_FILE (files W) = Some (VObj stored_config))
    by reflexivity.
  assert (Hd : NoDup (map fst [("version", VStr (js "1.0.0")); ("installed", VBool false);
                               ("wallet", VNull);
                               ("preferences", VObj [("theme", VStr (js "dark"))]);
                               ("onboardingComplete", VBool false)]))
    by (repeat constructor; cbn; intuition discriminate).
  assert (Hs : NoDup (map fst stored_config))
    by (repeat constructor; cbn; intuition discriminate).
  split; [exact Hfile|].
  split; [|split].
  - exact (proj2 (proj2 (proj2 (loadConfig_keeps_what_the_file_lacks W _ stored_config
                                  "installed" eq_refl Hd Hfile Hs)))).
  - exact (proj2 (proj2 (proj2 (loadConfig_keeps_what_the_file_lacks W _ stored_config
                                  "version" eq_refl Hd Hfile Hs)))).
  - exact (proj2 (proj2 (proj2 (loadConfig_keeps_what_the_file_lacks W _ stored_config
                                  "preferences" eq_refl Hd Hfile Hs)))).
Defined.

(** [loadConfig_survives_a_bad_file] on a file whose text does not parse. *)
Lemma bad_file_example :
  let W := with_files [(CONFIG_FILE, VUndefined)] (first_run true []) in
  (exists doc, find_file CONFIG_FILE (files W) = Some doc /\ parses doc = false)
  /\ loadConfig W = Run (Return tt) W [].
Proof.
  intros W.
  assert (Hbad : exists doc, find_file CONFIG_FILE (files W) = Some doc
                             /\ parses doc = false)
    by (exists VUndefined; split; reflexivity).
  split; [exact Hbad|].
  exact (loadConfig_survives_a_bad_file W (or_intror Hbad)).
Defined.

(** [saved_configuration_loads_back] on a configuration with a wallet
    whose public key is [undefined]. *)
Lemma save_and_load_example :
  let wallet := VObj [("publicKey", VUndefined); ("network", VStr (js "devnet"))] in
  let W := with_config (VObj [("version", VStr (js "1.0.0")); ("wallet", wallet)])
             (first_run true []) in
  get (config (world (loadConfig (world (saveConfig W))))) "wallet"
  = VObj [("network", VStr (js "devnet"))]
  /\ get (config (world (loadConfig (world (saveConfig W))))) "version"
     = VStr (js "1.0.0").
Proof.
  intros wallet W.
  assert (Hnd : NoDup (map fst [("version", VStr (js "1.0.0")); ("wallet", wallet)]))
    by (repeat constructor; cbn; intuition discriminate).
  split.
  - exact (saved_configuration_loads_back W _ "wallet" eq_refl Hnd).
  - exact (saved_configuration_loads_back W _ "version" eq_refl Hnd).
Defined.

(** [onboarding_keeps_other_preferences] on a first run: the theme of an
    earlier run is still there. *)
Lemma onboarding_example :
  let W := first_run true [""; "advanced"; "n"; ""; "y"] in
  let r := stepOnboarding laptop W in
  let doc := hd VUndefined (flat_map (fun e => match e with
                                              | Wrote _ d => [d]
                                              | _ => []
                                              end) (log r)) in
  In (Wrote CONFIG_FILE doc) (log r)
  /\ doc = json (config (world r))
  /\ get (config (world r)) "onboardingComplete" = VBool true
  /\ get (get (config (world r)) "preferences") "theme" = VStr (js "dark")
  /\ get (get (config (world r)) "preferences") "userName" = VStr (js "ann")
  /\ get (get (config (world r)) "preferences") "telemetry" = VBool false.
Proof.
  intros W r doc.
  assert (Hin : In (Wrote CONFIG_FILE doc) (log r)) by (vm_compute; pick).
  assert (Hnd : NoDup (map fst [("theme", VStr (js "dark"))]))
    by (repeat constructor; cbn; intuition).
  destruct (onboarding_keeps_other_preferences laptop W _ CONFIG_FILE doc eq_refl Hnd Hin)
    as (_ & Hdoc & Hdone & Hkeep).
  split; [exact Hin|]. split; [exact Hdoc|]. split; [exact Hdone|].
  split; [|split; vm_compute; reflexivity].
  apply (Hkeep "theme"). cbn. intuition discriminate.
Defined.

(** [onboarding_needs_preferences] after a configuration file with
    [preferences] null was loaded. *)
Lemma null_preferences_example :
  let W := world (loadConfig (second_run true ["ann"])) in
  get (config W) "preferences" = VNull
  /\ stepOnboarding laptop W
     = Run (Throw "Cannot read properties of null (reading 'userName')") W [].
Proof.
  intros W.
  assert (Hnull : get (config W) "preferences" = VNull) by reflexivity.
  split; [exact Hnull|].
  destruct (onboarding_needs_preferences laptop W (or_introl Hnull)) as [e He].
  rewrite He. vm_compute in He. now inversion He.
Defined.

(** [advanced_settings_keep_other_preferences] on a user who sets the log
    level. *)
Lemma advanced_settings_example :
  let W := first_run true ["y"; ""; "trace"; "n"] in
  let r := stepFinalConfiguration W in
  get (config W) "preferences" = VObj [("theme", VStr (js "dark"))]
  /\ get (get (config (world r)) "preferences") "theme" = VStr (js "dark")
  /\ get (get (config (world r)) "preferences") "logLevel" = VStr (js "trace")
  /\ files (world r) = [(CONFIG_FILE, json (config (world r)))].
Proof.
  intros W r.
  assert (Hnd : NoDup (map fst [("theme", VStr (js "dark"))]))
    by (repeat constructor; cbn; intuition).
  split; [reflexivity|].
  destruct (advanced_settings_keep_other_preferences W _ eq_refl Hnd)
    as [(_ & _ & Hfiles)|(v & _ & _ & _ & Hfiles & Hkeep)].
  - exfalso. vm_compute in Hfiles. discriminate.
  - split; [|split; [vm_compute; reflexivity|exact Hfiles]].
    apply (Hkeep "theme"). cbn. intuition discriminate.
Defined.

End StepExamples.

(** ** The two files of the wallet step *)

Lemma get_json_assign (k : string) (v : jsval) (fs : list (string * jsval)) :
  v <> VUndefined -> get (json (VObj (assign k v fs))) k = json v.
Proof.
  intros Hv. induction fs as [|[k0 v0] fs IH]; cbn [assign].
  - rewrite json_cons. destruct v; try congruence; cbn; now rewrite String.eqb_refl.
  - destruct (String.eqb k k0) eqn:E0.
    + rewrite json_cons. destruct v; try congruence; cbn; now rewrite String.eqb_refl.
    + rewrite json_cons. destruct (json_obj (assign k v fs)) as [r Hr].
      rewrite Hr in *. destruct v0; cbn [get lookup]; rewrite ?E0; exact IH.
Qed.

Lemma keys_set (fs : list (string * jsval)) (k : string) (v : jsval) (x : string) :
  In x (keys (set (VObj fs) k v)) <-> x = k \/ In x (map fst fs).
Proof. cbn. apply keys_assign. Qed.

Lemma keys_json (v : jsval) (x : string) : In x (keys (json v)) -> In x (keys v).
Proof.
  destruct v as [| | | | | |fs]; try (cbn; tauto).
  destruct (json_obj fs) as [r Hr]. rewrite Hr. cbn [keys].
  now apply json_keys.
Qed.

Lemma keystore_record_keys (wd ed : jsval) (now : jsstring) :
  keys (keystore_record wd ed now) = KEYSTORE_FIELDS.
Proof. reflexivity. Qed.

Section WalletFiles.

Context {crypto : CryptoLib} {solana : SolanaLib}.

(** [saveWallet]: the keystore, the configuration with the record in it,
    the seed phrase of a created wallet, and, once the network is chosen, the
    configuration again. *)
Lemma saveWallet_run (a wd ed : jsval) (W : World) :
  let record := keystore_record wd ed (clock W) in
  let c1 := stored_wallet_config (config W) record in
  exists shown,
    Forall (fun e => wrote e = false /\ asked e = false) shown
    /\ ((out (saveWallet a wd ed W) = Halt
         /\ log (saveWallet a wd ed W)
            = [Wrote WALLET_FILE (json record); Wrote CONFIG_FILE (json c1)] ++ shown
         /\ config (world (saveWallet a wd ed W)) = c1)
        \/ (exists n,
              out (saveWallet a wd ed W) = Return tt
              /\ log (saveWallet a wd ed W)
                 = [Wrote WALLET_FILE (json record); Wrote CONFIG_FILE (json c1)]
                   ++ shown
                   ++ [Asked "network" n;
                       Wrote CONFIG_FILE
                         (json (set c1 "wallet" (set (get c1 "wallet") "network" n)))]
              /\ config (world (saveWallet a wd ed W))
                 = set c1 "wallet" (set (get c1 "wallet") "network" n))).
Proof.
  cbv zeta. unfold saveWallet, ensureDir.
  rewrite (bind_after (ret tt) _ W W tt [] eq_refl), after_nil.
  rewrite (bind_after (gets clock) _ W W (clock W) [] eq_refl), after_nil.
  cbv beta zeta.
  fold (keystore_record wd ed (clock W)).
  set (record := keystore_record wd ed (clock W)).
  match goal with
  | |- context [bind (writeFile ?p ?d) ?f W] =>
      rewrite (bind_after (writeFile p d) f W
                 (with_files ((p, json d) :: files W) W) tt [Wrote p (json d)] eq_refl)
  end.
  rewrite (bind_after _ _ _ _ _ _ (modify_run _ _)), after_nil.
  rewrite (bind_after _ _ _ _ _ _ (saveConfig_run _)).
  cbn [config files with_files with_config].
  fold (stored_wallet_config (config W) record).
  set (c1 := stored_wallet_config (config W) record).
  set (shown := if strict_eq a (VStr (js "create"))
                then [Shown (js_or (get wd "seedPhrase")
                               (VStr (js ("[Seed phrase would be shown here in production]"
                                          ++ newline))))]
                else []).
  exists shown. split.
  { subst shown. destruct (strict_eq a (VStr (js "create"))); repeat constructor. }
  match goal with
  | |- context [bind ?m ?f ?W1] =>
      match m with
      | (if _ then _ else _) =>
          assert (Hs : m W1 = Run (Return tt) W1 shown)
            by (subst shown; destruct (strict_eq a (VStr (js "create"))); reflexivity);
          rewrite (bind_after _ f _ _ _ _ Hs)
      end
  end.
  match goal with
  | |- context [bind (prompt [?q]) ?f ?W1] =>
      destruct (prompt_cases q W1) as [[l H]|(n & l & H)]
  end.
  - left. rewrite (bind_Halt _ _ _ _ _ H).
    cbn [after out world log app config with_stdin with_files with_config].
    rewrite app_nil_r. repeat split.
  - right. exists n. rewrite (bind_after _ _ _ _ _ _ H). cbv beta zeta.
    cbn [get lookup qname list_question String.eqb Ascii.eqb Bool.eqb].
    rewrite (bind_after _ _ _ _ _ _ (modify_run _ _)), after_nil.
    rewrite (saveConfig_run _).
    cbn [after out world log app config files with_files with_config with_stdin].
    repeat split.
Qed.

(** *** What the record is made of *)












Lemma working_is_idle (e : event) : working e -> idle e.
Proof.
  destruct e; cbn; try contradiction; trivial.
  intros H ->. discriminate.
Qed.

Lemma idle_wrote (l : list event) (e : event) :
  Forall idle l -> In e l -> wrote e = false.
Proof.
  intros Hl He. rewrite Forall_forall in Hl. specialize (Hl _ He). now destruct e.
Qed.

Lemma idle_network (l : list event) (n : jsval) :
  Forall idle l -> ~ In (Asked "network" n) l.
Proof.
  intros Hl He. rewrite Forall_forall in Hl. now specialize (Hl _ He).
Qed.

Lemma idle_shown (l : list event) (text : jsval) :
  Forall idle l -> ~ In (Shown text) l.
Proof.
  intros Hl He. rewrite Forall_forall in Hl. now specialize (Hl _ He).
Qed.

(** What the [try] block writes, [saveWallet] wrote, for the wallet
    [walletFor] returned and from a configuration that was still the one the
    step began with. *)
Lemma walletBody_saves (a : jsval) (W : World) :
  Forall idle (log (walletBody a W))
  \/ exists wd ed W1 before,
       out (walletFor a W) = Return wd
       /\ config W1 = config W
       /\ Forall idle before
       /\ log (walletBody a W) = before ++ log (saveWallet a wd ed W1)
       /\ world (walletBody a W) = world (saveWallet a wd ed W1)
       /\ out (walletBody a W) = out (saveWallet a wd ed W1)
       /\ out (secureWallet wd (world (walletFor a W))) = Return ed
       /\ before = log (walletFor a W) ++ log (secureWallet wd (world (walletFor a W)))
       /\ clock W1 = clock W
       /\ entropy (world (walletFor a W)) = entropy W
       /\ devnet_wallet wd.
Proof.
  set (J := fun W' : World => config W' = config W /\ clock W' = clock W
                              /\ entropy W' = entropy W).
  assert (HJin : input_free J) by (intros W' l H; exact H).
  assert (HJdr : draw_free J) by (intros W' c H; exact H).
  destruct (walletFor_preparing J HJin HJdr a W (conj eq_refl (conj eq_refl eq_refl)))
    as (HJa & Hla & Hnet).
  apply (Forall_impl _ preparing_working) in Hla.
  apply (Forall_impl _ working_is_idle) in Hla.
  unfold walletBody.
  destruct (walletFor a W) as [[wd|e1|] Wa la] eqn:Hw; cbn [out world log] in *.
  2:{ left. rewrite (bind_Throw _ _ _ _ _ _ Hw). exact Hla. }
  2:{ left. rewrite (bind_Halt _ _ _ _ _ Hw). exact Hla. }
  rewrite (bind_after _ _ _ _ _ _ Hw).
  rewrite out_after, world_after, log_after.
  destruct (secureWallet_working J HJin HJdr wd Wa HJa) as (HJs & Hls & _).
  apply (Forall_impl _ working_is_idle) in Hls.
  destruct (secureWallet wd Wa) as [[ed|e2|] Ws ls] eqn:Hs; cbn [out world log] in *.
  2:{ left. rewrite (bind_Throw _ _ _ _ _ _ Hs). cbn [log]. now apply Forall_app. }
  2:{ left. rewrite (bind_Halt _ _ _ _ _ Hs). cbn [log]. now apply Forall_app. }
  right. rewrite (bind_after _ _ _ _ _ _ Hs).
  rewrite out_after, world_after, log_after.
  exists wd, ed, Ws, (la ++ ls). split; [reflexivity|]. split; [exact (proj1 HJs)|].
  split; [now apply Forall_app|]. split; [now rewrite app_assoc|].
  split; [reflexivity|]. split; [reflexivity|].
  split; [cbn [world]; now rewrite Hs|].
  split; [cbn [world log]; now rewrite Hs|].
  split; [exact (proj1 (proj2 HJs))|].
  split; [exact (proj2 (proj2 HJa))|exact (proj1 (Hnet wd eq_refl))].
Qed.

(** The wallet step: nothing written or shown, or the run of [saveWallet]
    between events that write and show nothing. *)
Lemma stepWalletSetup_saves (W : World) :
  (forall e, In e (log (stepWalletSetup W)) -> idle e \/ reported e = true)
  \/ exists a wd ed W1 before behind l0 l,
       out (walletFor a (with_stdin l0 W)) = Return wd
       /\ In (Asked "walletAction" a) before
       /\ config W1 = config W
       /\ Forall idle before
       /\ Forall idle behind
       /\ log (stepWalletSetup W) = before ++ log (saveWallet a wd ed W1) ++ behind
       /\ world (stepWalletSetup W) = with_stdin l (world (saveWallet a wd ed W1))
       /\ out (secureWallet wd (world (walletFor a (with_stdin l0 W)))) = Return ed
       /\ (exists front,
             Forall (fun e => asked e = true) front
             /\ before = front ++ log (walletFor a (with_stdin l0 W))
                          ++ log (secureWallet wd (world (walletFor a (with_stdin l0 W)))))
       /\ Forall (fun e => asked e = true) behind
       /\ clock W1 = clock W
       /\ entropy (world (walletFor a (with_stdin l0 W))) = entropy W
       /\ devnet_wallet wd.
Proof.
  assert (Hfront : forall pre a, declined_keep pre ->
                     Forall (fun e => asked e = true) (pre ++ [Asked "walletAction" a])).
  { intros pre a [->|(v & -> & _)]; repeat constructor. }
  assert (Hasked : forall pre, declined_keep pre -> Forall idle pre).
  { intros pre [->|(v & -> & _)]; repeat constructor. discriminate. }
  assert (Hleft : forall l0, Forall idle l0 ->
                             forall e, In e l0 -> idle e \/ reported e = true).
  { intros l0 H0 e He. left. rewrite Forall_forall in H0. now apply H0. }
  destruct (stepWalletSetup_cases W)
    as [(l & pre & Hpre & H)|[(l & v & Hv & H)|[(l & pre & a & Hpre & Ha & H)
        |(l & pre & a & Hpre & Ha & H)]]];
    rewrite H; clear H.
  - left. apply Hleft. now apply Hasked.
  - left. apply Hleft. repeat constructor. discriminate.
  - left. apply Hleft. apply Forall_app. split; [now apply Hasked|].
    repeat constructor. discriminate.
  - rewrite log_after, world_after.
    match goal with
    | |- context [prompt [?q]] =>
        destruct (then_question (configureWallet a) q (with_stdin l W))
          as (l' & tail & Hlog & Hworld & Htail & _)
    end.
    rewrite Hlog, Hworld.
    assert (Htail' : Forall idle tail).
    { eapply Forall_impl; [|exact Htail]. intros e [v ->]. discriminate. }
    assert (Hhead : Forall idle (pre ++ [Asked "walletAction" a])).
    { apply Forall_app. split; [now apply Hasked|]. repeat constructor. discriminate. }
    change (configureWallet a) with
      (try (walletBody a)
           (fun error => emit (Reported ("Wallet setup failed: " ++ error)%string))).
    unfold try.
    assert (Hasked' : Forall (fun e => asked e = true) tail).
    { eapply Forall_impl; [|exact Htail]. now intros e [v ->]. }
    destruct (walletBody_saves a (with_stdin l W))
      as [Hquiet|(wd & ed & W1 & before & Hwd & Hcfg & Hbefore & Hbody & Hw & Ho
                  & Hed & Hparts & Hclock & Hentropy & Hdevnet)].
    + left. destruct (walletBody a (with_stdin l W)) as [[[]|e|] W2 l2];
        cbn [out world log emit app] in *.
      * apply Hleft. apply Forall_app. split; [exact Hhead|]. now apply Forall_app.
      * intros ev Hev. apply in_app_or in Hev as [Hev|Hev];
          [now apply (Hleft _ Hhead)|].
        apply in_app_or in Hev as [Hev|Hev]; [|now apply (Hleft _ Htail')].
        apply in_app_or in Hev as [Hev|[<-|[]]]; [now apply (Hleft _ Hquiet)|].
        now right.
      * apply Hleft. apply Forall_app. split; [exact Hhead|]. now apply Forall_app.
    + right.
      pose proof (never_throws_saveWallet a wd ed W1) as Hnever.
      assert (Hin : In (Asked "walletAction" a)
                       ((pre ++ [Asked "walletAction" a]) ++ before)).
      { apply in_or_app. left. apply in_or_app. right. now left. }
      destruct (walletBody a (with_stdin l W)) as [[[]|e|] W2 l2];
        cbn [out world log emit app] in *.
      * exists a, wd, ed, W1, ((pre ++ [Asked "walletAction" a]) ++ before), tail, l, l'.
        split; [exact Hwd|]. split; [exact Hin|].
        split; [exact Hcfg|]. split; [now apply Forall_app|]. split; [exact Htail'|].
        rewrite Hbody, Hw. split; [now rewrite <- !app_assoc|].
        split; [reflexivity|]. split; [exact Hed|].
        split.
        { exists (pre ++ [Asked "walletAction" a]).
          split; [now apply Hfront|now rewrite Hparts]. }
        split; [exact Hasked'|]. split; [exact Hclock|].
        split; [exact Hentropy|exact Hdevnet].
      * symmetry in Ho. now destruct (Hnever e).
      * exists a, wd, ed, W1, ((pre ++ [Asked "walletAction" a]) ++ before), tail, l, l'.
        split; [exact Hwd|]. split; [exact Hin|].
        split; [exact Hcfg|]. split; [now apply Forall_app|]. split; [exact Htail'|].
        rewrite Hbody, Hw. split; [now rewrite <- !app_assoc|].
        split; [reflexivity|]. split; [exact Hed|].
        split.
        { exists (pre ++ [Asked "walletAction" a]).
          split; [now apply Hfront|now rewrite Hparts]. }
        split; [exact Hasked'|]. split; [exact Hclock|].
        split; [exact Hentropy|exact Hdevnet].
Qed.


(** X24: the wallet the step stores in config.json is the keystore record:
    it has the five fields of the record and no other, so neither the secret
    key nor its base58 form nor the seed phrase, and it agrees with the
    keystore file written before it in everything but the network. *)
Theorem configuration_holds_no_plain_key (W : World)
    (fields : list (string * jsval)) (doc : jsval) :
  config W = VObj fields ->
  In (Wrote CONFIG_FILE doc) (log (stepWalletSetup W)) ->
  incl (keys (get doc "wallet")) KEYSTORE_FIELDS
  /\ exists keystore,
       In (Wrote WALLET_FILE keystore) (log (stepWalletSetup W))
       /\ forall k, k <> "network" -> get (get doc "wallet") k = get keystore k.
Proof.
  intros Hcfg Hin.
  destruct (stepWalletSetup_saves W)
    as [Hquiet|(a & wd & ed & W1 & before & behind & l0 & l & _ & _ & Hc & Hbefore
                & Hbehind & Hlog & _)].
  { destruct (Hquiet _ Hin) as [[]|H]. discriminate. }
  rewrite Hlog in *. clear Hlog.
  apply in_app_or in Hin as [Hin|Hin]; [now apply (idle_wrote _ _ Hbefore) in Hin|].
  apply in_app_or in Hin as [Hin|Hin]; [|now apply (idle_wrote _ _ Hbehind) in Hin].
  destruct (saveWallet_run a wd ed W1) as (shown & Hshown & Hrun).
  cbv zeta in Hrun. rewrite Hc, Hcfg in Hrun.
  set (record := keystore_record wd ed (clock W1)) in *.
  assert (Hstored : get (json (stored_wallet_config (VObj fields) record)) "wallet"
                    = json record).
  { unfold stored_wallet_config. cbn [set]. now apply get_json_assign. }
  assert (Hkeys : incl (keys (json record)) KEYSTORE_FIELDS).
  { intros x Hx. apply keys_json in Hx. exact Hx. }
  assert (Hshown' : forall e, In e shown -> wrote e = false).
  { intros e He. rewrite Forall_forall in Hshown. now destruct (Hshown _ He). }
  assert (Hfirst : In (Wrote WALLET_FILE (json record))
                      (before ++ log (saveWallet a wd ed W1) ++ behind)).
  { apply in_or_app. right. apply in_or_app. left.
    destruct Hrun as [(_ & -> & _)|(n & _ & -> & _)]; now left. }
  assert (Hchosen : forall n,
            get (json (set (stored_wallet_config (VObj fields) record) "wallet"
                         (set (get (stored_wallet_config (VObj fields) record) "wallet")
                              "network" n))) "wallet"
            = json (set record "network" n)).
  { intros n. unfold stored_wallet_config. rewrite get_set_same.
    cbn [set]. apply get_json_assign. subst record. discriminate. }
  assert (Hother : forall n k, k <> "network" ->
            get (json (set record "network" n)) k = get (json record) k).
  { intros n k Hk. subst record. unfold keystore_record.
    cbn [set assign String.eqb Ascii.eqb Bool.eqb].
    rewrite !get_json by (cbn; repeat constructor; cbn; intuition discriminate).
    cbn [lookup]. destruct (String.eqb k "publicKey"); [reflexivity|].
    destruct (String.eqb k "network") eqn:E; [|reflexivity].
    apply String.eqb_eq in E. contradiction. }
  assert (Hkeys' : forall n, incl (keys (json (set record "network" n))) KEYSTORE_FIELDS).
  { intros n x Hx. apply keys_json in Hx. subst record. cbn in Hx. exact Hx. }
  destruct Hrun as [(_ & Hl & _)|(n & _ & Hl & _)]; rewrite Hl in Hin;
    cbn [app] in Hin.
  - destruct Hin as [Hin|[Hin|Hin]]; [discriminate| |now apply Hshown' in Hin].
    match type of Hin with
      | Wrote _ ?d = Wrote _ doc => assert (Hd : doc = d) by congruence; rewrite Hd
      end. rewrite Hstored. split; [exact Hkeys|].
    exists (json record). split; [exact Hfirst|reflexivity].
  - destruct Hin as [Hin|[Hin|Hin]]; [discriminate| |].
    + match type of Hin with
      | Wrote _ ?d = Wrote _ doc => assert (Hd : doc = d) by congruence; rewrite Hd
      end. rewrite Hstored. split; [exact Hkeys|].
      exists (json record). split; [exact Hfirst|reflexivity].
    + apply in_app_or in Hin as [Hin|[Hin|[Hin|[]]]];
        [now apply Hshown' in Hin|discriminate|].
      match type of Hin with
      | Wrote _ ?d = Wrote _ doc => assert (Hd : doc = d) by congruence; rewrite Hd
      end. rewrite Hchosen. split; [apply Hkeys'|].
      exists (json record). split; [exact Hfirst|]. intros k Hk. now apply Hother.
Qed.

(** X25: the network that is chosen goes to the configuration and to
    config.json only: once the network question is answered, the wallet of
    the configuration has that network, and the configuration is written
    again (the keystore file keeps 'devnet'). *)
Theorem chosen_network_goes_to_the_configuration (W : World)
    (fields : list (string * jsval)) (n : jsval) :
  config W = VObj fields ->
  In (Asked "network" n) (log (stepWalletSetup W)) ->
  get (get (config (world (stepWalletSetup W))) "wallet") "network" = n
  /\ In (Wrote CONFIG_FILE (json (config (world (stepWalletSetup W)))))
        (log (stepWalletSetup W)).
Proof.
  intros Hcfg Hin.
  destruct (stepWalletSetup_saves W)
    as [Hquiet|(a & wd & ed & W1 & before & behind & l0 & l & _ & _ & Hc & Hbefore
                & Hbehind & Hlog & Hworld & _)].
  { destruct (Hquiet _ Hin) as [H|H]; [now destruct H|discriminate]. }
  rewrite Hlog, Hworld in *. clear Hlog Hworld.
  apply in_app_or in Hin as [Hin|Hin]; [now destruct (idle_network _ n Hbefore)|].
  apply in_app_or in Hin as [Hin|Hin]; [|now destruct (idle_network _ n Hbehind)].
  destruct (saveWallet_run a wd ed W1) as (shown & Hshown & Hrun).
  cbv zeta in Hrun. rewrite Hc, Hcfg in Hrun.
  set (record := keystore_record wd ed (clock W1)) in *.
  assert (Hshown' : ~ In (Asked "network" n) shown).
  { intros He. rewrite Forall_forall in Hshown. destruct (Hshown _ He). discriminate. }
  destruct Hrun as [(_ & Hl & _)|(n' & _ & Hl & Hw)]; rewrite Hl in *;
    cbn [app] in Hin.
  - exfalso. destruct Hin as [Hin|[Hin|Hin]]; [discriminate|discriminate|].
    now apply Hshown'.
  - destruct Hin as [Hin|[Hin|Hin]]; [discriminate|discriminate|].
    apply in_app_or in Hin as [Hin|[Hin|[Hin|[]]]];
      [now destruct Hshown'| |discriminate].
    assert (n' = n) by congruence. subst n'.
    cbn [config with_stdin]. rewrite Hw. split.
    + unfold stored_wallet_config. cbn [set get].
      rewrite !lookup_assign, !String.eqb_refl. subst record. reflexivity.
    + apply in_or_app. right. apply in_or_app. left. cbn [app].
      right. right. apply in_or_app. right. right. now left.
Qed.

(** X26: the seed phrase the step shows is the one the new wallet was made
    from: something is shown only after 'create' was chosen and the keystore
    was written, it is the mnemonic of the sixteen random bytes drawn first
    (the placeholder of line 948 if that mnemonic is the empty string), and
    the public key in the keystore is the one derived from that mnemonic. *)
Theorem shown_phrase_is_the_wallets (W : World) (text : jsval) :
  In (Shown text) (log (stepWalletSetup W)) ->
  let phrase := entropyToMnemonic (drawn W 0 16) in
  text = js_or (VStr phrase) NO_PHRASE
  /\ In (Asked "walletAction" (VStr (js "create"))) (log (stepWalletSetup W))
  /\ exists kp keystore,
       derivedKeypair (VStr phrase) = inr kp
       /\ In (Wrote WALLET_FILE keystore) (log (stepWalletSetup W))
       /\ get keystore "publicKey" = VStr (toBase58 (publicKey kp)).
Proof.
  intros Hin phrase.
  destruct (stepWalletSetup_saves W)
    as [Hquiet|(a & wd & ed & W1 & before & behind & l0 & l & Hwd & Ha & Hc & Hbefore
                & Hbehind & Hlog & _)].
  { destruct (Hquiet _ Hin) as [H|H]; [now destruct H|discriminate]. }
  rewrite Hlog in *. clear Hlog.
  apply in_app_or in Hin as [Hin|Hin]; [now destruct (idle_shown _ text Hbefore)|].
  apply in_app_or in Hin as [Hin|Hin]; [|now destruct (idle_shown _ text Hbehind)].
  assert (Hcreate : strict_eq a (VStr (js "create")) = true
                    /\ text = js_or (get wd "seedPhrase") NO_PHRASE
                    /\ In (Wrote WALLET_FILE (json (keystore_record wd ed (clock W1))))
                          (log (saveWallet a wd ed W1))).
  { unfold saveWallet, ensureDir in *.
    rewrite (bind_after (ret tt) _ W1 W1 tt [] eq_refl), after_nil in *.
    rewrite (bind_after (gets clock) _ W1 W1 (clock W1) [] eq_refl), after_nil in *.
    cbv beta zeta in *.
    fold (keystore_record wd ed (clock W1)) in *.
    set (record := keystore_record wd ed (clock W1)) in *.
    match type of Hin with
    | context [bind (writeFile ?p ?d) ?f W1] =>
        rewrite (bind_after (writeFile p d) f W1
                   (with_files ((p, json d) :: files W1) W1) tt [Wrote p (json d)]
                   eq_refl) in *
    end.
    rewrite log_after in *. split; [|split; [|now left]].
    - destruct (strict_eq a (VStr (js "create"))) eqn:Hc'; [reflexivity|exfalso].
      destruct Hin as [Hin|Hin]; [discriminate|].
      rewrite (bind_after _ _ _ _ _ _ (modify_run _ _)), after_nil in Hin.
      rewrite (bind_after _ _ _ _ _ _ (saveConfig_run _)), log_after in Hin.
      destruct Hin as [Hin|Hin]; [discriminate|].
      rewrite (bind_after (ret tt) _ _ _ tt [] eq_refl), after_nil in Hin.
      match type of Hin with
      | context [bind (prompt [?q]) ?f ?W2] =>
          destruct (prompt_cases q W2) as [[l1 H]|(n & l1 & H)]
      end.
      + rewrite (bind_Halt _ _ _ _ _ H) in Hin. destruct Hin.
      + rewrite (bind_after _ _ _ _ _ _ H) in Hin. cbv beta zeta in Hin.
        rewrite (bind_after _ _ _ _ _ _ (modify_run _ _)), after_nil in Hin.
        rewrite (saveConfig_run _) in Hin. cbn [after log app] in Hin.
        destruct Hin as [Hin|[Hin|[]]]; discriminate.
    - destruct (strict_eq a (VStr (js "create"))) eqn:Hc'.
      + destruct Hin as [Hin|Hin]; [discriminate|].
        rewrite (bind_after _ _ _ _ _ _ (modify_run _ _)), after_nil in Hin.
        rewrite (bind_after _ _ _ _ _ _ (saveConfig_run _)), log_after in Hin.
        destruct Hin as [Hin|Hin]; [discriminate|].
        match type of Hin with
        | context [bind (emit ?ev) ?f ?W2] =>
            rewrite (bind_after (emit ev) f W2 W2 tt [ev] eq_refl), log_after in Hin
        end.
        destruct Hin as [Hin|Hin]; [unfold NO_PHRASE; congruence|exfalso].
        match type of Hin with
        | context [bind (prompt [?q]) ?f ?W2] =>
            destruct (prompt_cases q W2) as [[l1 H]|(n & l1 & H)]
        end.
        * rewrite (bind_Halt _ _ _ _ _ H) in Hin. destruct Hin.
        * rewrite (bind_after _ _ _ _ _ _ H) in Hin. cbv beta zeta in Hin.
          rewrite (bind_after _ _ _ _ _ _ (modify_run _ _)), after_nil in Hin.
          rewrite (saveConfig_run _) in Hin. cbn [after log app] in Hin.
          destruct Hin as [Hin|[Hin|[]]]; discriminate.
      + exfalso.
        destruct Hin as [Hin|Hin]; [discriminate|].
        rewrite (bind_after _ _ _ _ _ _ (modify_run _ _)), after_nil in Hin.
        rewrite (bind_after _ _ _ _ _ _ (saveConfig_run _)), log_after in Hin.
        destruct Hin as [Hin|Hin]; [discriminate|].
        rewrite (bind_after (ret tt) _ _ _ tt [] eq_refl), after_nil in Hin.
        match type of Hin with
        | context [bind (prompt [?q]) ?f ?W2] =>
            destruct (prompt_cases q W2) as [[l1 H]|(n & l1 & H)]
        end.
        * rewrite (bind_Halt _ _ _ _ _ H) in Hin. destruct Hin.
        * rewrite (bind_after _ _ _ _ _ _ H) in Hin. cbv beta zeta in Hin.
          rewrite (bind_after _ _ _ _ _ _ (modify_run _ _)), after_nil in Hin.
          rewrite (saveConfig_run _) in Hin. cbn [after log app] in Hin.
          destruct Hin as [Hin|[Hin|[]]]; discriminate. }
  destruct Hcreate as (Hcreate & Htext & Hkeystore).
  apply strict_eq_str in Hcreate. subst a.
  change (walletFor (VStr (js "create"))) with generateNewWallet in Hwd.
  pose proof (generateNewWallet_needs_sdk _ _ Hwd) as Hsdk.
  rewrite (generateNewWallet_run _ Hsdk) in Hwd. cbn [out] in Hwd.
  change (drawn (with_stdin l0 W) 0 16) with (drawn W 0 16) in Hwd. fold phrase in Hwd.
  destruct (derivedKeypair (VStr phrase)) as [e|kp] eqn:Hkp; [discriminate|].
  injection Hwd as <-.
  split; [exact Htext|]. split; [apply in_or_app; now left|].
  exists kp, (json (keystore_record (created_wallet phrase kp) ed (clock W1))).
  split; [reflexivity|]. split.
  - apply in_or_app. right. apply in_or_app. now left.
  - unfold keystore_record.
    rewrite get_json by (cbn; repeat constructor; cbn; intuition discriminate).
    reflexivity.
Qed.

End WalletFiles.

(** ** The two files on the sample machines *)
Module FileExamples.

Import Sample Cases.


(** [configuration_holds_no_plain_key] on a created wallet: the last
    config.json of the step. *)
Lemma configuration_example :
  let r := stepWalletSetup creating in
  let doc := json (config (world r)) in
  In (Wrote CONFIG_FILE doc) (log r)
  /\ incl (keys (get doc "wallet")) KEYSTORE_FIELDS
  /\ exists keystore,
       In (Wrote WALLET_FILE keystore) (log r)
       /\ forall k, k <> "network" -> get (get doc "wallet") k = get keystore k.
Proof.
  intros r doc.
  assert (Hin : In (Wrote CONFIG_FILE doc) (log r)) by (vm_compute; pick).
  split; [exact Hin|].
  exact (@configuration_holds_no_plain_key crypto solana creating _ doc eq_refl Hin).
Defined.

(** [chosen_network_goes_to_the_configuration] on a hardware wallet for
    which 'mainnet-beta' was chosen. *)
Lemma network_example :
  let r := stepWalletSetup connecting in
  In (Asked "network" (VStr (js "mainnet-beta"))) (log r)
  /\ get (get (config (world r)) "wallet") "network" = VStr (js "mainnet-beta")
  /\ In (Wrote CONFIG_FILE (json (config (world r)))) (log r).
Proof.
  intros r.
  assert (Hin : In (Asked "network" (VStr (js "mainnet-beta"))) (log r))
    by (vm_compute; pick).
  split; [exact Hin|].
  exact (@chosen_network_goes_to_the_configuration crypto solana connecting _ _
           eq_refl Hin).
Defined.

(** [shown_phrase_is_the_wallets] on a created wallet. *)
Lemma shown_phrase_example :
  let r := stepWalletSetup creating in
  let phrase := entropyToMnemonic (drawn creating 0 16) in
  In (Shown (VStr phrase)) (log r)
  /\ VStr phrase = js_or (VStr phrase) NO_PHRASE
  /\ In (Asked "walletAction" (VStr (js "create"))) (log r)
  /\ exists kp keystore,
       derivedKeypair (VStr phrase) = inr kp
       /\ In (Wrote WALLET_FILE keystore) (log r)
       /\ get keystore "publicKey" = VStr (toBase58 (publicKey kp)).
Proof.
  intros r phrase.
  assert (Hin : In (Shown (VStr phrase)) (log r)) by (vm_compute; pick).
  split; [exact Hin|].
  exact (@shown_phrase_is_the_wallets crypto solana creating (VStr phrase) Hin).
Defined.

End FileExamples.
